(** * NCCI release resolver: a shallow embedding of
      [getConvertLatestPracPTPEdits.py] and of [load_cci_table],
      [load_rvu_table] and the combination search of [home] in [app.py]

    Python values are modelled as follows.
    - [str]  : [text], a list of characters.  Characters are the 256 code
      points of Rocq's [ascii] (Latin-1); among them only '0'..'9' are
      decimal digits and only 'A'..'Z' change under case folding with the
      letters used by the patterns of the program.
    - [int]  : [Z] (unbounded).
    - [bytes]: [list Byte.byte].
    - exceptions: the [exn] type, carried by a state-and-error monad.
    - [dict] : stdpp's [gmap].
    - [float]: an abstract type with the operations that the code uses. *)

From Stdlib Require Import ZArith Lia Bool Ascii String List.
From stdpp Require Import gmap strings list sorting.
Import ListNotations.

Local Open Scope Z_scope.

Abbreviation text := (list ascii).

(** ** Characters, digits and the formatting of integers *)
Module Text.

Definition code (c : ascii) : nat := nat_of_ascii c.

Definition chr (n : nat) : ascii := ascii_of_nat n.

Definition lit (s : string) : text := list_ascii_of_string s.

Definition LF : ascii := chr 10.
Definition BACKSLASH : ascii := chr 92.

(** [\d] on the modelled code points. *)
Definition is_digit (c : ascii) : bool :=
  (Nat.leb 48 (code c)) && (Nat.leb (code c) 57).

Definition is_upper (c : ascii) : bool :=
  (Nat.leb 65 (code c)) && (Nat.leb (code c) 90).

(** [str.lower] on one character. *)
Definition lower (c : ascii) : ascii :=
  if is_upper c then chr (code c + 32) else c.

(** Character equality under [re.IGNORECASE]. *)
Definition eq_ci (c d : ascii) : bool := Ascii.eqb (lower c) (lower d).

(** [str.isspace] / [\s]: TAB..CR, FS..US, space, NEL and NBSP. *)
Definition is_space (c : ascii) : bool :=
  let n := code c in
  (Nat.leb 9 n && Nat.leb n 13) || (Nat.leb 28 n && Nat.leb n 32)
  || Nat.eqb n 133 || Nat.eqb n 160.

Definition digit_val (c : ascii) : Z := Z.of_nat (code c) - 48.

Definition digit_chr (d : Z) : ascii := chr (48 + Z.to_nat d).

(** [int(s)] for a non-empty run of digits [s].  (CPython's cap on the
    length of the decimal text of an [int], 4300 digits unless
    configured otherwise, is not modelled.) *)
Definition int_from (acc : Z) (ds : text) : Z :=
  fold_left (fun a c => 10 * a + digit_val c) ds acc.

Definition int_of_digits (ds : text) : Z := int_from 0 ds.

Fixpoint digits_aux (fuel : nat) (n : Z) (acc : text) : text :=
  match fuel with
  | O => acc
  | S f =>
      let acc' := digit_chr (n mod 10) :: acc in
      if n / 10 =? 0 then acc' else digits_aux f (n / 10) acc'
  end.

(** Decimal digits of a natural number [0 <= n], most significant first. *)
Definition dec (n : Z) : text := digits_aux (S (Z.to_nat (Z.log2 n))) n [].

(** [str(n)] and the format spec [{n}] for an [int]. *)
Definition str_int (n : Z) : text :=
  if n <? 0 then "-"%char :: dec (- n) else dec n.

Definition zfill (width : nat) (ds : text) : text :=
  repeat "0"%char (width - length ds) ++ ds.

(** The format spec [{n:03d}]: sign-aware zero padding to width 3. *)
Definition fmt_03d (n : Z) : text :=
  if n <? 0 then "-"%char :: zfill 2 (dec (- n)) else zfill 3 (dec n).

Fixpoint starts_with (p s : text) : bool :=
  match p, s with
  | [], _ => true
  | a :: p', b :: s' => Ascii.eqb a b && starts_with p' s'
  | _ :: _, [] => false
  end.

(** Prefix test under [re.IGNORECASE]. *)
Fixpoint starts_with_ci (p s : text) : bool :=
  match p, s with
  | [], _ => true
  | a :: p', b :: s' => eq_ci a b && starts_with_ci p' s'
  | _ :: _, [] => false
  end.

Definition ends_with (p s : text) : bool := starts_with (rev p) (rev s).

(** Maximal run of characters satisfying [f], and what follows it. *)
Fixpoint span (f : ascii -> bool) (s : text) : text * text :=
  match s with
  | c :: s' =>
      if f c then let '(a, b) := span f s' in (c :: a, b) else ([], s)
  | [] => ([], [])
  end.

(** [$] without [re.MULTILINE]: the end of the string, or just before a
    line feed that ends the string. *)
Definition at_dollar (s : text) : bool :=
  match s with
  | [] => true
  | [c] => Ascii.eqb c LF
  | _ => false
  end.

(** [str.strip()]. *)
Fixpoint lstrip (s : text) : text :=
  match s with
  | c :: s' => if is_space c then lstrip s' else s
  | [] => []
  end.

Definition strip (s : text) : text := rev (lstrip (rev (lstrip s))).

End Text.

(** ** Exceptions and results *)

Inductive exn : Type :=
| ValueError (msg : string)        (* missing token, duplicate labels *)
| AttributeError                   (* [.group] on a failed [re.search] *)
| RuntimeError                     (* the response is not a valid ZIP *)
| FileNotFoundError                (* no .xlsx or .txt inside the zip *)
| BadZipFile                       (* [zipfile] cannot read the archive *)
| ParseError                       (* a pandas reader raised *)
| OSError.                         (* a file could not be read or written,
                                      a directory could not be made *)

Inductive result (A : Type) : Type :=
| Ok (a : A)
| Raise (e : exn).

Arguments Ok {A} a.
Arguments Raise {A} e.

(** ** URL templates: the three patterns and the field rewriters *)
Module Url.
Import Text.

(** A successful match of a pattern at some position: [m.group(0)], the
    named groups, and the rest of the subject after [m.end()]. *)
Record rmatch (G : Type) : Type := RMatch {
  group0 : text;
  groups : G;
  after : text
}.

Arguments RMatch {G} group0 groups after.
Arguments group0 {G} r.
Arguments groups {G} r.
Arguments after {G} r.

(** [pattern.search(s)]: the leftmost position at which the pattern
    matches.  [bos] tells whether the position is the beginning of the
    subject ([^]); the result carries the text before [m.start()]. *)
Fixpoint search {G : Type} (match_at : bool -> text -> option (rmatch G))
    (bos : bool) (s : text) : option (text * rmatch G) :=
  match match_at bos s with
  | Some m => Some ([], m)
  | None =>
      match s with
      | [] => None
      | c :: s' =>
          match search match_at false s' with
          | Some (p, m) => Some (c :: p, m)
          | None => None
          end
      end
  end.

(** [pattern.sub(repl, s, count=1)] with a replacement function. *)
Definition sub_first {G : Type} (match_at : bool -> text -> option (rmatch G))
    (repl : rmatch G -> text) (s : text) : text :=
  match search match_at true s with
  | Some (p, m) => p ++ repl m ++ after m
  | None => s
  end.

Definition is_delim (c : ascii) : bool :=
  Ascii.eqb c "-" || Ascii.eqb c "_".

(** The part [v(?P<v>\d{3})r(?P<r>\d+)(?:[-_]|$)] of [_VERSION_RE], after
    the text [lead] already consumed by [(?:^|[-_])].  [\d+] is greedy; a
    shorter run is followed by a digit, where neither [[-_]] nor [$]
    matches, so only the maximal run can succeed. *)
Definition match_vr_body (lead s : text) : option (rmatch (text * text)) :=
  match s with
  | cv :: d1 :: d2 :: d3 :: cr :: s1 =>
      if eq_ci cv "v" && is_digit d1 && is_digit d2 && is_digit d3
         && eq_ci cr "r"
      then
        let '(rs, s2) := span is_digit s1 in
        let tok := lead ++ cv :: d1 :: d2 :: d3 :: cr :: rs in
        match rs with
        | [] => None
        | _ :: _ =>
            match s2 with
            | c :: s3 =>
                if is_delim c then Some (RMatch (tok ++ [c]) ([d1; d2; d3], rs) s3)
                else if at_dollar s2 then Some (RMatch tok ([d1; d2; d3], rs) s2)
                else None
            | [] => Some (RMatch tok ([d1; d2; d3], rs) [])
            end
        end
      else None
  | _ => None
  end.

(** [_VERSION_RE] at one position: the alternative [^] first, then [[-_]]. *)
Definition match_vr (bos : bool) (s : text) : option (rmatch (text * text)) :=
  match (if bos then match_vr_body [] s else None) with
  | Some m => Some m
  | None =>
      match s with
      | c :: s' => if is_delim c then match_vr_body [c] s' else None
      | [] => None
      end
  end.

(** [_QTR_RE = (?P<y>20\d{2})q(?P<q>[1-4])], ignoring case. *)
Definition is_quarter_digit (c : ascii) : bool :=
  (Nat.leb 49 (code c)) && (Nat.leb (code c) 52).

Definition match_qtr (bos : bool) (s : text) : option (rmatch (text * text)) :=
  match s with
  | c2 :: c0 :: d1 :: d2 :: cq :: q :: s' =>
      if Ascii.eqb c2 "2" && Ascii.eqb c0 "0" && is_digit d1 && is_digit d2
         && eq_ci cq "q" && is_quarter_digit q
      then Some (RMatch [c2; c0; d1; d2; cq; q] ([c2; c0; d1; d2], [q]) s')
      else None
  | _ => None
  end.

(** [_F_RE = -f(?P<f>[12])(?=\.zip|[-_])], ignoring case; the lookahead
    consumes nothing. *)
Definition is_12 (c : ascii) : bool := Ascii.eqb c "1" || Ascii.eqb c "2".

Definition match_f (bos : bool) (s : text) : option (rmatch text) :=
  match s with
  | ch :: cf :: n :: s' =>
      if Ascii.eqb ch "-" && eq_ci cf "f" && is_12 n
         && (starts_with_ci (lit ".zip") s'
             || match s' with c :: _ => is_delim c | [] => false end)
      then Some (RMatch [ch; cf; n] [n] s')
      else None
  | _ => None
  end.

(** [\.zip$], ignoring case. *)
Definition match_zip_end (bos : bool) (s : text) : option (rmatch unit) :=
  match s with
  | c1 :: c2 :: c3 :: c4 :: s' =>
      if starts_with_ci (lit ".zip") [c1; c2; c3; c4] && at_dollar s'
      then Some (RMatch [c1; c2; c3; c4] tt s')
      else None
  | _ => None
  end.

Definition _parse_vr (url : text) : result (Z * Z) :=
  match search match_vr true url with
  | None => Raise (ValueError "Missing v###r# in URL.")
  | Some (_, m) =>
      Ok (int_of_digits (fst (groups m)), int_of_digits (snd (groups m)))
  end.

Definition _parse_quarter (url : text) : result (Z * Z) :=
  match search match_qtr true url with
  | None => Raise (ValueError "Missing YYYYq# in URL.")
  | Some (_, m) =>
      Ok (int_of_digits (fst (groups m)), int_of_digits (snd (groups m)))
  end.

Definition _next_quarter (y q : Z) : Z * Z :=
  if q <? 4 then (y, q + 1) else (y + 1, 1).

(** The nested function [repl] of [_set_vr]. *)
Definition set_vr_repl (v r : Z) (m : rmatch (text * text)) : text :=
  let prefix := if starts_with (lit "-") (group0 m) then lit "-" else [] in
  let suffix := if ends_with (lit "-") (group0 m) then lit "-" else [] in
  prefix ++ lit "v" ++ fmt_03d v ++ lit "r" ++ str_int r ++ suffix.

Definition _set_vr (url : text) (v r : Z) : text :=
  sub_first match_vr (set_vr_repl v r) url.

Definition _set_quarter (url : text) (y q : Z) : text :=
  sub_first match_qtr (fun _ => str_int y ++ lit "q" ++ str_int q) url.

(** The second substitution has no [count], but a match of [\.zip$] leaves
    at most a line feed after it, where the pattern cannot match again. *)
Definition _with_f (url : text) (fnum : Z) : text :=
  match search match_f true url with
  | Some _ => sub_first match_f (fun _ => lit "-f" ++ str_int fnum) url
  | None =>
      sub_first match_zip_end
        (fun _ => lit "-f" ++ str_int fnum ++ lit ".zip") url
  end.

Definition _pair_f1_f2 (base_f1_url : text) : text * text :=
  (_with_f base_f1_url 1, _with_f base_f1_url 2).

(** [file=([^&]+)]: case-sensitive; the class also matches a line feed. *)
Definition match_file_param (bos : bool) (s : text) : option (rmatch text) :=
  if starts_with (lit "file=") s then
    let '(g, s') := span (fun c => negb (Ascii.eqb c "&")) (skipn 5 s) in
    match g with
    | [] => None
    | _ :: _ => Some (RMatch (lit "file=" ++ g) g s')
    end
  else None.

(** [os.path.basename] (posix): the text after the last slash. *)
Definition basename (p : text) : text :=
  rev (fst (span (fun c => negb (Ascii.eqb c "/")) (rev p))).

(** [os.path.splitext(p)[0]]: cut at the last dot, unless that dot comes
    before the last slash or only dots precede it in the file name. *)
Definition splitext_root (p : text) : text :=
  let '(ext_rev, rest_rev) := span (fun c => negb (Ascii.eqb c ".")) (rev p) in
  match rest_rev with
  | [] => p
  | _ :: root_rev =>
      if existsb (Ascii.eqb "/") ext_rev then p
      else
        let name_rev := fst (span (fun c => negb (Ascii.eqb c "/")) root_rev) in
        if existsb (fun c => negb (Ascii.eqb c ".")) name_rev
        then rev root_rev else p
  end.

(** [-f[12]$], case-sensitive. *)
Definition match_f_end (bos : bool) (s : text) : option (rmatch unit) :=
  match s with
  | ch :: cf :: n :: s' =>
      if Ascii.eqb ch "-" && Ascii.eqb cf "f" && is_12 n && at_dollar s'
      then Some (RMatch [ch; cf; n] tt s')
      else None
  | _ => None
  end.

(** [(ccipra-[^/\\]+)$], ignoring case.  The class is greedy and also
    matches a line feed, so [$] is first tried at the end of the run: the
    pattern matches exactly when a non-empty text without slash or
    backslash follows [ccipra-] up to the end, and group 1 is all of it. *)
Definition match_ccipra_tail (bos : bool) (s : text) : option (rmatch text) :=
  if starts_with_ci (lit "ccipra-") s then
    let rest := skipn 7 s in
    match rest with
    | [] => None
    | _ :: _ =>
        if forallb (fun c => negb (Ascii.eqb c "/" || Ascii.eqb c BACKSLASH)) rest
        then Some (RMatch s s [])
        else None
    end
  else None.

(** The file name that [_combined_csv_path] computes from the URL before
    it creates [out_dir]: the path it returns is this name inside
    [out_dir]. *)
Definition combined_csv_name (base_f1_url : text) : result text :=
  match search match_file_param true base_f1_url with
  | None => Raise AttributeError
  | Some (_, m) =>
      let base := basename (groups m) in
      let stem := splitext_root base in
      let stem := sub_first match_f_end (fun _ => []) stem in
      let final :=
        match search match_ccipra_tail true stem with
        | Some (_, tail) => groups tail
        | None => stem
        end in
      Ok (final ++ lit "-f1f2.csv")
  end.

End Url.

(** ** The version marker [version.txt] *)
Module Version.
Import Text.

Abbreviation release := (Z * Z * Z * Z)%type.

(** [re.match(r"(\d{4})q(\d)\s+v(\d{3})r(\d+)", txt)]: anchored at the
    start only, case-sensitive. *)
Definition match_version_line (s : text) : option release :=
  match s with
  | y1 :: y2 :: y3 :: y4 :: cq :: q1 :: s1 =>
      if is_digit y1 && is_digit y2 && is_digit y3 && is_digit y4
         && Ascii.eqb cq "q" && is_digit q1
      then
        let '(ws, s2) := span is_space s1 in
        match ws, s2 with
        | _ :: _, cv :: v1 :: v2 :: v3 :: cr :: s3 =>
            if Ascii.eqb cv "v" && is_digit v1 && is_digit v2 && is_digit v3
               && Ascii.eqb cr "r"
            then
              let '(rs, _) := span is_digit s3 in
              match rs with
              | [] => None
              | _ :: _ =>
                  Some (int_of_digits [y1; y2; y3; y4], int_of_digits [q1],
                        int_of_digits [v1; v2; v3], int_of_digits rs)
              end
            else None
        | _, _ => None
        end
      else None
  | _ => None
  end.

(** The text [f"{y}q{q} v{v:03d}r{r}"] used by the marker and the
    status messages. *)
Definition release_text (y q v r : Z) : text :=
  str_int y ++ lit "q" ++ str_int q ++ lit " v" ++ fmt_03d v ++ lit "r"
  ++ str_int r.

Definition version_line (y q v r : Z) : text :=
  release_text y q v r ++ [LF].

End Version.

(** ** Candidate releases *)
Module Candidates.
Import Url.

(** [range(lo, hi)]. *)
Definition range (lo hi : Z) : list Z :=
  map (fun i => lo + Z.of_nat i) (seq 0 (Z.to_nat (hi - lo))).

(** The candidate search order built by
    [download_or_skip_both_with_version]. *)
Definition candidates (y q v r : Z) : list Version.release :=
  let c1 := map (fun trial_r => (y, q, v, trial_r)) (range (r + 1) (r + 6)) in
  let c2 := c1 ++ [(y, q, v + 1, 0)] in
  let '(ny, nq) := _next_quarter y q in
  (c2 ++ [(ny, nq, v + 1, 0)]) ++ [(ny, nq, v, 0)].

End Candidates.

(** ** Tables: the part of pandas used by the pipeline *)
Module Frame.
Import Text.

(** A cell is a string, or the missing value [NaN]. *)
Inductive cell : Type :=
| Str (s : text)
| NaN.

(** A [DataFrame] with the default integer index: its column labels and
    its rows, each row holding one cell per column. *)
Record DataFrame : Type := {
  columns : list text;
  rows : list (list cell)
}.

(** Rows are as wide as the column list. *)
Definition rectangular (df : DataFrame) : Prop :=
  Forall (fun row => length row = length (columns df)) (rows df).

(** Python's order on [str]: lexicographic on code points. *)
Fixpoint text_leb (a b : text) : bool :=
  match a, b with
  | [], _ => true
  | _ :: _, [] => false
  | x :: a', y :: b' =>
      if Nat.ltb (code x) (code y) then true
      else if Nat.eqb (code x) (code y) then text_leb a' b'
      else false
  end.

Definition text_le (a b : text) : Prop := text_leb a b = true.

#[global] Instance text_le_dec : RelDecision text_le.
Proof. intros a b. unfold text_le. apply bool_eq_dec. Defined.

(** [sorted(...)] on a list of distinct strings. *)
Definition sorted (l : list text) : list text := merge_sort text_le l.

(** Position of the first occurrence of a label. *)
Fixpoint index_of (c : text) (cols : list text) : option nat :=
  match cols with
  | [] => None
  | c' :: cols' =>
      if bool_decide (c = c') then Some O
      else option_map S (index_of c cols')
  end.

(** The cell of [row] under label [c], [NaN] where the frame has no such
    column. *)
Definition project (cols : list text) (row : list cell) (c : text) : cell :=
  match index_of c cols with
  | Some k => nth k row NaN
  | None => NaN
  end.

(** [df.reindex(columns=new_cols)]: new labels are filled with [NaN];
    pandas refuses a frame whose own labels are not unique. *)
Definition reindex (new_cols : list text) (df : DataFrame) : result DataFrame :=
  if bool_decide (NoDup (columns df)) then
    Ok {| columns := new_cols;
          rows := map (fun row => map (project (columns df) row) new_cols)
                    (rows df) |}
  else Raise (ValueError "cannot reindex on an axis with duplicate labels").

Fixpoint reindex_all (new_cols : list text) (dfs : list DataFrame)
    : result (list DataFrame) :=
  match dfs with
  | [] => Ok []
  | df :: dfs' =>
      match reindex new_cols df with
      | Raise e => Raise e
      | Ok d =>
          match reindex_all new_cols dfs' with
          | Raise e => Raise e
          | Ok ds => Ok (d :: ds)
          end
      end
  end.

(** [_concat_dfs]: [set().union(...)] keeps one copy of every label,
    [sorted] orders them, and [pd.concat(..., ignore_index=True)] stacks
    the reindexed frames (it raises on an empty list). *)
Definition _concat_dfs (dfs : list DataFrame) : result DataFrame :=
  let all_cols := sorted (remove_dups (concat (map columns dfs))) in
  match reindex_all all_cols dfs with
  | Raise e => Raise e
  | Ok [] => Raise (ValueError "No objects to concatenate")
  | Ok ds => Ok {| columns := all_cols; rows := concat (map rows ds) |}
  end.

(** The cell of row [i] under label [c]. *)
Definition cell_at (df : DataFrame) (i : nat) (c : text) : option cell :=
  match nth_error (rows df) i, index_of c (columns df) with
  | Some row, Some k => nth_error row k
  | _, _ => None
  end.

(** What [to_csv] writes for a cell ([na_rep] is the empty string), as a
    CSV reader gets the field back. *)
Definition csv_value (c : cell) : text :=
  match c with
  | Str s => s
  | NaN => []
  end.

(** The program does not say which pandas it runs on, and the two
    lines of pandas differ on a table read with [dtype=str]. *)
Inductive pandas_version : Type :=
| Pandas2                      (* before 3.0: [object] columns *)
| Pandas3.                     (* 3.0 and later: [str] columns *)

(** [df.astype(str)] on a cell: before pandas 3 a missing cell becomes
    the string "nan"; from pandas 3 on the columns have the string
    type already and a missing cell stays missing. *)
Definition astype_str (pandas : pandas_version) (c : cell) : cell :=
  match c with
  | Str s => Str s
  | NaN =>
      match pandas with
      | Pandas2 => Str (lit "nan")
      | Pandas3 => NaN
      end
  end.

Definition expected : list text :=
  [lit "Column 1"; lit "Column 2"; lit "*=in existence"; lit "Effective";
   lit "Deletion"; lit "Modifier"; lit "PTP Edit Rationale"].

(** The normalisation at the end of [_read_zip_to_df]. *)
Definition normalise (pandas : pandas_version) (df : DataFrame) : DataFrame :=
  let cols := map strip (columns df) in
  let body := map (map (astype_str pandas)) (rows df) in
  {| columns := if Nat.eqb (length cols) (length expected) then expected else cols;
     rows := body |}.

End Frame.

(** ** The orchestrator [download_or_skip_both_with_version]

    The network, the archive reader, the pandas readers and the faults of
    the file system are the environment of the run; one call of
    [_fetch_zip_via_license] is one question to the network, answered
    by the archive bytes or by [None].  The directory
    [out_dir] is modelled by whether it exists and, when it does, by its
    durable content: the marker [version.txt] and the merged tables, by
    file name.  What the run prints and the debug page that a failed
    fetch may leave under [data/ncci/_debug] are not part of it. *)
Module Sync.
Import Text Url Version Candidates Frame.

Abbreviation bytes := (list Byte.byte).

Inductive marker_file : Type :=
| NoFile                       (* [vf.exists()] is false *)
| Unreadable                   (* [vf.read_text()] raises *)
| Content (txt : text).

Inductive csv_file : Type :=
| Table (df : DataFrame)
| Partial.                     (* left behind by a write that failed *)

Inductive disk : Type :=
| NoDir                        (* [out_dir] does not exist *)
| Dir (marker : marker_file) (tables : gmap text csv_file).

(** [out_dir / "version.txt"]. *)
Definition version_txt (d : disk) : marker_file :=
  match d with
  | NoDir => NoFile
  | Dir marker _ => marker
  end.

(** The merged tables of [out_dir]. *)
Definition csv_files (d : disk) : gmap text csv_file :=
  match d with
  | NoDir => ∅
  | Dir _ tables => tables
  end.

Inductive write_outcome : Type :=
| Written
| FailedUntouched              (* the write raised before touching the file *)
| FailedPartial.               (* the write raised after truncating the file *)

Inductive event : Type :=
| EvFetch (url : text) (ok : bool)
| EvToCsv (name : text) (o : write_outcome)
| EvWriteVersion (line : text) (o : write_outcome).

(** Truth value of an [Optional[bytes]]. *)
Definition truthy (r : option bytes) : bool :=
  match r with
  | Some (_ :: _) => true
  | _ => false
  end.

Abbreviation target := (release * text * text)%type.

Definition msg_up_to_date : text :=
  lit "Up to date — no newer release found.".

Definition msg_downloaded (y q v r : Z) : text :=
  lit "Downloaded initial version " ++ release_text y q v r ++ lit ".".

Definition msg_updated (y q v r : Z) : text :=
  lit "Updated to " ++ release_text y q v r ++ lit ".".

Section Run.

(** The state of the outside world, and what it answers. *)
Context {World : Type}.

(** [_fetch_zip_via_license]: one pass through the license gate. *)
Variable net_fetch : text -> World -> option bytes * World.
(** [zipfile.is_zipfile] and [zipfile.ZipFile]: the members in listing
    order, each with its content when it can be read. *)
Variable is_zipfile : bytes -> bool.
Variable ZipFile : bytes -> option (list (text * option bytes)).
(** The pandas readers with the options of the program; [None] when
    the reader raises. *)
Variable read_excel : bytes -> option DataFrame.
Variable read_csv : bytes -> option DataFrame.
Variable read_fwf : bytes -> option DataFrame.
(** The pandas that is installed. *)
Variable pandas : pandas_version.
(** [out_dir.mkdir(parents=True, exist_ok=True)] when [out_dir] does not
    exist: whether the directory could be made. *)
Variable mkdir : World -> bool * World.
(** The outcome of writing a merged table, and of writing the marker. *)
Variable csv_write : text -> World -> write_outcome * World.
Variable marker_write : World -> write_outcome * World.

Record state : Type := {
  world : World;
  files : disk;
  trace : list event
}.

Definition M (A : Type) : Type := state -> result A * state.

Definition ret {A : Type} (a : A) : M A := fun st => (Ok a, st).

Definition bind {A B : Type} (m : M A) (k : A -> M B) : M B :=
  fun st =>
    match m st with
    | (Ok a, st') => k a st'
    | (Raise e, st') => (Raise e, st')
    end.

Definition lift {A : Type} (r : result A) : M A := fun st => (r, st).

Definition log (e : event) (st : state) : state :=
  {| world := world st; files := files st; trace := trace st ++ [e] |}.

Notation "x <- m ;; k" := (bind m (fun x => k))
  (at level 100, m at next level, right associativity).

Definition _bytes_is_zip (b : bytes) : bool :=
  match b with
  | [] => false
  | _ :: _ => is_zipfile b
  end.

Definition _fetch_zip_via_license (url : text) : M (option bytes) :=
  fun st =>
    let '(r, w) := net_fetch url (world st) in
    (Ok r, log (EvFetch url (truthy r))
             {| world := w; files := files st; trace := trace st |}).

Definition is_data_member (name : text) : bool :=
  let n := map lower name in
  ends_with (lit ".xlsx") n || ends_with (lit ".txt") n.

(** [zf.read(name)]: the archive looks a name up in its directory,
    where a later entry replaces an earlier one of the same name. *)
Definition zip_read (members : list (text * option bytes)) (name : text)
    : option bytes :=
  match List.find (fun m => bool_decide (fst m = name)) (rev members) with
  | Some (_, blob) => blob
  | None => None
  end.

(** The first name of [zf.namelist()] with one of the two suffixes, and
    what [zf.read] gives for that name. *)
Definition _extract_member (zbytes : bytes) : result (text * bytes) :=
  match ZipFile zbytes with
  | None => Raise BadZipFile
  | Some members =>
      match List.find is_data_member (map fst members) with
      | None => Raise FileNotFoundError
      | Some name =>
          match zip_read members name with
          | Some blob => Ok (name, blob)
          | None => Raise BadZipFile
          end
      end
  end.

Definition of_reader (r : option DataFrame) : result DataFrame :=
  match r with
  | Some df => Ok df
  | None => Raise ParseError
  end.

Definition _read_zip_to_df (zbytes : option bytes) : result DataFrame :=
  if negb (truthy zbytes) || negb (_bytes_is_zip (default [] zbytes))
  then Raise RuntimeError
  else
    match _extract_member (default [] zbytes) with
    | Raise e => Raise e
    | Ok (name, blob) =>
        let df :=
          if ends_with (lit ".xlsx") (map lower name) then
            of_reader (read_excel blob)
          else
            match read_csv blob with
            | Some df => Ok df
            | None => of_reader (read_fwf blob)
            end in
        match df with
        | Raise e => Raise e
        | Ok df => Ok (normalise pandas df)
        end
    end.

Definition _read_local_version : M (option release) :=
  fun st =>
    match version_txt (files st) with
    | NoFile => (Ok None, st)
    | Unreadable => (Raise OSError, st)
    | Content txt => (Ok (match_version_line (strip txt)), st)
    end.

Definition csv_exists (name : text) : M bool :=
  fun st => (Ok (bool_decide (is_Some (csv_files (files st) !! name))), st).

(** Files change in a directory that exists. *)
Definition set_csv (name : text) (f : csv_file) (d : disk) : disk :=
  match d with
  | NoDir => NoDir
  | Dir marker tables => Dir marker (<[name := f]> tables)
  end.

Definition set_marker (m : marker_file) (d : disk) : disk :=
  match d with
  | NoDir => NoDir
  | Dir _ tables => Dir m tables
  end.

(** A file cannot be opened for writing in a directory that does not
    exist: the write raises and nothing is touched. *)
Definition write_into (d : disk) (w : World)
    (write : World -> write_outcome * World) : write_outcome * World :=
  match d with
  | NoDir => (FailedUntouched, w)
  | Dir _ _ => write w
  end.

(** [df.to_csv(csv_path, index=False)]. *)
Definition to_csv (name : text) (df : DataFrame) : M unit :=
  fun st =>
    let '(o, w) := write_into (files st) (world st) (csv_write name) in
    let st' := fun d => log (EvToCsv name o)
                 {| world := w; files := d; trace := trace st |} in
    match o with
    | Written => (Ok tt, st' (set_csv name (Table df) (files st)))
    | FailedUntouched => (Raise OSError, st' (files st))
    | FailedPartial => (Raise OSError, st' (set_csv name Partial (files st)))
    end.

(** [_write_local_version]; a write that fails after opening the file
    leaves it empty. *)
Definition _write_local_version (y q v r : Z) : M unit :=
  fun st =>
    let line := version_line y q v r in
    let '(o, w) := write_into (files st) (world st) marker_write in
    let st' := fun d => log (EvWriteVersion line o)
                 {| world := w; files := d; trace := trace st |} in
    match o with
    | Written => (Ok tt, st' (set_marker (Content line) (files st)))
    | FailedUntouched => (Raise OSError, st' (files st))
    | FailedPartial => (Raise OSError, st' (set_marker (Content []) (files st)))
    end.

(** [out_dir.mkdir(parents=True, exist_ok=True)]: nothing happens when
    the directory exists; else it is made, empty, or the call raises. *)
Definition out_dir_mkdir : M unit :=
  fun st =>
    match files st with
    | Dir _ _ => (Ok tt, st)
    | NoDir =>
        let '(made, w) := mkdir (world st) in
        if made
        then (Ok tt, {| world := w; files := Dir NoFile ∅; trace := trace st |})
        else (Raise OSError, {| world := w; files := NoDir; trace := trace st |})
    end.

(** [_combined_csv_path]: the name is worked out first, so a URL
    without a file parameter raises before the directory is made. *)
Definition _combined_csv_path (base_f1_url : text) : M text :=
  name <- lift (combined_csv_name base_f1_url) ;;
  _ <- out_dir_mkdir ;;
  ret name.

Definition candidate_urls (base_f1_url : text) (c : release) : text * text :=
  let '(cy, cq, cv, cr) := c in
  let url := _set_vr (_set_quarter base_f1_url cy cq) cv cr in
  _pair_f1_f2 url.

(** The loop "Try each candidate pair"; [and] does not evaluate its
    second operand when the first is false. *)
Fixpoint probe (base_f1_url : text) (cands : list release) : M (option target) :=
  match cands with
  | [] => ret None
  | c :: cands' =>
      let '(f1, f2) := candidate_urls base_f1_url c in
      b1 <- _fetch_zip_via_license f1 ;;
      if truthy b1 then
        b2 <- _fetch_zip_via_license f2 ;;
        if truthy b2 then ret (Some (c, f1, f2))
        else probe base_f1_url cands'
      else probe base_f1_url cands'
  end.

(** The expression [_concat_dfs([_read_zip_to_df(_fetch_zip_via_license(f1)),
    _read_zip_to_df(_fetch_zip_via_license(f2))])] of both branches: the
    list is evaluated from left to right, so the first file is fetched
    and read before the second is fetched. *)
Definition download_and_combine (f1 f2 : text) : M DataFrame :=
  b1 <- _fetch_zip_via_license f1 ;;
  df1 <- lift (_read_zip_to_df b1) ;;
  b2 <- _fetch_zip_via_license f2 ;;
  df2 <- lift (_read_zip_to_df b2) ;;
  lift (_concat_dfs [df1; df2]).

(** The version and quarter that the base URL encodes. *)
Definition release_of_url (base_f1_url : text) : result release :=
  match _parse_vr base_f1_url with
  | Raise e => Raise e
  | Ok (v, r) =>
      match _parse_quarter base_f1_url with
      | Raise e => Raise e
      | Ok (y, q) => Ok (y, q, v, r)
      end
  end.

(** "Load current version from version.txt (if any)": the stored
    release when the marker gives one, else the one of the base URL. *)
Definition resolve_local_version (base_f1_url : text) : M release :=
  local <- _read_local_version ;;
  match local with
  | Some l => ret l
  | None => lift (release_of_url base_f1_url)
  end.

Definition download_or_skip_both_with_version (base_f1_url : text)
    : M (text * text) :=
  start <- resolve_local_version base_f1_url ;;
  let '(y, q, v, r) := start in
  tgt <- probe base_f1_url (candidates y q v r) ;;
  csv_path <- _combined_csv_path base_f1_url ;;
  match tgt with
  | None =>
      there <- csv_exists csv_path ;;
      if there then ret (csv_path, msg_up_to_date)
      else
        let '(f1, f2) := _pair_f1_f2 base_f1_url in
        df <- download_and_combine f1 f2 ;;
        _ <- to_csv csv_path df ;;
        _ <- _write_local_version y q v r ;;
        ret (csv_path, msg_downloaded y q v r)
  | Some (cy, cq, cv, cr, f1, f2) =>
      df <- download_and_combine f1 f2 ;;
      csv_path <- _combined_csv_path f1 ;;
      _ <- to_csv csv_path df ;;
      _ <- _write_local_version cy cq cv cr ;;
      ret (csv_path, msg_updated cy cq cv cr)
  end.

(** A run from a given world and disk, with an empty trace. *)
Definition run (base_f1_url : text) (w : World) (d : disk)
    : result (text * text) * state :=
  download_or_skip_both_with_version base_f1_url
    {| world := w; files := d; trace := [] |}.

End Run.

End Sync.

(** ** The edit-pair table of [app.py] *)
Module Cci.
Import Text.

(** A value of a [csv.DictReader] row: a field, [None] for a field the
    line lacks ([restval]), or the list of surplus fields ([restkey]). *)
Inductive csv_value : Type :=
| Field (s : text)
| Missing
| Surplus (l : list text).

(** A row as [raw.items()] yields it: keys in insertion order, the key
    [None] for the surplus fields. *)
Abbreviation raw_row := (list (option text * csv_value)).

Definition is_alnum_lower (c : ascii) : bool :=
  is_digit c || (Nat.leb 97 (code c) && Nat.leb (code c) 122).

(** [re.sub(r"[^a-z0-9]+", "", k.lower())]. *)
Definition normalise_key (k : text) : text :=
  filter (fun c => Is_true (is_alnum_lower c)) (map lower k).

(** [(v or "").strip()]; a non-empty list has no [strip]. *)
Definition clean_value (v : csv_value) : result text :=
  match v with
  | Field s => Ok (strip s)
  | Missing => Ok []
  | Surplus [] => Ok []
  | Surplus (_ :: _) => Raise AttributeError
  end.

(** The dict comprehension that normalises one row; a later item
    replaces an earlier one with the same normalised key. *)
Fixpoint normalise_row (raw : raw_row) (row : gmap text text)
    : result (gmap text text) :=
  match raw with
  | [] => Ok row
  | (None, _) :: _ => Raise AttributeError
  | (Some k, v) :: raw' =>
      match clean_value v with
      | Raise e => Raise e
      | Ok s => normalise_row raw' (<[normalise_key k := s]> row)
      end
  end.

(** [row.get(k1) or row.get(k2) or ... or ""]. *)
Fixpoint first_nonempty (row : gmap text text) (keys : list string) : text :=
  match keys with
  | [] => []
  | k :: keys' =>
      match row !! lit k with
      | Some (c :: s) => c :: s
      | _ => first_nonempty row keys'
      end
  end.

(** The body of the loop over the rows of the reader. *)
Definition add_row (table : gmap (text * text) text) (row : gmap text text)
    : gmap (text * text) text :=
  let c1 := first_nonempty row ["column1"; "col1"; "c1"; "column"]%string in
  let c2 := first_nonempty row ["column2"; "col2"; "c2"]%string in
  let mod_ := first_nonempty row ["modifier"; "mod"]%string in
  match c1, c2 with
  | _ :: _, _ :: _ => <[(c2, c1) := mod_]> (<[(c1, c2) := mod_]> table)
  | _, _ => table
  end.

Fixpoint load_rows (rows : list raw_row) (table : gmap (text * text) text)
    : result (gmap (text * text) text) :=
  match rows with
  | [] => Ok table
  | raw :: rows' =>
      match normalise_row raw ∅ with
      | Raise e => Raise e
      | Ok row => load_rows rows' (add_row table row)
      end
  end.

(** [load_cci_table]: [None] stands for a missing file at [CCI_PATH],
    otherwise the rows that [csv.DictReader] yields. *)
Definition load_cci_table (file : option (list raw_row))
    : result (gmap (text * text) text) :=
  match file with
  | None => Ok ∅
  | Some rows => load_rows rows ∅
  end.

End Cci.

(** ** The RVU table of [app.py] *)
Module Rvu.
Import Text Cci.

(** [row.get(k)] on a row of the reader. *)
Definition row_get (raw : raw_row) (k : text) : option csv_value :=
  match List.find (fun kv => bool_decide (fst kv = Some k)) raw with
  | Some (_, v) => Some v
  | None => None
  end.

(** [row.get("code", "").strip()]: the default stands in for a column
    that the header lacks, not for a field that the line lacks. *)
Definition rvu_code (raw : raw_row) : result text :=
  match row_get raw (lit "code") with
  | None => Ok []
  | Some (Field s) => Ok (strip s)
  | Some Missing => Raise AttributeError
  | Some (Surplus _) => Raise AttributeError
  end.

Section Load.

(** Floating-point numbers: the value [0.0], and [float(s)] on a string,
    [None] when it raises. *)
Context {float : Type}.
Variable zero : float.
Variable float_of_text : text -> option float.

(** The [try] block: [float(row.get("work_rvu") or 0)], and [0.0] when
    that raises. *)
Definition rvu_value (raw : raw_row) : float :=
  match row_get raw (lit "work_rvu") with
  | Some (Field (c :: s)) => default zero (float_of_text (c :: s))
  | _ => zero
  end.

Fixpoint load_rvu_rows (rows : list raw_row) (table : gmap text float)
    : result (gmap text float) :=
  match rows with
  | [] => Ok table
  | raw :: rows' =>
      match rvu_code raw with
      | Raise e => Raise e
      | Ok [] => load_rvu_rows rows' table
      | Ok (c :: code) =>
          load_rvu_rows rows' (<[c :: code := rvu_value raw]> table)
      end
  end.

(** [load_rvu_table]: [None] stands for a missing file at [DATA_PATH],
    otherwise the rows that [csv.DictReader] yields. *)
Definition load_rvu_table (file : option (list raw_row))
    : result (gmap text float) :=
  match file with
  | None => Ok ∅
  | Some rows => load_rvu_rows rows ∅
  end.

End Load.

End Rvu.

(** ** The combination search of [home] in [app.py] *)
Module Home.
Import Text.

(** [s.split(",")]: the pieces between the commas, empty ones
    included; the empty string gives one empty piece. *)
Fixpoint split_comma (s : text) : list text :=
  match s with
  | [] => [[]]
  | c :: s' =>
      if Ascii.eqb c "," then [] :: split_comma s'
      else
        match split_comma s' with
        | w :: ws => (c :: w) :: ws
        | [] => [[c]]
        end
  end.

(** Truth value of a [str]. *)
Definition nonempty (s : text) : bool :=
  match s with
  | [] => false
  | _ :: _ => true
  end.

(** [[c.strip() for c in input_codes.split(",") if c.strip()]]. *)
Definition parse_codes (input_codes : text) : list text :=
  List.filter nonempty (map strip (split_comma input_codes)).

(** [itertools.combinations(l, r)]: the sub-lists of [r] elements, by
    position, in lexicographic order of the positions. *)
Fixpoint combinations {A : Type} (l : list A) (r : nat) : list (list A) :=
  match r, l with
  | O, _ => [[]]
  | S _, [] => []
  | S r', x :: l' => map (cons x) (combinations l' r') ++ combinations l' r
  end.

Section Search.

(** Floating-point numbers and the operations on them that [home] uses:
    the zero that [sum] starts from and that stands for a missing code,
    addition, and [round(_, 2)]. *)
Context {float : Type}.
Variable zero : float.
Variable add : float -> float -> float.
Variable round2 : float -> float.

Variable RVU_TABLE : gmap text float.
Variable CCI_TABLE : gmap (text * text) text.

(** An entry of [combos]. *)
Record combo : Type := {
  codes : list text;
  total : float;
  notes : list text
}.

(** [f"{c1}+{c2} requires modifier {CCI_TABLE[(c1, c2)]}"]. *)
Definition note (c1 c2 m : text) : text :=
  c1 ++ lit "+" ++ c2 ++ lit " requires modifier " ++ m.

(** The body of the two loops over a pair of positions [i < j]. *)
Definition check_pair (c1 c2 : text) (acc : bool * list text)
    : bool * list text :=
  let '(valid, ns) := acc in
  match CCI_TABLE !! (c1, c2) with
  | None => acc
  | Some m =>
      if bool_decide (m = lit "0") then (false, ns)
      else if bool_decide (m = lit "1") || bool_decide (m = lit "9")
      then (valid, ns ++ [note c1 c2 m])
      else acc
  end.

(** The loop over [j] for a fixed [i], then the loop over [i]. *)
Fixpoint check_subset (subset : list text) (acc : bool * list text)
    : bool * list text :=
  match subset with
  | [] => acc
  | c1 :: rest =>
      check_subset rest (fold_left (fun a c2 => check_pair c1 c2 a) rest acc)
  end.

(** [sum(RVU_TABLE.get(code, 0.0) for code in subset)]. *)
Definition subset_total (subset : list text) : float :=
  fold_left (fun a code => add a (default zero (RVU_TABLE !! code))) subset zero.

(** The body of the loop over the subsets. *)
Definition try_subset (subset : list text) : list combo :=
  let '(valid, ns) := check_subset subset (true, []) in
  if valid
  then [{| codes := subset; total := round2 (subset_total subset); notes := ns |}]
  else [].

(** The list [combos] at the end of the loops, before it is sorted by
    total. *)
Definition combos (cs : list text) : list combo :=
  flat_map (fun r => flat_map try_subset (combinations cs r))
    (seq 1 (length cs)).

(** [home] on a posted form, up to the sorting of the results. *)
Definition home_combos (input_codes : text) : list combo :=
  combos (parse_codes input_codes).

End Search.

End Home.

(** * Properties *)

(** ** Candidate generation *)
Module CandidateFacts.
Import Url Candidates.

Lemma range_five (r : Z) :
  range (r + 1) (r + 6) = [r + 1; r + 2; r + 3; r + 4; r + 5].
Proof.
  unfold range. replace (r + 6 - (r + 1)) with 5 by lia.
  change (Z.to_nat 5) with 5%nat. cbn [seq map].
  repeat (f_equal; try lia).
Qed.

(** C6. For a starting identifier [(y, q, v, r)] with [q] in 1..4 the
    candidate list has exactly 8 entries, in this order: revisions
    [r+1] to [r+5] of the same version and quarter, then [(y, q, v+1, 0)],
    then the next quarter with version [v+1], then the next quarter with
    version [v], both at revision 0; the next quarter is [(y, q+1)] when
    [q < 4] and [(y+1, 1)] otherwise, so its quarter is again in 1..4. *)
Theorem candidates_fixed_order (y q v r : Z) :
  1 <= q <= 4 ->
  exists y' q',
    ((q < 4 /\ y' = y /\ q' = q + 1) \/ (q = 4 /\ y' = y + 1 /\ q' = 1))
    /\ 1 <= q' <= 4
    /\ length (candidates y q v r) = 8%nat
    /\ candidates y q v r =
         [(y, q, v, r + 1); (y, q, v, r + 2); (y, q, v, r + 3);
          (y, q, v, r + 4); (y, q, v, r + 5);
          (y, q, v + 1, 0); (y', q', v + 1, 0); (y', q', v, 0)].
Proof.
  intros Hq. unfold candidates, _next_quarter. rewrite range_five.
  destruct (Z.ltb_spec q 4) as [Hlt | Hge].
  - exists y, (q + 1). repeat split; lia.
  - exists (y + 1), 1. repeat split; lia.
Qed.

Lemma candidates_fixed_order_witness :
  exists y' q',
    ((4 < 4 /\ y' = 2025 /\ q' = 4 + 1) \/ (4 = 4 /\ y' = 2025 + 1 /\ q' = 1))
    /\ 1 <= q' <= 4
    /\ length (candidates 2025 4 313 0) = 8%nat
    /\ candidates 2025 4 313 0 =
         [(2025, 4, 313, 0 + 1); (2025, 4, 313, 0 + 2); (2025, 4, 313, 0 + 3);
          (2025, 4, 313, 0 + 4); (2025, 4, 313, 0 + 5);
          (2025, 4, 313 + 1, 0); (y', q', 313 + 1, 0); (y', q', 313, 0)].
Proof. apply (candidates_fixed_order 2025 4 313 0). lia. Defined.

End CandidateFacts.


(** ** Digits and the formatting of integers *)
Module TextFacts.
Import Text.

#[local] Arguments is_digit : simpl never.
#[local] Arguments eq_ci : simpl never.

(** Case analysis on the 256 characters. *)
Ltac each_char c :=
  destruct c as [[] [] [] [] [] [] [] []]; vm_compute; try reflexivity;
  try discriminate; auto.

Lemma digit_chr_is_digit (d : Z) : 0 <= d <= 9 -> is_digit (digit_chr d) = true.
Proof.
  intros H.
  assert (E : d = 0 \/ d = 1 \/ d = 2 \/ d = 3 \/ d = 4 \/ d = 5 \/ d = 6
              \/ d = 7 \/ d = 8 \/ d = 9) by lia.
  repeat (destruct E as [-> | E]; [reflexivity |]). by subst.
Qed.

Lemma digit_val_chr (d : Z) : 0 <= d <= 9 -> digit_val (digit_chr d) = d.
Proof.
  intros H.
  assert (E : d = 0 \/ d = 1 \/ d = 2 \/ d = 3 \/ d = 4 \/ d = 5 \/ d = 6
              \/ d = 7 \/ d = 8 \/ d = 9) by lia.
  repeat (destruct E as [-> | E]; [reflexivity |]). by subst.
Qed.

Lemma int_from_app (a : Z) (ds : text) (c : ascii) :
  int_from a (ds ++ [c]) = 10 * int_from a ds + digit_val c.
Proof. unfold int_from. by rewrite fold_left_app. Qed.

Lemma forallb_snoc (f : ascii -> bool) (ds : text) (c : ascii) :
  forallb f (ds ++ [c]) = forallb f ds && f c.
Proof. rewrite forallb_app. cbn [forallb]. by rewrite andb_true_r. Qed.

Lemma digits_aux_spec (fuel : nat) :
  forall n acc,
    0 <= n < 2 ^ Z.of_nat fuel -> fuel <> O ->
    exists ds,
      digits_aux fuel n acc = ds ++ acc
      /\ ds <> [] /\ forallb is_digit ds = true /\ int_of_digits ds = n.
Proof.
  induction fuel as [|f IH]; intros n acc Hn Hfuel; [done |].
  cbn [digits_aux].
  assert (Hd : 0 <= n mod 10 <= 9) by (pose proof (Z.mod_pos_bound n 10); lia).
  destruct (Z.eqb_spec (n / 10) 0) as [Hz | Hnz].
  - exists [digit_chr (n mod 10)]. split; [done |]. split; [done |].
    split; [cbn [forallb]; by rewrite digit_chr_is_digit |].
    unfold int_of_digits, int_from. cbn [fold_left].
    rewrite digit_val_chr by done.
    pose proof (Z.div_mod n 10). lia.
  - assert (Hq : 0 <= n / 10 < 2 ^ Z.of_nat f).
    { split; [apply Z.div_pos; lia |].
      apply Z.div_lt_upper_bound; [lia |].
      rewrite Nat2Z.inj_succ, Z.pow_succ_r in Hn by lia. lia. }
    assert (Hf : f <> O) by (intros ->; change (2 ^ Z.of_nat 0) with 1 in Hq; lia).
    destruct (IH (n / 10) (digit_chr (n mod 10) :: acc) Hq Hf)
      as (ds & Hds & Hne & Hall & Hint).
    exists (ds ++ [digit_chr (n mod 10)]).
    split; [by rewrite Hds, <- app_assoc |].
    split; [by destruct ds |].
    split; [rewrite forallb_snoc, Hall; by rewrite digit_chr_is_digit |].
    unfold int_of_digits in *. rewrite int_from_app, Hint.
    rewrite digit_val_chr by done. pose proof (Z.div_mod n 10). lia.
Qed.

(** [dec n] is a non-empty run of digits that [int] reads back as [n]. *)
Lemma dec_spec (n : Z) :
  0 <= n ->
  dec n <> [] /\ forallb is_digit (dec n) = true /\ int_of_digits (dec n) = n.
Proof.
  intros Hn. unfold dec.
  assert (Hb : 0 <= n < 2 ^ Z.of_nat (S (Z.to_nat (Z.log2 n)))).
  { split; [done |]. rewrite Nat2Z.inj_succ, Z2Nat.id by apply Z.log2_nonneg.
    destruct (Z.eq_dec n 0) as [-> | Hne]; [done |].
    apply Z.log2_spec. lia. }
  destruct (digits_aux_spec _ n [] Hb ltac:(done))
    as (ds & Hds & Hne & Hall & Hint).
  rewrite Hds, app_nil_r. done.
Qed.

Lemma str_int_nonneg (n : Z) : 0 <= n -> str_int n = dec n.
Proof. intros H. unfold str_int. by destruct (Z.ltb_spec n 0); [lia |]. Qed.

(** [{v:03d}] for a version of at most three digits. *)
Definition three_digits_of (v : Z) (ds : text) : bool :=
  match ds with
  | [a; b; c] =>
      is_digit a && is_digit b && is_digit c && (int_of_digits [a; b; c] =? v)
  | _ => false
  end.

Lemma fmt_03d_table :
  forallb (fun v => three_digits_of v (fmt_03d v)) (Candidates.range 0 1000) = true.
Proof. vm_compute. reflexivity. Qed.

Lemma in_range (lo hi v : Z) : lo <= v < hi -> In v (Candidates.range lo hi).
Proof.
  intros H. unfold Candidates.range. apply in_map_iff.
  exists (Z.to_nat (v - lo)). split; [lia |]. apply in_seq. lia.
Qed.

Lemma fmt_03d_spec (v : Z) :
  0 <= v <= 999 ->
  exists a b c,
    fmt_03d v = [a; b; c]
    /\ is_digit a = true /\ is_digit b = true /\ is_digit c = true
    /\ int_of_digits [a; b; c] = v.
Proof.
  intros H. pose proof fmt_03d_table as T.
  rewrite forallb_forall in T. specialize (T v (in_range 0 1000 v ltac:(lia))).
  unfold three_digits_of in T.
  destruct (fmt_03d v) as [|a [|b [|c [|]]]]; try discriminate.
  exists a, b, c. split; [done |].
  apply andb_prop in T as [T Hv]. apply andb_prop in T as [T Hc].
  apply andb_prop in T as [Ha Hb].
  repeat split; try done. by apply Z.eqb_eq.
Qed.

(** [{y}] for a year of this century. *)
Definition year_digits_of (y : Z) (ds : text) : bool :=
  match ds with
  | [a; b; c; d] =>
      Ascii.eqb a "2" && Ascii.eqb b "0" && is_digit c && is_digit d
      && (int_of_digits [a; b; c; d] =? y)
  | _ => false
  end.

Lemma str_int_year_table :
  forallb (fun y => year_digits_of y (str_int y)) (Candidates.range 2000 2100) = true.
Proof. vm_compute. reflexivity. Qed.

Lemma str_int_year (y : Z) :
  2000 <= y <= 2099 ->
  exists c d,
    str_int y = ["2"; "0"; c; d]%char
    /\ is_digit c = true /\ is_digit d = true
    /\ int_of_digits ["2"; "0"; c; d]%char = y.
Proof.
  intros H. pose proof str_int_year_table as T.
  rewrite forallb_forall in T.
  specialize (T y (in_range 2000 2100 y ltac:(lia))).
  unfold year_digits_of in T.
  destruct (str_int y) as [|a [|b [|c [|d [|]]]]]; try discriminate.
  apply andb_prop in T as [T Hy]. apply andb_prop in T as [T Hd].
  apply andb_prop in T as [T Hc]. apply andb_prop in T as [Ha Hb].
  apply Ascii.eqb_eq in Ha, Hb. subst a b.
  exists c, d. repeat split; try done. by apply Z.eqb_eq.
Qed.

Lemma str_int_quarter (q : Z) :
  1 <= q <= 4 ->
  exists c,
    str_int q = [c]
    /\ Url.is_quarter_digit c = true /\ int_of_digits [c] = q.
Proof.
  intros H. assert (E : q = 1 \/ q = 2 \/ q = 3 \/ q = 4) by lia.
  destruct E as [-> | [-> | [-> | ->]]]; eexists; repeat split; reflexivity.
Qed.

Lemma digit_not_delim (c : ascii) : is_digit c = true -> Url.is_delim c = false.
Proof. each_char c. Qed.

Lemma digit_not_q (c : ascii) : is_digit c = true -> eq_ci c "q" = false.
Proof. each_char c. Qed.

Lemma digit_not_hyphen (c : ascii) : is_digit c = true -> Ascii.eqb "-" c = false.
Proof. each_char c. Qed.

Lemma delim_cases (c : ascii) :
  Url.is_delim c = true -> c = "-"%char \/ c = "_"%char.
Proof. each_char c. Qed.

(** The maximal run of [f] in front of a character that [f] refuses. *)
Lemma span_stop (f : ascii -> bool) (x : text) (c : ascii) (y : text) :
  f c = false ->
  span f (x ++ c :: y) = (fst (span f x), snd (span f x) ++ c :: y).
Proof.
  intros Hc. induction x as [|a x IH]; simpl.
  - by rewrite Hc.
  - destruct (f a); [| done]. rewrite IH. by destruct (span f x).
Qed.

Lemma span_all (f : ascii -> bool) (x : text) :
  forallb f x = true -> span f x = (x, []).
Proof.
  induction x as [|a x IH]; simpl; [done |].
  intros H. apply andb_prop in H as [Ha Hx]. by rewrite Ha, IH.
Qed.

(** A run of [f] followed by text that is empty or starts with a
    character that [f] refuses. *)
Lemma span_run (f : ascii -> bool) (x y : text) :
  forallb f x = true ->
  match y with [] => true | c :: _ => negb (f c) end = true ->
  span f (x ++ y) = (x, y).
Proof.
  intros Hx Hy. destruct y as [|c y].
  - rewrite app_nil_r. by apply span_all.
  - apply negb_true_iff in Hy. rewrite span_stop by done.
    by rewrite span_all.
Qed.

Lemma span_spec (f : ascii -> bool) (s a b : text) :
  span f s = (a, b) -> s = a ++ b /\ forallb f a = true.
Proof.
  revert a b. induction s as [|c s IH]; intros a b; simpl.
  - by intros [= <- <-].
  - destruct (f c) eqn:Hc; [| by intros [= <- <-]].
    destruct (span f s) as [a' b']. intros [= <- <-].
    destruct (IH a' b' eq_refl) as [-> Ha]. simpl. by rewrite Hc.
Qed.

Lemma v_not_hyphen (c : ascii) : eq_ci c "v" = true -> Ascii.eqb "-" c = false.
Proof. each_char c. Qed.

Lemma ends_with_snoc (a c : ascii) (x : text) :
  ends_with [a] (x ++ [c]) = Ascii.eqb a c.
Proof.
  unfold ends_with. rewrite rev_app_distr. simpl. by rewrite andb_true_r.
Qed.

End TextFacts.

(** ** URL templates: parsing what the rewriters wrote *)
Module UrlFacts.
Import Text Url TextFacts.

#[local] Arguments is_digit : simpl never.
#[local] Arguments eq_ci : simpl never.
#[local] Arguments is_delim : simpl never.
#[local] Arguments is_quarter_digit : simpl never.
#[local] Arguments at_dollar : simpl never.
#[local] Arguments span : simpl never.

Definition is_nil (p : text) : bool :=
  match p with
  | [] => true
  | _ :: _ => false
  end.

Section Search.

Context {G : Type}.
Variable match_at : bool -> text -> option (rmatch G).

(** What a successful [search] says: the subject splits at the match
    position, the pattern matches there, and at no earlier position. *)
Lemma search_found (s : text) :
  forall bos p m,
    search match_at bos s = Some (p, m) ->
    exists t,
      s = p ++ t
      /\ match_at (bos && is_nil p) t = Some m
      /\ forall p1 p2, p = p1 ++ p2 -> p2 <> [] ->
           match_at (bos && is_nil p1) (p2 ++ t) = None.
Proof.
  induction s as [|c s IH]; intros bos p m H; cbn [search] in H.
  - destruct (match_at bos []) as [m' |] eqn:E; [| discriminate].
    injection H as <- <-. exists []. rewrite andb_true_r.
    split; [done |]. split; [done |].
    intros p1 p2 E'. symmetry in E'. apply app_eq_nil in E' as [_ ->]. done.
  - destruct (match_at bos (c :: s)) as [m' |] eqn:E.
    + injection H as <- <-. exists (c :: s). rewrite andb_true_r.
      split; [done |]. split; [done |].
      intros p1 p2 E'. symmetry in E'. apply app_eq_nil in E' as [_ ->]. done.
    + destruct (search match_at false s) as [[p' m'] |] eqn:Es; [| discriminate].
      injection H as <- <-.
      destruct (IH false p' m' Es) as (t & -> & Hm & Hearlier).
      exists t. split; [done |]. rewrite andb_false_r.
      split; [exact Hm |].
      intros p1 p2 E' Hne. destruct p1 as [|c1 p1]; simpl in E'.
      * subst p2. rewrite andb_true_r. exact E.
      * injection E' as <- E'. rewrite andb_false_r.
        rewrite <- (Hearlier p1 p2 E' Hne). done.
Qed.

Lemma search_intro (p : text) :
  forall bos t m,
    match_at (bos && is_nil p) t = Some m ->
    (forall p1 p2, p = p1 ++ p2 -> p2 <> [] ->
       match_at (bos && is_nil p1) (p2 ++ t) = None) ->
    search match_at bos (p ++ t) = Some (p, m).
Proof.
  induction p as [|c p IH]; intros bos t m Hm Hearlier.
  - rewrite andb_true_r in Hm. simpl. destruct t; cbn [search]; by rewrite Hm.
  - pose proof (Hearlier [] (c :: p) eq_refl ltac:(done)) as Hhere.
    cbn [is_nil app] in Hhere. rewrite andb_true_r in Hhere.
    cbn [app search]. rewrite Hhere.
    rewrite (IH false t m); [done | |].
    + rewrite andb_false_r in Hm. exact Hm.
    + intros p1 p2 -> Hne. specialize (Hearlier (c :: p1) p2 eq_refl Hne).
      rewrite andb_false_r in Hearlier. exact Hearlier.
Qed.

Lemma sub_first_found (repl : rmatch G -> text) (s p : text) (m : rmatch G) :
  search match_at true s = Some (p, m) ->
  sub_first match_at repl s = p ++ repl m ++ after m.
Proof. intros H. unfold sub_first. by rewrite H. Qed.

End Search.

(** *** The quarter token *)

Lemma match_qtr_some (b : bool) (s : text) (m : rmatch (text * text)) :
  match_qtr b s = Some m ->
  exists d1 d2 cq qd,
    s = "2"%char :: "0"%char :: d1 :: d2 :: cq :: qd :: after m
    /\ group0 m = ["2"%char; "0"%char; d1; d2; cq; qd]
    /\ is_digit d1 = true /\ is_digit d2 = true.
Proof.
  unfold match_qtr.
  destruct s as [|c2 [|c0 [|d1 [|d2 [|cq [|qd s']]]]]]; try discriminate.
  destruct (Ascii.eqb_spec c2 "2"); [| discriminate].
  destruct (Ascii.eqb_spec c0 "0"); [| discriminate].
  destruct (is_digit d1) eqn:H1; [| discriminate].
  destruct (is_digit d2) eqn:H2; [| discriminate].
  cbn [andb].
  destruct (eq_ci cq "q" && is_quarter_digit qd); [| discriminate].
  intros [= <-]. subst. exists d1, d2, cq, qd. done.
Qed.

Lemma match_qtr_written (b : bool) (c d qc : ascii) (rest : text) :
  is_digit c = true -> is_digit d = true -> is_quarter_digit qc = true ->
  match_qtr b ("2"%char :: "0"%char :: c :: d :: "q"%char :: qc :: rest)
  = Some (RMatch ["2"; "0"; c; d; "q"; qc]%char (["2"; "0"; c; d]%char, [qc]) rest).
Proof.
  intros Hc Hd Hq. unfold match_qtr.
  change (Ascii.eqb "2" "2") with true. change (Ascii.eqb "0" "0") with true.
  change (eq_ci "q" "q") with true.
  by rewrite Hc, Hd, Hq.
Qed.

(** Before the match position, the pattern reads at most the first
    character of the token, which is "2" in the old and in the new text:
    a window that reaches further holds a digit, or "0" or "2", where
    the pattern wants the letter q. *)
Lemma match_qtr_before (b : bool) (p2 : text) (d1 d2 cq qd c d qc : ascii)
    (rest : text) :
  p2 <> [] ->
  is_digit d1 = true -> is_digit d2 = true ->
  is_digit c = true -> is_digit d = true ->
  match_qtr b (p2 ++ "2"%char :: "0"%char :: d1 :: d2 :: cq :: qd :: rest) = None ->
  match_qtr b (p2 ++ "2"%char :: "0"%char :: c :: d :: "q"%char :: qc :: rest) = None.
Proof.
  intros Hne H1 H2 Hc Hd.
  destruct p2 as [|a1 [|a2 [|a3 [|a4 [|a5 [|a6 p2]]]]]]; [done | | | | | |];
    unfold match_qtr; cbn [app].
  - intros _. rewrite (digit_not_q d Hd). by rewrite !andb_false_r.
  - intros _. rewrite (digit_not_q c Hc). by rewrite !andb_false_r.
  - intros _. change (eq_ci "0" "q") with false. by rewrite !andb_false_r.
  - intros _. change (eq_ci "2" "q") with false. by rewrite !andb_false_r.
  - match goal with
    | |- (if ?cond then _ else _) = None -> _ => destruct cond
    end; [discriminate | done].
  - match goal with
    | |- (if ?cond then _ else _) = None -> _ => destruct cond
    end; [discriminate | done].
Qed.

(** The quarter pattern finds what [_set_quarter] wrote, and nothing
    before it. *)
Lemma parse_quarter_set_quarter (u : text) (y0 q0 y q : Z) :
  _parse_quarter u = Ok (y0, q0) ->
  2000 <= y <= 2099 -> 1 <= q <= 4 ->
  _parse_quarter (_set_quarter u y q) = Ok (y, q).
Proof.
  intros Hu Hy Hq. unfold _parse_quarter in Hu.
  destruct (search match_qtr true u) as [[p m] |] eqn:Hs; [| discriminate].
  clear Hu. unfold _set_quarter. rewrite (sub_first_found _ _ _ _ _ Hs).
  destruct (search_found _ _ _ _ _ Hs) as (t & -> & Hm & Hearlier).
  destruct (match_qtr_some _ _ _ Hm) as (d1 & d2 & cq & qd & -> & Hg & H1 & H2).
  destruct (str_int_year y Hy) as (c & d & -> & Hc & Hd & Hyear).
  destruct (str_int_quarter q Hq) as (qc & -> & Hqc & Hquarter).
  cbn [lit list_ascii_of_string app].
  unfold _parse_quarter.
  rewrite (search_intro match_qtr p true _ _ (match_qtr_written _ c d qc _ Hc Hd Hqc)).
  - cbn [groups fst snd]. by rewrite Hyear, Hquarter.
  - intros p1 p2 E Hne.
    apply (match_qtr_before _ p2 d1 d2 cq qd c d qc (after m) Hne H1 H2 Hc Hd).
    by apply Hearlier.
Qed.


(** *** The version token *)

Lemma match_vr_some (b : bool) (s : text) (m : rmatch (text * text)) :
  match_vr b s = Some m ->
  (b = true /\ match_vr_body [] s = Some m)
  \/ (exists c s', s = c :: s' /\ is_delim c = true
                   /\ match_vr_body [c] s' = Some m).
Proof.
  unfold match_vr. destruct b.
  - destruct (match_vr_body [] s) as [m' |] eqn:E.
    + intros [= <-]. by left.
    + destruct s as [|c s']; [discriminate |].
      destruct (is_delim c) eqn:Hc; [| discriminate].
      intros H. right. by exists c, s'.
  - destruct s as [|c s']; [discriminate |].
    destruct (is_delim c) eqn:Hc; [| discriminate].
    intros H. right. by exists c, s'.
Qed.

(** The shape of a match of the version pattern: the leading text
    [lead], the letter v, three digits, the letter r, a run of digits
    [rs], and either a delimiter or nothing where [$] holds. *)
Lemma match_vr_body_some (lead s : text) (m : rmatch (text * text)) :
  match_vr_body lead s = Some m ->
  exists cv d1 d2 d3 cr rs trail,
    s = cv :: d1 :: d2 :: d3 :: cr :: rs ++ trail ++ after m
    /\ group0 m = lead ++ cv :: d1 :: d2 :: d3 :: cr :: rs ++ trail
    /\ eq_ci cv "v" = true
    /\ rs <> [] /\ forallb is_digit rs = true
    /\ ((exists c, trail = [c] /\ is_delim c = true)
        \/ (trail = [] /\ at_dollar (after m) = true)).
Proof.
  unfold match_vr_body.
  destruct s as [|cv [|d1 [|d2 [|d3 [|cr s1]]]]]; try discriminate.
  destruct (eq_ci cv "v" && is_digit d1 && is_digit d2 && is_digit d3
            && eq_ci cr "r") eqn:Hcond; [| discriminate].
  assert (Hv : eq_ci cv "v" = true).
  { repeat (apply andb_prop in Hcond as [Hcond _]). exact Hcond. }
  destruct (span is_digit s1) as [rs s2] eqn:Hsp.
  destruct (span_spec _ _ _ _ Hsp) as [-> Hrs].
  destruct rs as [|r0 rs]; [discriminate |].
  destruct s2 as [|c s3].
  - intros [= <-]. exists cv, d1, d2, d3, cr, (r0 :: rs), [].
    cbn [group0 after]. rewrite !app_nil_r.
    split; [done |]. split; [done |]. split; [done |]. split; [done |].
    split; [done |]. by right.
  - destruct (is_delim c) eqn:Hc.
    + intros [= <-]. exists cv, d1, d2, d3, cr, (r0 :: rs), [c].
      cbn [group0 after].
      split; [done |].
      split; [by rewrite <- app_assoc |].
      split; [done |]. split; [done |]. split; [done |]. left. by exists c.
    + destruct (at_dollar (c :: s3)) eqn:Hd; [| discriminate].
      intros [= <-]. exists cv, d1, d2, d3, cr, (r0 :: rs), [].
      cbn [group0 after]. rewrite !app_nil_r.
      split; [done |]. split; [done |]. split; [done |]. split; [done |].
      split; [done |]. by right.
Qed.

Lemma at_dollar_no_digit (rest : text) :
  at_dollar rest = true ->
  match rest with [] => true | c :: _ => negb (is_digit c) end = true.
Proof.
  unfold at_dollar. destruct rest as [|c [|c' rest]]; try done.
  intros H. apply Ascii.eqb_eq in H. by subst.
Qed.

Lemma at_dollar_no_delim (c : ascii) (rest : text) :
  at_dollar (c :: rest) = true -> is_delim c = false.
Proof.
  unfold at_dollar. destruct rest; [| done].
  intros H. apply Ascii.eqb_eq in H. by subst.
Qed.

(** The pattern on a token as [_set_vr] writes it. *)
Lemma match_vr_body_written (lead : text) (a b c : ascii) (rs trail rest : text) :
  is_digit a = true -> is_digit b = true -> is_digit c = true ->
  rs <> [] -> forallb is_digit rs = true ->
  (trail = ["-"%char] \/ (trail = [] /\ at_dollar rest = true)) ->
  exists m,
    match_vr_body lead
      ("v"%char :: a :: b :: c :: "r"%char :: rs ++ trail ++ rest) = Some m
    /\ groups m = ([a; b; c], rs).
Proof.
  intros Ha Hb Hc Hne Hrs Htrail. unfold match_vr_body.
  change (eq_ci "v" "v") with true. change (eq_ci "r" "r") with true.
  rewrite Ha, Hb, Hc. cbn [andb].
  assert (Hsp : span is_digit (rs ++ trail ++ rest) = (rs, trail ++ rest)).
  { apply span_run; [done |].
    destruct Htrail as [-> | [-> Hd]]; [done |]. by apply at_dollar_no_digit. }
  rewrite Hsp. destruct rs as [|r0 rs]; [done |].
  destruct Htrail as [-> | [-> Hd]].
  - cbn [app]. change (is_delim "-") with true. by eexists.
  - cbn [app]. destruct rest as [|c0 rest]; [by eexists |].
    rewrite (at_dollar_no_delim _ _ Hd), Hd. by eexists.
Qed.

Lemma match_vr_written (bos : bool) (lead : text) (a b c : ascii)
    (rs trail rest : text) :
  (lead = [] /\ bos = true) \/ lead = ["-"%char] ->
  is_digit a = true -> is_digit b = true -> is_digit c = true ->
  rs <> [] -> forallb is_digit rs = true ->
  (trail = ["-"%char] \/ (trail = [] /\ at_dollar rest = true)) ->
  exists m,
    match_vr bos
      (lead ++ "v"%char :: a :: b :: c :: "r"%char :: rs ++ trail ++ rest) = Some m
    /\ groups m = ([a; b; c], rs).
Proof.
  intros Hlead Ha Hb Hc Hne Hrs Htrail.
  destruct Hlead as [[-> ->] | ->]; unfold match_vr; cbn [app].
  - destruct (match_vr_body_written [] a b c rs trail rest Ha Hb Hc Hne Hrs Htrail)
      as (m & -> & Hg). by exists m.
  - assert (Hfirst : match_vr_body []
              ("-"%char :: "v"%char :: a :: b :: c :: "r"%char :: rs ++ trail ++ rest)
            = None).
    { unfold match_vr_body. change (eq_ci "-" "v") with false. done. }
    rewrite Hfirst. change (is_delim "-") with true.
    assert (Hif : (if bos then None else None) = @None (rmatch (text * text)))
      by by destruct bos.
    rewrite Hif.
    apply (match_vr_body_written ["-"%char] a b c rs trail rest Ha Hb Hc Hne Hrs Htrail).
Qed.

(** Whether the pattern matches in front of a hyphen does not depend on
    what follows the hyphen: a hyphen can only end a match. *)
Lemma match_vr_body_local (lead x y y' : text) :
  match_vr_body lead (x ++ "-"%char :: y) = None ->
  match_vr_body lead (x ++ "-"%char :: y') = None.
Proof.
  destruct x as [|a1 [|a2 [|a3 [|a4 [|a5 x]]]]]; cbn [app]; intros H.
  - unfold match_vr_body. destruct y' as [|? [|? [|? [|? ?]]]];
      first [done | change (eq_ci "-" "v") with false; done].
  - unfold match_vr_body. destruct y' as [|? [|? [|? ?]]];
      first [done | change (is_digit "-") with false; by rewrite !andb_false_r].
  - unfold match_vr_body. destruct y' as [|? [|? ?]];
      first [done | change (is_digit "-") with false; by rewrite !andb_false_r].
  - unfold match_vr_body. destruct y' as [|? ?];
      first [done | change (is_digit "-") with false; by rewrite !andb_false_r].
  - unfold match_vr_body.
    change (eq_ci "-" "r") with false. by rewrite !andb_false_r.
  - revert H. unfold match_vr_body.
    destruct (eq_ci a1 "v" && is_digit a2 && is_digit a3 && is_digit a4
              && eq_ci a5 "r"); [| done].
    rewrite !(span_stop is_digit x "-" _ eq_refl).
    destruct (span is_digit x) as [rs b]. cbn [fst snd].
    destruct rs as [|r0 rs]; [done |].
    destruct b as [|c0 b]; cbn [app].
    + change (is_delim "-") with true. discriminate.
    + destruct (is_delim c0); [discriminate |].
      intros _. unfold at_dollar. by destruct b.
Qed.

Lemma match_vr_local (bos : bool) (x y y' : text) :
  x <> [] ->
  match_vr bos (x ++ "-"%char :: y) = None ->
  match_vr bos (x ++ "-"%char :: y') = None.
Proof.
  intros Hx. destruct x as [|c x]; [done |]. unfold match_vr. cbn [app].
  assert (Hbody : forall lead z,
            match_vr_body lead (z ++ "-"%char :: y) = None ->
            match_vr_body lead (z ++ "-"%char :: y') = None)
    by (intros; by eapply match_vr_body_local).
  destruct bos.
  - destruct (match_vr_body [] (c :: x ++ "-"%char :: y)) eqn:E; [discriminate |].
    pose proof (Hbody [] (c :: x) E) as E'. cbn [app] in E'. rewrite E'.
    destruct (is_delim c); [| done]. apply Hbody.
  - destruct (is_delim c); [| done]. apply Hbody.
Qed.

(** The text that [_VERSION_RE] matches in a URL, delimiters included. *)
Definition version_token (u : text) : option text :=
  match search match_vr true u with
  | Some (_, m) => Some (group0 m)
  | None => None
  end.

(** The token stands at the start or after a hyphen, and at the end or
    before a hyphen: no underscore delimits it. *)
Definition hyphen_delimited (tok : text) : Prop :=
  starts_with (lit "_") tok = false /\ ends_with (lit "_") tok = false.

(** A hyphen-delimited token and its replacement: [repl] keeps the
    delimiters and rewrites the part between them. *)
Lemma hyphen_token_rewrite (b : bool) (t : text) (m : rmatch (text * text)) :
  match_vr b t = Some m -> hyphen_delimited (group0 m) ->
  exists lead core trail,
    group0 m = lead ++ core ++ trail
    /\ t = lead ++ core ++ trail ++ after m
    /\ ((lead = [] /\ b = true) \/ lead = ["-"%char])
    /\ (trail = ["-"%char] \/ (trail = [] /\ at_dollar (after m) = true))
    /\ forall v r,
         set_vr_repl v r m
         = lead ++ (lit "v" ++ fmt_03d v ++ lit "r" ++ str_int r) ++ trail.
Proof.
  intros Hm [Hstart Hend].
  assert (Hbody : exists lead s,
            match_vr_body lead s = Some m /\ t = lead ++ s
            /\ ((lead = [] /\ b = true)
                \/ (exists c0, lead = [c0] /\ is_delim c0 = true))).
  { destruct (match_vr_some _ _ _ Hm) as [[Hb' Hbody] | (c0 & s' & -> & Hc0 & Hbody)].
    - exists [], t. split; [done |]. split; [done |]. by left.
    - exists [c0], s'. split; [done |]. split; [done |]. right. by exists c0. }
  destruct Hbody as (lead & s & Hbody & -> & Hlead).
  destruct (match_vr_body_some _ _ _ Hbody)
    as (cv & d1 & d2 & d3 & cr & rs & trail & -> & Hg & Hcv & Hrs & Hrsd & Htrail).
  assert (Hpre : (if starts_with (lit "-") (group0 m) then lit "-" else [])
                 = lead
                 /\ ((lead = [] /\ b = true) \/ lead = ["-"%char])).
  { rewrite Hg. destruct Hlead as [[-> Hp] | (c0 & -> & Hc0)].
    - cbn [lit list_ascii_of_string app starts_with].
      rewrite (v_not_hyphen cv Hcv). split; [done | by left].
    - rewrite Hg in Hstart.
      cbn [lit list_ascii_of_string app starts_with] in Hstart |- *.
      rewrite andb_true_r in Hstart.
      destruct (delim_cases c0 Hc0) as [-> | ->]; [| discriminate].
      split; [done | by right]. }
  assert (Hsuf : (if ends_with (lit "-") (group0 m) then lit "-" else [])
                 = trail
                 /\ (trail = ["-"%char]
                     \/ (trail = [] /\ at_dollar (after m) = true))).
  { rewrite Hg. destruct Htrail as [(c1 & -> & Hc1) | [-> Hd]].
    - assert (E : lead ++ cv :: d1 :: d2 :: d3 :: cr :: rs ++ [c1]
                  = (lead ++ cv :: d1 :: d2 :: d3 :: cr :: rs) ++ [c1])
        by by rewrite <- app_assoc.
      rewrite Hg, E in Hend. rewrite E.
      cbn [lit list_ascii_of_string] in Hend |- *.
      rewrite ends_with_snoc in Hend. rewrite ends_with_snoc.
      destruct (delim_cases c1 Hc1) as [-> | ->]; [| discriminate].
      split; [done | by left].
    - rewrite app_nil_r.
      destruct (exists_last Hrs) as (rs' & dl & ->).
      rewrite forallb_snoc in Hrsd. apply andb_prop in Hrsd as [_ Hdl].
      assert (E : lead ++ cv :: d1 :: d2 :: d3 :: cr :: rs' ++ [dl]
                  = (lead ++ cv :: d1 :: d2 :: d3 :: cr :: rs') ++ [dl])
        by by rewrite <- app_assoc.
      rewrite E. cbn [lit list_ascii_of_string]. rewrite ends_with_snoc.
      rewrite (digit_not_hyphen dl Hdl). split; [done | by right]. }
  destruct Hpre as (Hpre & Hlead'), Hsuf as (Hsuf & Htrail').
  exists lead, (cv :: d1 :: d2 :: d3 :: cr :: rs), trail.
  split; [exact Hg |]. split; [done |]. split; [done |]. split; [done |].
  intros v r. unfold set_vr_repl. rewrite Hpre, Hsuf.
  by rewrite <- !app_assoc.
Qed.

Lemma parse_vr_set_vr (u tok : text) (v r : Z) :
  version_token u = Some tok -> hyphen_delimited tok ->
  0 <= v <= 999 -> 0 <= r ->
  _parse_vr (_set_vr u v r) = Ok (v, r).
Proof.
  intros Htok Hhyph Hv Hr. unfold version_token in Htok.
  destruct (search match_vr true u) as [[p m] |] eqn:Hs; [| discriminate].
  injection Htok as <-.
  unfold _set_vr. rewrite (sub_first_found _ _ _ _ _ Hs).
  destruct (search_found _ _ _ _ _ Hs) as (t & -> & Hm & Hearlier).
  destruct (fmt_03d_spec v Hv) as (a & b & c & Hfmt & Ha & Hb & Hc & Hint).
  destruct (dec_spec r Hr) as (Hne & Hdigits & Hdec).
  destruct (hyphen_token_rewrite _ _ _ Hm Hhyph)
    as (lead & core & trail & Hg & -> & Hlead & Htrail & Hrepl).
  rewrite Hrepl, Hfmt, (str_int_nonneg r Hr).
  assert (Hnew : (lead ++ (lit "v" ++ [a; b; c] ++ lit "r" ++ dec r) ++ trail)
                 ++ after m
                 = lead ++ "v"%char :: a :: b :: c :: "r"%char
                        :: dec r ++ trail ++ after m).
  { cbn [lit list_ascii_of_string app]. rewrite <- !app_assoc. cbn [app].
    by rewrite <- !app_assoc. }
  rewrite Hnew.
  destruct (match_vr_written (true && is_nil p) lead a b c (dec r) trail (after m)
              Hlead Ha Hb Hc Hne Hdigits Htrail) as (m' & Hm' & Hg').
  unfold _parse_vr.
  rewrite (search_intro match_vr p true _ m' Hm').
  - rewrite Hg'. cbn [fst snd]. by rewrite Hint, Hdec.
  - intros p1 p2 E Hp2.
    destruct Hlead as [[-> Hp] | ->].
    { cbn [andb] in Hp. destruct p; [| discriminate]. destruct p1, p2; done. }
    cbn [app]. eapply match_vr_local; [done |].
    specialize (Hearlier p1 p2 E Hp2). cbn [app] in Hearlier. exact Hearlier.
Qed.

(** The URL of the program's [__main__]. *)
Definition cms_url : text :=
  lit "https://www.cms.gov/license/ama?file=/files/zip/medicare-ncci-2025q4-practitioner-ptp-edits-ccipra-v313r0-f1.zip".

(** C4 (as amended). For a URL whose version token is delimited by
    hyphens or by the ends of the string and which holds a quarter
    token, for every version [v] of at most three digits, every
    revision [r >= 0], every year [y] from 2000 to 2099 and every
    quarter [q] from 1 to 4, parsing after setting gives back what was
    written. *)
Theorem parse_after_set_round_trip (u tok : text) (y0 q0 v r y q : Z) :
  version_token u = Some tok -> hyphen_delimited tok ->
  _parse_quarter u = Ok (y0, q0) ->
  0 <= v <= 999 -> 0 <= r -> 2000 <= y <= 2099 -> 1 <= q <= 4 ->
  _parse_vr (_set_vr u v r) = Ok (v, r)
  /\ _parse_quarter (_set_quarter u y q) = Ok (y, q).
Proof.
  intros Htok Hhyph Hqtr Hv Hr Hy Hq. split.
  - by eapply parse_vr_set_vr.
  - by eapply parse_quarter_set_quarter.
Qed.

Lemma parse_after_set_round_trip_witness :
  version_token cms_url = Some (lit "-v313r0-")
  /\ hyphen_delimited (lit "-v313r0-")
  /\ _parse_quarter cms_url = Ok (2025, 4)
  /\ _parse_vr (_set_vr cms_url 314 12) = Ok (314, 12)
  /\ _parse_quarter (_set_quarter cms_url 2026 1) = Ok (2026, 1).
Proof.
  assert (H1 : version_token cms_url = Some (lit "-v313r0-"))
    by (vm_compute; reflexivity).
  assert (H2 : hyphen_delimited (lit "-v313r0-"))
    by (split; vm_compute; reflexivity).
  assert (H3 : _parse_quarter cms_url = Ok (2025, 4))
    by (vm_compute; reflexivity).
  split; [exact H1 |]. split; [exact H2 |]. split; [exact H3 |].
  apply (parse_after_set_round_trip cms_url (lit "-v313r0-") 2025 4 314 12 2026 1
           H1 H2 H3); lia.
Defined.

(** C4 as stated fails for a version of four digits: [{v:03d}] writes
    all four, and the pattern, which wants exactly three digits before
    the letter r, no longer finds the token. *)
Lemma four_digit_version_is_not_parsed_back :
  version_token cms_url = Some (lit "-v313r0-")
  /\ _parse_quarter cms_url = Ok (2025, 4)
  /\ _set_vr cms_url 1000 0
     = lit "https://www.cms.gov/license/ama?file=/files/zip/medicare-ncci-2025q4-practitioner-ptp-edits-ccipra-v1000r0-f1.zip"
  /\ _parse_vr (_set_vr cms_url 1000 0) = Raise (ValueError "Missing v###r# in URL.")
  /\ _parse_vr (_set_vr cms_url 1000 0) <> Ok (1000, 0).
Proof.
  split; [vm_compute; reflexivity |].
  split; [vm_compute; reflexivity |].
  split; [vm_compute; reflexivity |].
  split; [vm_compute; reflexivity |].
  vm_compute. discriminate.
Qed.

(** *** What the rewriters leave untouched *)

Lemma match_f_some (b : bool) (s : text) (m : rmatch text) :
  match_f b s = Some m ->
  s = group0 m ++ after m /\ length (group0 m) = 3%nat.
Proof.
  unfold match_f. destruct s as [|ch [|cf [|n s']]]; try discriminate.
  match goal with |- (if ?cond then _ else _) = _ -> _ => destruct cond end;
    [| discriminate].
  by intros [= <-].
Qed.

Lemma match_zip_end_some (b : bool) (s : text) (m : rmatch unit) :
  match_zip_end b s = Some m ->
  s = group0 m ++ after m /\ at_dollar (after m) = true.
Proof.
  unfold match_zip_end. destruct s as [|c1 [|c2 [|c3 [|c4 s']]]]; try discriminate.
  destruct (starts_with_ci (lit ".zip") [c1; c2; c3; c4]); [| discriminate].
  cbn [andb]. destruct (at_dollar s') eqn:Hd; [| discriminate].
  by intros [= <-].
Qed.

(** For each rewriter, the URL splits into the text before the token,
    the token and the text after it, and the result is the same text
    before, the new token, and the same text after.  This holds for
    [_set_quarter]; for [_with_f] when the URL has a [-f1] or [-f2]
    segment, and when it has none and ends in [.zip] written in lower
    case; and for [_set_vr] when hyphens or the ends of the string
    delimit the version token, the delimiters being kept.  A URL
    without the token is returned as it is. *)
Theorem field_rewrites_keep_surroundings (u : text) :
  (forall y q p m,
     search match_qtr true u = Some (p, m) ->
     u = p ++ group0 m ++ after m
     /\ _set_quarter u y q
        = p ++ (str_int y ++ lit "q" ++ str_int q) ++ after m)
  /\ (forall y q, search match_qtr true u = None -> _set_quarter u y q = u)
  /\ (forall n p m,
        search match_f true u = Some (p, m) ->
        u = p ++ group0 m ++ after m /\ length (group0 m) = 3%nat
        /\ _with_f u n = p ++ (lit "-f" ++ str_int n) ++ after m)
  /\ (forall n p m,
        search match_f true u = None ->
        search match_zip_end true u = Some (p, m) ->
        group0 m = lit ".zip" ->
        u = p ++ lit ".zip" ++ after m
        /\ _with_f u n = p ++ (lit "-f" ++ str_int n) ++ lit ".zip" ++ after m)
  /\ (forall v r p m,
        search match_vr true u = Some (p, m) ->
        hyphen_delimited (group0 m) ->
        exists lead core trail,
          group0 m = lead ++ core ++ trail
          /\ u = p ++ lead ++ core ++ trail ++ after m
          /\ _set_vr u v r
             = p ++ lead ++ (lit "v" ++ fmt_03d v ++ lit "r" ++ str_int r)
                 ++ trail ++ after m)
  /\ (forall v r, search match_vr true u = None -> _set_vr u v r = u).
Proof.
  split; [| split; [| split; [| split; [| split]]]].
  - intros y q p m Hs. unfold _set_quarter.
    rewrite (sub_first_found _ _ _ _ _ Hs). split; [| done].
    destruct (search_found _ _ _ _ _ Hs) as (t & -> & Hm & _).
    destruct (match_qtr_some _ _ _ Hm) as (d1 & d2 & cq & qd & -> & -> & _).
    done.
  - intros y q Hs. unfold _set_quarter, sub_first. by rewrite Hs.
  - intros n p m Hs. unfold _with_f. rewrite Hs.
    rewrite (sub_first_found _ _ _ _ _ Hs).
    destruct (search_found _ _ _ _ _ Hs) as (t & -> & Hm & _).
    destruct (match_f_some _ _ _ Hm) as [-> Hlen]. done.
  - intros n p m Hf Hs Hg. unfold _with_f. rewrite Hf.
    rewrite (sub_first_found _ _ _ _ _ Hs).
    destruct (search_found _ _ _ _ _ Hs) as (t & -> & Hm & _).
    destruct (match_zip_end_some _ _ _ Hm) as [-> _]. rewrite Hg.
    split; [done |]. by rewrite <- !app_assoc.
  - intros v r p m Hs Hhyph. unfold _set_vr.
    rewrite (sub_first_found _ _ _ _ _ Hs).
    destruct (search_found _ _ _ _ _ Hs) as (t & -> & Hm & _).
    destruct (hyphen_token_rewrite _ _ _ Hm Hhyph)
      as (lead & core & trail & Hg & -> & _ & _ & Hrepl).
    exists lead, core, trail. split; [done |]. split; [done |].
    rewrite Hrepl. by rewrite <- !app_assoc.
  - intros v r Hs. unfold _set_vr, sub_first. by rewrite Hs.
Qed.

Lemma field_rewrites_keep_surroundings_witness :
  exists p m,
    search match_qtr true cms_url = Some (p, m)
    /\ cms_url = p ++ group0 m ++ after m
    /\ _set_quarter cms_url 2026 1
       = p ++ (str_int 2026 ++ lit "q" ++ str_int 1) ++ after m.
Proof.
  destruct (search match_qtr true cms_url) as [[p m] |] eqn:Hs;
    [| vm_compute in Hs; discriminate].
  exists p, m. split; [done |].
  apply (proj1 (field_rewrites_keep_surroundings cms_url) 2026 1 p m Hs).
Defined.

(** A URL whose version token stands between an underscore and a
    hyphen, which [_VERSION_RE] accepts. *)
Definition underscore_url : text :=
  lit "https://www.cms.gov/license/ama?file=/files/zip/ncci_2025q4_v313r0-f1.zip".

(** C5 fails on the code: [_VERSION_RE] admits an underscore as the
    delimiter of the version token, but [repl] writes back a hyphen or
    nothing, so [_set_vr] deletes the underscore in front of the token,
    a character outside the token; the rewritten URL no longer holds a
    version token. *)
Theorem set_vr_deletes_underscore_delimiter :
  version_token underscore_url = Some (lit "_v313r0-")
  /\ _parse_vr underscore_url = Ok (313, 0)
  /\ _set_vr underscore_url 314 0
     = lit "https://www.cms.gov/license/ama?file=/files/zip/ncci_2025q4v314r0-f1.zip"
  /\ _set_vr underscore_url 314 0
     <> lit "https://www.cms.gov/license/ama?file=/files/zip/ncci_2025q4_v314r0-f1.zip"
  /\ _parse_vr (_set_vr underscore_url 314 0)
     = Raise (ValueError "Missing v###r# in URL.").
Proof.
  split; [vm_compute; reflexivity |].
  split; [vm_compute; reflexivity |].
  split; [vm_compute; reflexivity |].
  split; [vm_compute; discriminate |].
  vm_compute; reflexivity.
Qed.

(** In the same way [_with_f] writes the extension in lower case when it
    appends the file number to a URL that ends in [.ZIP]. *)
Lemma with_f_lowers_extension :
  _with_f (lit "https://www.cms.gov/files/zip/ccipra-v313r0.ZIP") 2
  = lit "https://www.cms.gov/files/zip/ccipra-v313r0-f2.zip".
Proof. vm_compute. reflexivity. Qed.

End UrlFacts.

(** ** Merging two tables *)
Module FrameFacts.
Import Text Frame.

Lemma text_leb_total (a b : text) : text_leb a b = true \/ text_leb b a = true.
Proof.
  revert b. induction a as [|x a IH]; intros [|y b]; simpl; auto.
  destruct (Nat.ltb_spec (code x) (code y)) as [Hxy | Hxy]; auto.
  destruct (Nat.ltb_spec (code y) (code x)) as [Hyx | Hyx]; auto.
  assert (E : code x = code y) by lia.
  rewrite E, Nat.eqb_refl. apply IH.
Qed.

Lemma text_leb_trans (a b c : text) :
  text_leb a b = true -> text_leb b c = true -> text_leb a c = true.
Proof.
  revert b c. induction a as [|x a IH]; intros [|y b] [|z c]; simpl; auto;
    try discriminate.
  destruct (Nat.ltb_spec (code x) (code y)) as [Hxy | Hxy].
  - intros _. destruct (Nat.ltb_spec (code y) (code z)) as [Hyz | Hyz].
    + intros _. destruct (Nat.ltb_spec (code x) (code z)); [done | lia].
    + destruct (Nat.eqb_spec (code y) (code z)) as [E | E]; [| discriminate].
      intros _. destruct (Nat.ltb_spec (code x) (code z)); [done | lia].
  - destruct (Nat.eqb_spec (code x) (code y)) as [E | E]; [| discriminate].
    rewrite E. intros Hab.
    destruct (Nat.ltb_spec (code y) (code z)) as [Hyz | Hyz]; [done |].
    destruct (Nat.eqb_spec (code y) (code z)) as [E' | E']; [| discriminate].
    apply IH. exact Hab.
Qed.

#[local] Instance text_le_total : Total text_le.
Proof. intros a b. apply text_leb_total. Qed.

#[local] Instance text_le_trans : Transitive text_le.
Proof. intros a b c. apply text_leb_trans. Qed.

Lemma sorted_strongly (l : list text) : StronglySorted text_le (sorted l).
Proof. apply StronglySorted_merge_sort; apply _. Qed.

Lemma sorted_perm (l : list text) : sorted l ≡ₚ l.
Proof. apply merge_sort_Permutation. Qed.

Lemma index_of_lookup (c : text) (cols : list text) (k : nat) :
  index_of c cols = Some k -> nth_error cols k = Some c.
Proof.
  revert k. induction cols as [|c' cols IH]; intros k; simpl; [discriminate |].
  case_bool_decide as E.
  - intros [= <-]. by subst.
  - destruct (index_of c cols) as [k' |]; simpl; [| discriminate].
    intros [= <-]. simpl. by apply IH.
Qed.

Lemma index_of_elem (c : text) (cols : list text) :
  c ∈ cols -> exists k, index_of c cols = Some k.
Proof.
  induction cols as [|c' cols IH]; intros Hin.
  - by apply elem_of_nil in Hin.
  - simpl. case_bool_decide as E; [by eexists |].
    apply elem_of_cons in Hin as [-> | Hin]; [done |].
    destruct (IH Hin) as [k ->]. by eexists.
Qed.

Lemma index_of_not_elem (c : text) (cols : list text) :
  c ∉ cols -> index_of c cols = None.
Proof.
  induction cols as [|c' cols IH]; intros Hin; [done |].
  simpl. apply not_elem_of_cons in Hin as [Hne Hin].
  case_bool_decide; [done |]. by rewrite IH.
Qed.

Lemma index_of_bound (c : text) (cols : list text) (k : nat) :
  index_of c cols = Some k -> (k < length cols)%nat.
Proof.
  intros H. apply index_of_lookup in H. apply nth_error_Some. congruence.
Qed.

(** The cell that [reindex] puts under label [c] of a row of [df]. *)
Lemma project_present (df : DataFrame) (row : list cell) (c : text) :
  length row = length (columns df) -> c ∈ columns df ->
  exists k, index_of c (columns df) = Some k
            /\ nth_error row k = Some (project (columns df) row c).
Proof.
  intros Hlen Hin. destruct (index_of_elem _ _ Hin) as [k Hk].
  exists k. split; [done |]. unfold project. rewrite Hk.
  apply nth_error_nth'. rewrite Hlen. by eapply index_of_bound.
Qed.

Lemma project_absent (cols : list text) (row : list cell) (c : text) :
  c ∉ cols -> project cols row c = NaN.
Proof. intros Hin. unfold project. by rewrite index_of_not_elem. Qed.

Lemma reindex_ok (new_cols : list text) (df : DataFrame) :
  NoDup (columns df) ->
  reindex new_cols df =
    Ok {| columns := new_cols;
          rows := map (fun row => map (project (columns df) row) new_cols)
                    (rows df) |}.
Proof. intros H. unfold reindex. by rewrite bool_decide_eq_true_2. Qed.

(** A cell of a reindexed row, read through the new column list. *)
Lemma cell_of_reindexed (new_cols : list text) (df : DataFrame)
    (rs : list (list cell)) (i : nat) (row : list cell) (c : text) :
  nth_error rs i = Some (map (project (columns df) row) new_cols) ->
  c ∈ new_cols ->
  cell_at {| columns := new_cols; rows := rs |} i c
  = Some (project (columns df) row c).
Proof.
  intros Hrow Hin. unfold cell_at. simpl. rewrite Hrow.
  destruct (index_of_elem _ _ Hin) as [k Hk]. rewrite Hk.
  rewrite nth_error_map. by rewrite (index_of_lookup _ _ _ Hk).
Qed.

Lemma cell_at_present (df : DataFrame) (i : nat) (row : list cell) (c : text) :
  rectangular df -> nth_error (rows df) i = Some row -> c ∈ columns df ->
  cell_at df i c = Some (project (columns df) row c).
Proof.
  intros Hrect Hrow Hin. unfold cell_at. rewrite Hrow.
  assert (Hlen : length row = length (columns df)).
  { unfold rectangular in Hrect. rewrite Forall_forall in Hrect.
    apply Hrect. apply list_elem_of_In. eapply nth_error_In. exact Hrow. }
  destruct (project_present df row c Hlen Hin) as (k & Hk & Hnth).
  by rewrite Hk.
Qed.

Definition merged_columns (A B : DataFrame) : list text :=
  sorted (remove_dups (columns A ++ columns B)).

Lemma merged_columns_elem (A B : DataFrame) (c : text) :
  c ∈ merged_columns A B <-> c ∈ columns A \/ c ∈ columns B.
Proof.
  unfold merged_columns. rewrite (sorted_perm _).
  rewrite elem_of_remove_dups. apply elem_of_app.
Qed.

Lemma merged_columns_NoDup (A B : DataFrame) : NoDup (merged_columns A B).
Proof.
  unfold merged_columns. rewrite (sorted_perm _). apply NoDup_remove_dups.
Qed.

(** C7 (as amended). For tables [A] and [B] with distinct column labels,
    [_concat_dfs [A; B]] returns a table whose column list is the sorted
    union of the two column lists, without repetition; whose rows are
    the rows of [A] in their order followed by the rows of [B] in their
    order, none dropped; in which a cell under a column of the row's
    source table is the cell of that table; and in which a cell under a
    column absent from the row's source table is the missing value
    [NaN], which [to_csv] writes as an empty field. *)
Theorem concat_dfs_merge (A B : DataFrame) :
  NoDup (columns A) -> NoDup (columns B) -> rectangular A -> rectangular B ->
  exists M,
    _concat_dfs [A; B] = Ok M
    /\ StronglySorted text_le (columns M) /\ NoDup (columns M)
    /\ (forall c, c ∈ columns M <-> c ∈ columns A \/ c ∈ columns B)
    /\ rectangular M
    /\ length (rows M) = (length (rows A) + length (rows B))%nat
    /\ (forall i c, (i < length (rows A))%nat -> c ∈ columns M ->
          (c ∈ columns A -> cell_at M i c = cell_at A i c)
          /\ (c ∉ columns A ->
              cell_at M i c = Some NaN /\ csv_value NaN = []))
    /\ (forall j c, (j < length (rows B))%nat -> c ∈ columns M ->
          (c ∈ columns B ->
           cell_at M (length (rows A) + j) c = cell_at B j c)
          /\ (c ∉ columns B ->
              cell_at M (length (rows A) + j) c = Some NaN
              /\ csv_value NaN = [])).
Proof.
  intros HA HB RA RB.
  set (cols := merged_columns A B).
  set (ra := map (fun row => map (project (columns A) row) cols) (rows A)).
  set (rb := map (fun row => map (project (columns B) row) cols) (rows B)).
  exists {| columns := cols; rows := ra ++ rb |}.
  assert (Hrun : _concat_dfs [A; B] = Ok {| columns := cols; rows := ra ++ rb |}).
  { unfold _concat_dfs. simpl. rewrite app_nil_r.
    fold (merged_columns A B). fold cols.
    rewrite (reindex_ok cols A HA), (reindex_ok cols B HB). simpl.
    by rewrite app_nil_r. }
  split; [exact Hrun |]. simpl.
  split; [apply sorted_strongly |].
  split; [apply merged_columns_NoDup |].
  split; [apply merged_columns_elem |].
  split.
  { unfold rectangular. simpl. apply Forall_app. split.
    - apply Forall_forall. intros row Hrow. apply list_elem_of_In in Hrow.
      apply in_map_iff in Hrow as (r0 & <- & _). by rewrite length_map.
    - apply Forall_forall. intros row Hrow. apply list_elem_of_In in Hrow.
      apply in_map_iff in Hrow as (r0 & <- & _). by rewrite length_map. }
  split; [by rewrite length_app; unfold ra, rb; rewrite !length_map |].
  split.
  - intros i c Hi Hc.
    destruct (nth_error (rows A) i) as [row |] eqn:Hrow;
      [| apply nth_error_None in Hrow; lia].
    assert (Hm : nth_error (ra ++ rb) i
                 = Some (map (project (columns A) row) cols)).
    { rewrite nth_error_app1 by (unfold ra; rewrite length_map; lia).
      unfold ra. rewrite nth_error_map. by rewrite Hrow. }
    rewrite (cell_of_reindexed cols A _ i row c Hm Hc).
    split; intros Hin.
    + by rewrite (cell_at_present A i row c RA Hrow Hin).
    + by rewrite project_absent.
  - intros j c Hj Hc.
    destruct (nth_error (rows B) j) as [row |] eqn:Hrow;
      [| apply nth_error_None in Hrow; lia].
    assert (Hm : nth_error (ra ++ rb) (length (rows A) + j)
                 = Some (map (project (columns B) row) cols)).
    { rewrite nth_error_app2 by (unfold ra; rewrite length_map; lia).
      replace (length (rows A) + j - length ra)%nat with j
        by (unfold ra; rewrite length_map; lia).
      unfold rb. rewrite nth_error_map. by rewrite Hrow. }
    rewrite (cell_of_reindexed cols B _ _ row c Hm Hc).
    split; intros Hin.
    + by rewrite (cell_at_present B j row c RB Hrow Hin).
    + by rewrite project_absent.
Qed.

Definition tableA : DataFrame :=
  {| columns := [lit "X"; lit "Y"];
     rows := [[Str (lit "x1"); Str (lit "y1")]; [Str (lit "x2"); Str (lit "y2")]] |}.

Definition tableB : DataFrame :=
  {| columns := [lit "Y"; lit "Z"];
     rows := [[Str (lit "y3"); Str (lit "z3")]] |}.

Lemma concat_dfs_merge_witness :
  NoDup (columns tableA) /\ NoDup (columns tableB)
  /\ rectangular tableA /\ rectangular tableB
  /\ exists M,
       _concat_dfs [tableA; tableB] = Ok M
       /\ length (rows M) = (length (rows tableA) + length (rows tableB))%nat
       /\ (forall c, c ∈ columns M <-> c ∈ columns tableA \/ c ∈ columns tableB).
Proof.
  assert (HA : NoDup (columns tableA))
    by (apply (bool_decide_unpack _); vm_compute; exact I).
  assert (HB : NoDup (columns tableB))
    by (apply (bool_decide_unpack _); vm_compute; exact I).
  assert (RA : rectangular tableA) by (repeat constructor).
  assert (RB : rectangular tableB) by (repeat constructor).
  repeat (split; [assumption |]).
  destruct (concat_dfs_merge tableA tableB HA HB RA RB)
    as (M & HM & _ & _ & Hcols & _ & Hlen & _).
  exists M. auto.
Defined.

(** C7 as stated fails: the cell of a row of [tableA] under column [Z],
    which [tableA] lacks, is [NaN] after merging, not the empty string. *)
Lemma concat_dfs_fills_nan_not_empty :
  exists M,
    _concat_dfs [tableA; tableB] = Ok M
    /\ (0 < length (rows tableA))%nat
    /\ (lit "Z" ∈ columns M) /\ (lit "Z" ∉ columns tableA)
    /\ cell_at M 0 (lit "Z") = Some NaN
    /\ cell_at M 0 (lit "Z") <> Some (Str []).
Proof.
  eexists. split; [vm_compute; reflexivity |].
  split; [simpl; lia |].
  split; [apply (bool_decide_unpack _); vm_compute; exact I |].
  split; [apply (bool_decide_unpack _); vm_compute; exact I |].
  split; [vm_compute; reflexivity | vm_compute; discriminate].
Qed.

End FrameFacts.

(** ** The orchestrator: traces and durable state *)
Module SyncFacts.
Import Text Url Version Candidates Frame Sync.

Definition is_fetch (e : event) : Prop :=
  match e with
  | EvFetch _ _ => True
  | _ => False
  end.

(** The fetches made for a candidate that is not accepted: file 1
    alone when it fails, else file 1 and a failing file 2. *)
Inductive rejected (f1 f2 : text) : list event -> Prop :=
| rejected_first : rejected f1 f2 [EvFetch f1 false]
| rejected_second : rejected f1 f2 [EvFetch f1 true; EvFetch f2 false].

Inductive rejected_all (base : text) : list release -> list event -> Prop :=
| rejected_nil : rejected_all base [] []
| rejected_cons c cs ev evs :
    rejected (fst (candidate_urls base c)) (snd (candidate_urls base c)) ev ->
    rejected_all base cs evs ->
    rejected_all base (c :: cs) (ev ++ evs).



(** Whether a trace holds a fetch of [url]. *)
Definition fetched (url : text) (tr : list event) : bool :=
  existsb (fun e => match e with
                    | EvFetch u _ => bool_decide (u = url)
                    | _ => false
                    end) tr.

(** The content of [out_dir] is kept: the disk is the same, or the
    directory did not exist and has been made, empty. *)
Definition made (d d' : disk) : Prop :=
  d' = d \/ (d = NoDir /\ d' = Dir NoFile ∅).

Lemma made_refl (d : disk) : made d d.
Proof. by left. Qed.

Lemma made_trans (d1 d2 d3 : disk) : made d1 d2 -> made d2 d3 -> made d1 d3.
Proof.
  intros [-> | [-> ->]] [-> | [E ->]]; unfold made; eauto; discriminate.
Qed.

Lemma made_version_txt (d d' : disk) : made d d' -> version_txt d' = version_txt d.
Proof. by intros [-> | [-> ->]]. Qed.

Lemma made_csv_files (d d' : disk) : made d d' -> csv_files d' = csv_files d.
Proof. by intros [-> | [-> ->]]. Qed.

Lemma made_of_dir (m : marker_file) (t : gmap text csv_file) (d' : disk) :
  made (Dir m t) d' -> d' = Dir m t.
Proof. by intros [-> | [? _]]. Qed.

Section RunFacts.

Context {World : Type}.
Variable net_fetch : text -> World -> option bytes * World.
Variable is_zipfile : bytes -> bool.
Variable ZipFile : bytes -> option (list (text * option bytes)).
Variable read_excel : bytes -> option DataFrame.
Variable read_csv : bytes -> option DataFrame.
Variable read_fwf : bytes -> option DataFrame.
Variable pandas : pandas_version.
Variable mkdir : World -> bool * World.
Variable csv_write : text -> World -> write_outcome * World.
Variable marker_write : World -> write_outcome * World.

#[local] Abbreviation fetch := (_fetch_zip_via_license net_fetch).
#[local] Abbreviation read_df :=
  (_read_zip_to_df is_zipfile ZipFile read_excel read_csv read_fwf pandas).
#[local] Abbreviation combine :=
  (download_and_combine net_fetch is_zipfile ZipFile read_excel read_csv
     read_fwf pandas).
#[local] Abbreviation csv_path_of := (_combined_csv_path mkdir).
#[local] Abbreviation main :=
  (download_or_skip_both_with_version net_fetch is_zipfile ZipFile
     read_excel read_csv read_fwf pandas mkdir csv_write marker_write).
#[local] Abbreviation run_ :=
  (run net_fetch is_zipfile ZipFile read_excel read_csv read_fwf pandas mkdir
     csv_write marker_write).

(** A computation is quiet when it leaves the disk alone and only adds
    fetches to the trace. *)
Definition quiet {A : Type} (m : @M World A) : Prop :=
  forall st,
    files (snd (m st)) = files st
    /\ exists fs, trace (snd (m st)) = trace st ++ fs /\ Forall is_fetch fs.

Lemma quiet_lift {A : Type} (r : result A) : quiet (lift r).
Proof. intros st. split; [done |]. exists []. by rewrite app_nil_r. Qed.

Lemma quiet_ret {A : Type} (a : A) : quiet (ret a).
Proof. apply (quiet_lift (Ok a)). Qed.

Lemma quiet_bind {A B : Type} (m : M A) (k : A -> M B) :
  quiet m -> (forall a, quiet (k a)) -> quiet (bind m k).
Proof.
  intros Hm Hk st. unfold bind. specialize (Hm st).
  destruct (m st) as [[a | e] st1]; simpl in Hm; [| exact Hm].
  destruct Hm as (Hf & fs & Ht & Hfs).
  destruct (Hk a st1) as (Hf' & fs' & Ht' & Hfs').
  split; [congruence |].
  exists (fs ++ fs'). split; [by rewrite Ht', Ht, app_assoc |].
  by apply Forall_app.
Qed.

Lemma fetch_step (url : text) (st : state) :
  fetch url st
  = (Ok (fst (net_fetch url (world st))),
     {| world := snd (net_fetch url (world st));
        files := files st;
        trace := trace st
                 ++ [EvFetch url (truthy (fst (net_fetch url (world st))))] |}).
Proof. unfold _fetch_zip_via_license. by destruct (net_fetch _ _). Qed.

Lemma bind_fetch {B : Type} (url : text) (k : option bytes -> M B) (st : state) :
  bind (fetch url) k st
  = k (fst (net_fetch url (world st)))
      {| world := snd (net_fetch url (world st));
         files := files st;
         trace := trace st
                  ++ [EvFetch url (truthy (fst (net_fetch url (world st))))] |}.
Proof. unfold bind. by rewrite fetch_step. Qed.

Lemma quiet_fetch (url : text) : quiet (fetch url).
Proof.
  intros st. rewrite fetch_step. simpl. split; [done |].
  eexists. split; [done |]. by repeat constructor.
Qed.

Lemma quiet_probe (base : text) (cands : list release) :
  quiet (probe net_fetch base cands).
Proof.
  induction cands as [|c cands IH]; simpl; [apply quiet_ret |].
  destruct (candidate_urls base c) as [f1 f2].
  apply quiet_bind; [apply quiet_fetch |]. intros b1.
  destruct (truthy b1); [| exact IH].
  apply quiet_bind; [apply quiet_fetch |]. intros b2.
  destruct (truthy b2); [apply quiet_ret | exact IH].
Qed.

Lemma quiet_combine (f1 f2 : text) : quiet (combine f1 f2).
Proof.
  unfold download_and_combine.
  repeat (first [apply quiet_fetch | apply quiet_lift
                | apply quiet_bind; [| intros ?]]).
Qed.

Lemma quiet_read_local_version : quiet (@_read_local_version World).
Proof.
  intros st. unfold _read_local_version.
  destruct (version_txt (files st)); simpl; (split; [done |]);
    exists []; by rewrite app_nil_r.
Qed.

Lemma quiet_resolve (base : text) : quiet (@resolve_local_version World base).
Proof.
  unfold resolve_local_version.
  apply quiet_bind; [apply quiet_read_local_version |].
  intros [l |]; [apply quiet_ret | apply quiet_lift].
Qed.

Lemma quiet_csv_exists (name : text) : quiet (@csv_exists World name).
Proof. intros st. split; [done |]. exists []. by rewrite app_nil_r. Qed.

(** A computation is calm when it keeps the content of [out_dir], which
    it may have to make, and only adds fetches to the trace. *)
Definition calm {A : Type} (m : @M World A) : Prop :=
  forall st,
    made (files st) (files (snd (m st)))
    /\ exists fs, trace (snd (m st)) = trace st ++ fs /\ Forall is_fetch fs.

Lemma quiet_calm {A : Type} (m : M A) : quiet m -> calm m.
Proof.
  intros H st. destruct (H st) as [Hf Ht]. split; [by left | done].
Qed.

Lemma calm_bind {A B : Type} (m : M A) (k : A -> M B) :
  calm m -> (forall a, calm (k a)) -> calm (bind m k).
Proof.
  intros Hm Hk st. unfold bind. specialize (Hm st).
  destruct (m st) as [[a | e] st1]; simpl in Hm; [| exact Hm].
  destruct Hm as (Hf & fs & Ht & Hfs).
  destruct (Hk a st1) as (Hf' & fs' & Ht' & Hfs').
  split; [by eapply made_trans |].
  exists (fs ++ fs'). split; [by rewrite Ht', Ht, app_assoc |].
  by apply Forall_app.
Qed.

(** [out_dir.mkdir] by cases. *)
Lemma out_dir_mkdir_dir (st : state) (m : marker_file) (t : gmap text csv_file) :
  files st = Dir m t -> out_dir_mkdir mkdir st = (Ok tt, st).
Proof. unfold out_dir_mkdir. by intros ->. Qed.

Lemma out_dir_mkdir_nodir (st : state) :
  files st = NoDir ->
  out_dir_mkdir mkdir st
  = if fst (mkdir (world st))
    then (Ok tt, {| world := snd (mkdir (world st)); files := Dir NoFile ∅;
                    trace := trace st |})
    else (Raise OSError, {| world := snd (mkdir (world st)); files := NoDir;
                            trace := trace st |}).
Proof. unfold out_dir_mkdir. intros ->. by destruct (mkdir _) as [[] ?]. Qed.

Lemma calm_out_dir_mkdir : calm (out_dir_mkdir mkdir).
Proof.
  intros st. destruct (files st) as [| m t] eqn:Hd.
  - rewrite (out_dir_mkdir_nodir _ Hd).
    destruct (fst (mkdir (world st))); simpl;
      (split; [unfold made; eauto | exists []; by rewrite app_nil_r]).
  - rewrite (out_dir_mkdir_dir _ _ _ Hd). simpl. rewrite Hd.
    split; [apply made_refl | exists []; by rewrite app_nil_r].
Qed.

Lemma calm_csv_path_of (url : text) : calm (csv_path_of url).
Proof.
  unfold _combined_csv_path.
  apply calm_bind; [apply quiet_calm, quiet_lift |]. intros name.
  apply calm_bind; [apply calm_out_dir_mkdir |]. intros _.
  apply quiet_calm, quiet_ret.
Qed.

(** When it returns, the name is that of the URL and the directory
    exists, with the content it had. *)
Lemma csv_path_of_ok (url : text) (st st' : state) (p : text) :
  csv_path_of url st = (Ok p, st') ->
  combined_csv_name url = Ok p
  /\ trace st' = trace st
  /\ files st' = Dir (version_txt (files st)) (csv_files (files st)).
Proof.
  unfold _combined_csv_path, bind, lift, ret.
  destruct (combined_csv_name url) as [name | e]; [| discriminate].
  destruct (files st) as [| m t] eqn:Hd.
  - rewrite (out_dir_mkdir_nodir _ Hd).
    destruct (fst (mkdir (world st))); [| discriminate].
    by intros [= -> <-].
  - rewrite (out_dir_mkdir_dir _ _ _ Hd). by intros [= -> <-].
Qed.

(** On an existing directory nothing happens. *)
Lemma csv_path_of_dir (url : text) (st : state) (m : marker_file)
    (t : gmap text csv_file) :
  files st = Dir m t ->
  csv_path_of url st = (combined_csv_name url, st).
Proof.
  intros Hd. unfold _combined_csv_path, bind, lift, ret.
  destruct (combined_csv_name url) as [name | e]; [| done].
  by rewrite (out_dir_mkdir_dir _ _ _ Hd).
Qed.

(** C2 (as amended). The probing loop takes the candidates in their
    order.  For a candidate it fetches the file-1 URL, and the file-2
    URL only when the file-1 fetch succeeded; it accepts the candidate
    exactly when both fetches succeeded, and that pair of fetches then
    ends the loop: nothing is fetched for a later candidate.  Every
    candidate before the accepted one, or every candidate when none is
    accepted, was rejected after one failing file-1 fetch or after a
    file-1 success and a file-2 failure.  Probing never raises and
    does not touch the disk. *)
Theorem probe_short_circuits (base : text) (cands : list release) (st : state) :
  files (snd (probe net_fetch base cands st)) = files st
  /\ exists fs,
       trace (snd (probe net_fetch base cands st)) = trace st ++ fs
       /\ match fst (probe net_fetch base cands st) with
          | Ok None => rejected_all base cands fs
          | Ok (Some (c, f1, f2)) =>
              exists pre post fs_pre,
                cands = pre ++ c :: post
                /\ (f1, f2) = candidate_urls base c
                /\ rejected_all base pre fs_pre
                /\ fs = fs_pre ++ [EvFetch f1 true; EvFetch f2 true]
          | Raise _ => False
          end.
Proof.
  split; [apply quiet_probe |].
  revert st. induction cands as [|c cands IH]; intros st.
  - exists []. simpl. rewrite app_nil_r. split; [done | constructor].
  - simpl. destruct (candidate_urls base c) as [f1 f2] eqn:Hurls.
    rewrite bind_fetch.
    set (st1 := {| world := _; files := _; trace := _ |}).
    destruct (truthy (fst (net_fetch f1 (world st)))) eqn:Hb1.
    + rewrite bind_fetch.
      set (st2 := {| world := _; files := _; trace := _ |}).
      destruct (truthy (fst (net_fetch f2 (world st1)))) eqn:Hb2.
      * exists [EvFetch f1 true; EvFetch f2 true]. simpl.
        split; [by rewrite <- app_assoc |].
        exists [], cands, [].
        split; [done |]. split; [done |]. split; [constructor | done].
      * destruct (IH st2) as (fs & Ht & Hres).
        exists ([EvFetch f1 true; EvFetch f2 false] ++ fs).
        split; [rewrite Ht; simpl; by rewrite <- !app_assoc |].
        assert (Hrej : rejected (fst (candidate_urls base c))
                         (snd (candidate_urls base c))
                         [EvFetch f1 true; EvFetch f2 false])
          by (rewrite Hurls; constructor).
        destruct (fst (probe net_fetch base cands st2)) as [[[[c' f1'] f2'] |] | e];
          [| by constructor | done].
        destruct Hres as (pre & post & fs_pre & -> & Hu & Hpre & ->).
        exists (c :: pre), post, ([EvFetch f1 true; EvFetch f2 false] ++ fs_pre).
        split; [done |]. split; [done |].
        split; [by constructor | by rewrite <- app_assoc].
    + destruct (IH st1) as (fs & Ht & Hres).
      exists ([EvFetch f1 false] ++ fs).
      split; [rewrite Ht; simpl; by rewrite <- !app_assoc |].
      assert (Hrej : rejected (fst (candidate_urls base c))
                       (snd (candidate_urls base c)) [EvFetch f1 false])
        by (rewrite Hurls; constructor).
      destruct (fst (probe net_fetch base cands st1)) as [[[[c' f1'] f2'] |] | e];
        [| by constructor | done].
      destruct Hres as (pre & post & fs_pre & -> & Hu & Hpre & ->).
      exists (c :: pre), post, ([EvFetch f1 false] ++ fs_pre).
      split; [done |]. split; [done |].
      split; [by constructor | by rewrite <- app_assoc].
Qed.


(** The three ways a run can end, seen from its trace and the disk:
    without any write, [out_dir] made at most; after a table write that
    failed; or after a table write that succeeded, followed by the
    marker write. *)
Inductive shape (st0 : @state World) : result (text * text) -> @state World -> Prop :=
| shape_quiet res st fs :
    Forall is_fetch fs ->
    trace st = trace st0 ++ fs ->
    made (files st0) (files st) ->
    (forall p msg, res = Ok (p, msg) -> is_Some (csv_files (files st0) !! p)) ->
    shape st0 res st
| shape_table_failed name o st fs :
    Forall is_fetch fs ->
    o <> Written ->
    trace st = trace st0 ++ fs ++ [EvToCsv name o] ->
    version_txt (files st) = version_txt (files st0) ->
    shape st0 (Raise OSError) st
| shape_marker name df line o res st fs :
    Forall is_fetch fs ->
    trace st = trace st0 ++ fs ++ [EvToCsv name Written; EvWriteVersion line o] ->
    csv_files (files st) = <[name := Table df]> (csv_files (files st0)) ->
    (res = Raise OSError \/ exists msg, res = Ok (name, msg)) ->
    shape st0 res st.

Definition shaped (m : @M World (text * text)) : Prop :=
  forall st0, shape st0 (fst (m st0)) (snd (m st0)).

Lemma shaped_after_calm {A : Type} (m : M A) (k : A -> M (text * text)) :
  calm m -> (forall a, shaped (k a)) -> shaped (bind m k).
Proof.
  intros Hm Hk st0. unfold bind. specialize (Hm st0).
  destruct (m st0) as [[a | e] st1]; simpl in Hm;
    destruct Hm as (Hf & fs & Ht & Hfs).
  - destruct (Hk a st1) as [res st fs' Hfs' Ht' Hf' Hp
                           | name o st fs' Hfs' Ho Ht' Hv
                           | name df line o res st fs' Hfs' Ht' Hc Hres].
    + apply shape_quiet with (fs := fs ++ fs').
      * by apply Forall_app.
      * by rewrite Ht', Ht, app_assoc.
      * by eapply made_trans.
      * intros p msg E. rewrite <- (made_csv_files _ _ Hf). by eapply Hp.
    + apply shape_table_failed with (name := name) (o := o) (fs := fs ++ fs').
      * by apply Forall_app.
      * done.
      * by rewrite Ht', Ht, <- !app_assoc.
      * by rewrite Hv, (made_version_txt _ _ Hf).
    + apply shape_marker with (name := name) (df := df) (line := line) (o := o)
                              (fs := fs ++ fs').
      * by apply Forall_app.
      * by rewrite Ht', Ht, <- !app_assoc.
      * by rewrite Hc, (made_csv_files _ _ Hf).
      * done.
  - simpl. by apply shape_quiet with (fs := fs).
Qed.

Lemma shaped_persist (name : text) (df : DataFrame) (y q v r : Z) (msg : text) :
  shaped (bind (to_csv csv_write name df) (fun _ =>
          bind (_write_local_version marker_write y q v r) (fun _ =>
          ret (name, msg)))).
Proof.
  intros st0. unfold bind, to_csv.
  destruct (write_into (files st0) (world st0) (csv_write name))
    as [o w] eqn:Hcsv.
  destruct o; simpl.
  - destruct (files st0) as [| m0 t0] eqn:Hd0; [discriminate |].
    cbn [write_into] in Hcsv.
    unfold _write_local_version. cbn [files world trace log set_csv write_into].
    destruct (marker_write w) as [o' w'] eqn:Hmk.
    apply shape_marker with (name := name) (df := df)
      (line := version_line y q v r) (o := o') (fs := []).
    + constructor.
    + destruct o'; simpl; by rewrite <- app_assoc.
    + rewrite Hd0. by destruct o'.
    + destruct o'; simpl; eauto.
  - apply shape_table_failed with (name := name) (o := FailedUntouched) (fs := []);
      done.
  - apply shape_table_failed with (name := name) (o := FailedPartial) (fs := []);
      try done.
    simpl. by destruct (files st0).
Qed.

Lemma bind_csv_exists {B : Type} (name : text) (k : bool -> M B) (st : @state World) :
  bind (csv_exists name) k st
  = k (bool_decide (is_Some (csv_files (files st) !! name))) st.
Proof. reflexivity. Qed.

Lemma shaped_main (base : text) : shaped (main base).
Proof.
  unfold download_or_skip_both_with_version.
  apply shaped_after_calm; [apply quiet_calm, quiet_resolve |].
  intros [[[y q] v] r].
  apply shaped_after_calm; [apply quiet_calm, quiet_probe |]. intros tgt.
  apply shaped_after_calm; [apply calm_csv_path_of |]. intros csv_path.
  destruct tgt as [[[[[[cy cq] cv] cr] f1] f2] |].
  - apply shaped_after_calm; [apply quiet_calm, quiet_combine |]. intros df.
    apply shaped_after_calm; [apply calm_csv_path_of |]. intros p.
    apply shaped_persist.
  - intros st0. rewrite !bind_csv_exists.
    case_bool_decide as Hthere.
    + simpl. apply shape_quiet with (fs := []).
      * constructor.
      * by rewrite app_nil_r.
      * apply made_refl.
      * by intros p msg [= <- _].
    + destruct (_pair_f1_f2 base) as [f1 f2].
      apply (shaped_after_calm (combine f1 f2));
        [apply quiet_calm, quiet_combine |].
      intros df. apply shaped_persist.
Qed.

Lemma run_shape (base : text) (w : World) (d : disk) :
  shape {| world := w; files := d; trace := [] |}
    (fst (run_ base w d)) (snd (run_ base w d)).
Proof. apply shaped_main. Qed.

(** Where a marker write stands in a trace that ends with the two
    writes. *)
Lemma marker_event_is_last (fs pre post : list event) (name : text)
    (line line' : text) (o o' : write_outcome) :
  Forall is_fetch fs ->
  fs ++ [EvToCsv name Written; EvWriteVersion line o]
  = pre ++ EvWriteVersion line' o' :: post ->
  pre = fs ++ [EvToCsv name Written] /\ post = [].
Proof.
  intros Hfs. revert pre.
  induction Hfs as [|f fs Hf Hfs IH]; intros pre E; simpl in E.
  - destruct pre as [|p1 [|p2 pre]]; simpl in E; try discriminate.
    + inversion E; subst. done.
    + inversion E as [[E1 E2 E3]]. by destruct pre.
  - destruct pre as [|p1 pre]; simpl in E.
    + inversion E; subst. destruct Hf.
    + inversion E as [[E1 E2]]. destruct (IH pre E2) as [-> ->]. done.
Qed.

(** C1. In every run the marker is written only after the merged table
    has been written successfully: a marker write in the trace is the
    last event, it directly follows the successful write of a table,
    which is the only table write of the run and whose table is then on
    the disk; a run in which a table write failed holds no marker write;
    and the marker file differs from the one before the run only if a
    table write succeeded in this run.  This covers the bootstrap and
    the update branch. *)
Theorem marker_written_only_after_table (base : text) (w : World) (d : disk) :
  let st := snd (run_ base w d) in
  (forall pre line o post,
     trace st = pre ++ EvWriteVersion line o :: post ->
     exists fs name df,
       pre = fs ++ [EvToCsv name Written] /\ Forall is_fetch fs /\ post = []
       /\ csv_files (files st) !! name = Some (Table df))
  /\ (forall name o,
        EvToCsv name o ∈ trace st -> o <> Written ->
        forall line o', EvWriteVersion line o' ∉ trace st)
  /\ (version_txt (files st) <> version_txt d ->
      exists name df,
        EvToCsv name Written ∈ trace st
        /\ csv_files (files st) !! name = Some (Table df)).
Proof.
  intros st. subst st.
  destruct (run_shape base w d) as [res st fs Hfs Ht Hf Hp
                                   | name o st fs Hfs Ho Ht Hv
                                   | name df line o res st fs Hfs Ht Hc Hres];
    simpl in Ht, Hf || simpl in Ht, Hv || simpl in Ht, Hc.
  - split; [| split].
    + intros pre line o post E. rewrite Ht in E.
      rewrite Forall_forall in Hfs.
      assert (Hin : EvWriteVersion line o ∈ fs)
        by (rewrite E; apply elem_of_app; right; apply elem_of_cons; by left).
      destruct (Hfs _ Hin).
    + intros name o Hin. rewrite Ht in Hin.
      rewrite Forall_forall in Hfs. destruct (Hfs _ Hin).
    + intros Hne. by rewrite (made_version_txt _ _ Hf) in Hne.
  - split; [| split].
    + intros pre line o' post E. rewrite Ht in E.
      assert (Hin : EvWriteVersion line o' ∈ fs ++ [EvToCsv name o])
        by (rewrite E; apply elem_of_app; right; apply elem_of_cons; by left).
      apply elem_of_app in Hin as [Hin | Hin].
      * rewrite Forall_forall in Hfs. destruct (Hfs _ Hin).
      * apply list_elem_of_singleton in Hin. discriminate.
    + intros name' o' _ _ line o'' Hin. rewrite Ht in Hin.
      apply elem_of_app in Hin as [Hin | Hin].
      * rewrite Forall_forall in Hfs. destruct (Hfs _ Hin).
      * apply list_elem_of_singleton in Hin. discriminate.
    + intros Hne. by rewrite Hv in Hne.
  - assert (Hon : csv_files (files st) !! name = Some (Table df))
      by (rewrite Hc; apply lookup_insert_eq).
    split; [| split].
    + intros pre line' o' post E. rewrite Ht in E.
      destruct (marker_event_is_last _ _ _ _ _ _ _ _ Hfs E) as [-> ->].
      by exists fs, name, df.
    + intros name' o' Hin Ho'. rewrite Ht in Hin.
      apply elem_of_app in Hin as [Hin | Hin].
      * rewrite Forall_forall in Hfs. destruct (Hfs _ Hin).
      * apply elem_of_cons in Hin as [Hin | Hin]; [congruence |].
        apply list_elem_of_singleton in Hin. discriminate.
    + intros _. exists name, df. split; [| done].
      rewrite Ht. apply elem_of_app. right. apply elem_of_cons. by left.
Qed.

Lemma bind_ok {A B : Type} (m : @M World A) (k : A -> M B) (st st' : state) (a : A) :
  m st = (Ok a, st') -> bind m k st = k a st'.
Proof. intros E. unfold bind. by rewrite E. Qed.

Lemma resolve_keeps_state (base : text) (st : @state World) :
  snd (resolve_local_version base st) = st.
Proof.
  unfold resolve_local_version, bind, _read_local_version.
  destruct (version_txt (files st)) as [| | txt]; try done.
  by destruct (match_version_line (strip txt)).
Qed.


(** The response is an archive that [_read_zip_to_df] goes on to open. *)
Definition valid_zip (z : option bytes) : Prop :=
  truthy z = true /\ _bytes_is_zip is_zipfile (default [] z) = true.


Lemma read_df_of_invalid_zip (z : option bytes) :
  ~ valid_zip z -> read_df z = Raise RuntimeError.
Proof.
  intros H. unfold _read_zip_to_df.
  destruct (truthy z) eqn:H1; [| done].
  destruct (_bytes_is_zip is_zipfile (default [] z)) eqn:H2; [| done].
  by destruct H.
Qed.

(** No name of the listing has one of the two suffixes. *)
Definition no_data_member (members : list (text * option bytes)) : Prop :=
  Forall (fun m => is_data_member (fst m) = false) members.

Lemma find_data_member_none (members : list (text * option bytes)) :
  List.find is_data_member (map fst members) = None <-> no_data_member members.
Proof.
  unfold no_data_member.
  induction members as [| [n b] ms IH]; simpl; [by split; [constructor |] |].
  destruct (is_data_member n) eqn:Hn.
  - split; [done |]. intros H. inversion H; subst. simpl in *. congruence.
  - rewrite IH. split; [by constructor |]. intros H. by inversion H.
Qed.

Lemma extract_member_not_found (zbytes : bytes) :
  _extract_member ZipFile zbytes = Raise FileNotFoundError
  <-> exists members, ZipFile zbytes = Some members /\ no_data_member members.
Proof.
  unfold _extract_member. destruct (ZipFile zbytes) as [members |].
  - destruct (List.find is_data_member (map fst members)) as [name |] eqn:Hfind.
    + split.
      * by destruct (zip_read members name).
      * intros (ms & [= <-] & Hno). apply find_data_member_none in Hno.
        congruence.
    + split; [| done]. intros _. exists members. split; [done |].
      by apply find_data_member_none.
  - split; [done |]. by intros (ms & ? & _).
Qed.









(** A probing loop that accepts nothing has rejected every candidate. *)
Lemma probe_none_rejected (base : text) (cands : list release) :
  forall st st1,
    probe net_fetch base cands st = (Ok None, st1) ->
    exists fs, trace st1 = trace st ++ fs /\ rejected_all base cands fs.
Proof.
  induction cands as [|c cands IH]; intros st st1; simpl.
  - intros [= <-]. exists []. rewrite app_nil_r. split; [done | constructor].
  - destruct (candidate_urls base c) as [f1 f2] eqn:Hurls.
    rewrite bind_fetch.
    destruct (truthy (fst (net_fetch f1 (world st)))) eqn:Hb1.
    + rewrite bind_fetch.
      destruct (truthy (fst (net_fetch f2 _))) eqn:Hb2; [discriminate |].
      intros H. destruct (IH _ _ H) as (fs & Ht & Hrej). simpl in Ht.
      exists ([EvFetch f1 true; EvFetch f2 false] ++ fs).
      split; [rewrite Ht; by rewrite <- !app_assoc |].
      constructor; [| done]. rewrite Hurls. constructor.
    + intros H. destruct (IH _ _ H) as (fs & Ht & Hrej). simpl in Ht.
      exists ([EvFetch f1 false] ++ fs).
      split; [rewrite Ht; by rewrite <- !app_assoc |].
      constructor; [| done]. rewrite Hurls. constructor.
Qed.

(** A file is in a directory that exists. *)
Lemma holds_file_is_dir (d : disk) (p : text) :
  is_Some (csv_files d !! p) -> exists m t, d = Dir m t.
Proof.
  destruct d as [| m t]; [| by eauto].
  intros [f Hf]. simpl in Hf. by rewrite lookup_empty in Hf.
Qed.

(** A run that succeeds leaves the file it returns on the disk. *)
Lemma run_output_exists (base : text) (w : World) (d : disk) (p msg : text) :
  fst (run_ base w d) = Ok (p, msg) ->
  is_Some (csv_files (files (snd (run_ base w d))) !! p).
Proof.
  intros Hres.
  destruct (run_shape base w d) as [res st fs Hfs Ht Hf Hp
                                   | name o st fs Hfs Ho Ht Hv
                                   | name df line o res st fs Hfs Ht Hc Hr].
  - rewrite (made_csv_files _ _ Hf). by eapply Hp.
  - discriminate.
  - destruct Hr as [-> | [msg' ->]]; [discriminate |].
    injection Hres as <- _. rewrite Hc, lookup_insert_eq. by eexists.
Qed.

(** C3 (as amended). Take the disk left by a run that succeeded and
    returned the file derived from the base URL, as every "Up to date"
    and every "Downloaded initial version" run does.  A re-run on that
    disk in which no candidate is accepted ends right after probing: it
    returns that file with the status "Up to date", its final state is
    the state after the probing loop, so it makes no fetch besides the
    rejected probes, and it writes nothing. *)
Theorem rerun_when_current_is_noop (base : text) (w : World) (d : disk)
    (p msg : text) (w' : World) (y q v r : Z) (st1 : state) :
  fst (run_ base w d) = Ok (p, msg) ->
  combined_csv_name base = Ok p ->
  let d' := files (snd (run_ base w d)) in
  let st0 := {| world := w'; files := d'; trace := [] |} in
  fst (resolve_local_version base st0) = Ok (y, q, v, r) ->
  probe net_fetch base (candidates y q v r) st0 = (Ok None, st1) ->
  run_ base w' d' = (Ok (p, msg_up_to_date), st1)
  /\ files st1 = d'
  /\ rejected_all base (candidates y q v r) (trace st1).
Proof.
  intros Hprev Hpath d' st0 Hresolve Hprobe.
  assert (Hthere : is_Some (csv_files d' !! p)) by by apply run_output_exists in Hprev.
  assert (Hfiles : files st1 = d').
  { pose proof (quiet_probe base (candidates y q v r) st0) as [Hf _].
    by rewrite Hprobe in Hf. }
  assert (Hrej : rejected_all base (candidates y q v r) (trace st1)).
  { destruct (probe_none_rejected _ _ _ _ Hprobe) as (fs & Ht & Hres).
    simpl in Ht. by rewrite Ht. }
  split; [| done].
  unfold run, download_or_skip_both_with_version. fold st0.
  assert (Hstart : resolve_local_version base st0 = (Ok (y, q, v, r), st0)).
  { pose proof (resolve_keeps_state base st0) as Hs.
    destruct (resolve_local_version base st0) as [r0 s0].
    simpl in Hresolve, Hs. by subst. }
  rewrite (bind_ok _ _ _ _ _ Hstart).
  rewrite (bind_ok _ _ _ _ _ Hprobe).
  destruct (holds_file_is_dir _ _ Hthere) as (m & t & Hdir).
  rewrite (bind_ok _ _ st1 st1 p)
    by (rewrite (csv_path_of_dir base st1 m t), Hpath; congruence).
  rewrite bind_csv_exists, Hfiles.
  by rewrite bool_decide_eq_true_2.
Qed.

(** The path returned by a run that does not update is the one derived
    from the base URL. *)
Lemma run_without_update_returns_base_path (base : text) (w : World) (d : disk)
    (p msg : text) :
  fst (run_ base w d) = Ok (p, msg) ->
  (forall cy cq cv cr, msg <> msg_updated cy cq cv cr) ->
  combined_csv_name base = Ok p.
Proof.
  unfold run, download_or_skip_both_with_version.
  set (st0 := {| world := w; files := d; trace := [] |}).
  intros Hres Hmsg. revert Hres. unfold bind at 1.
  destruct (resolve_local_version base st0) as [[[[[y q] v] r] | e] st1];
    [| discriminate].
  unfold bind at 1.
  destruct (probe net_fetch base (candidates y q v r) st1) as [[tgt | e] st2];
    [| discriminate].
  unfold bind at 1.
  destruct (csv_path_of base st2) as [[csv_path | e] st2'] eqn:Hpath;
    [| discriminate].
  apply csv_path_of_ok in Hpath as [Hpath _].
  destruct tgt as [[[[[[cy cq] cv] cr] f1] f2] |].
  - unfold bind at 1.
    destruct (combine f1 f2 st2') as [[df | e] st3]; [| discriminate].
    unfold bind at 1.
    destruct (csv_path_of f1 st3) as [[p' | e] st3']; [| discriminate].
    unfold bind at 1.
    destruct (to_csv csv_write p' df st3') as [[[] | e] st4]; [| discriminate].
    unfold bind at 1.
    destruct (_write_local_version marker_write cy cq cv cr st4)
      as [[[] | e] st5]; [| discriminate].
    simpl. intros [= _ E]. by destruct (Hmsg cy cq cv cr).
  - rewrite bind_csv_exists. case_bool_decide.
    + simpl. by intros [= -> _].
    + destruct (_pair_f1_f2 base) as [f1 f2].
      unfold bind at 1.
      destruct (combine f1 f2 st2') as [[df | e] st3]; [| discriminate].
      unfold bind at 1.
      destruct (to_csv csv_write csv_path df st3) as [[[] | e] st4];
        [| discriminate].
      unfold bind at 1.
      destruct (_write_local_version marker_write y q v r st4)
        as [[[] | e] st5]; [| discriminate].
      simpl. by intros [= -> _].
Qed.

(** Two states that agree on everything but the marker, where the marker
    of the first is either that of the second or the file [m0] while the
    second has none. *)
Definition alike (m0 : marker_file) (st1 st2 : @state World) : Prop :=
  world st1 = world st2 /\ trace st1 = trace st2
  /\ csv_files (files st1) = csv_files (files st2)
  /\ (version_txt (files st1) = version_txt (files st2)
      \/ (version_txt (files st1) = m0 /\ version_txt (files st2) = NoFile))
  /\ (files st1 = NoDir <-> files st2 = NoDir).

(** A computation that does not depend on the marker. *)
Definition blind {A : Type} (m : @M World A) : Prop :=
  forall m0 st1 st2, alike m0 st1 st2 ->
    fst (m st1) = fst (m st2) /\ alike m0 (snd (m st1)) (snd (m st2)).

Lemma blind_lift {A : Type} (r : result A) : blind (lift r).
Proof. by intros m0 st1 st2 H. Qed.

Lemma blind_ret {A : Type} (a : A) : blind (ret a).
Proof. apply (blind_lift (Ok a)). Qed.

Lemma blind_bind_at {A B : Type} (m0 : marker_file) (m : M A) (k : A -> M B)
    (st1 st2 : state) :
  fst (m st1) = fst (m st2) -> alike m0 (snd (m st1)) (snd (m st2)) ->
  (forall a, blind (k a)) ->
  fst (bind m k st1) = fst (bind m k st2)
  /\ alike m0 (snd (bind m k st1)) (snd (bind m k st2)).
Proof.
  intros Hr Ha Hk. unfold bind.
  destruct (m st1) as [[a1 | e1] s1], (m st2) as [[a2 | e2] s2];
    simpl in Hr, Ha; try discriminate.
  - injection Hr as <-. by apply Hk.
  - simpl. split; [congruence | exact Ha].
Qed.

Lemma blind_bind {A B : Type} (m : M A) (k : A -> M B) :
  blind m -> (forall a, blind (k a)) -> blind (bind m k).
Proof.
  intros Hm Hk m0 st1 st2 H. destruct (Hm m0 st1 st2 H) as [Hr Ha].
  by apply blind_bind_at.
Qed.

Lemma blind_fetch (url : text) : blind (fetch url).
Proof.
  intros m0 st1 st2 (Hw & Ht & Hc & Hv & Hd). rewrite !fetch_step. simpl.
  rewrite Hw, Ht. by repeat split; try apply Hd.
Qed.

Lemma blind_probe (base : text) (cands : list release) :
  blind (probe net_fetch base cands).
Proof.
  induction cands as [|c cands IH]; simpl; [apply blind_ret |].
  destruct (candidate_urls base c) as [f1 f2].
  apply blind_bind; [apply blind_fetch |]. intros b1.
  destruct (truthy b1); [| exact IH].
  apply blind_bind; [apply blind_fetch |]. intros b2.
  destruct (truthy b2); [apply blind_ret | exact IH].
Qed.

Lemma blind_combine (f1 f2 : text) : blind (combine f1 f2).
Proof.
  unfold download_and_combine.
  repeat (first [apply blind_fetch | apply blind_lift
                | apply blind_bind; [| intros ?]]).
Qed.

Lemma blind_csv_exists (name : text) : blind (@csv_exists World name).
Proof.
  intros m0 st1 st2 H. unfold csv_exists. simpl.
  destruct H as (Hw & Ht & Hc & Hv & Hd). rewrite Hc.
  by repeat split; try apply Hd.
Qed.

Lemma blind_to_csv (name : text) (df : DataFrame) :
  blind (to_csv csv_write name df).
Proof.
  intros m0 st1 st2 (Hw & Ht & Hc & Hv & Hd). unfold to_csv. rewrite Hw, Ht.
  destruct (files st1) as [| m1 t1], (files st2) as [| m2 t2];
    try discriminate (proj1 Hd eq_refl); try discriminate (proj2 Hd eq_refl);
    cbn [write_into].
  - simpl. repeat split; auto.
  - simpl in Hc, Hv. subst t2.
    destruct (csv_write name (world st2)) as [[] w1];
      repeat split; auto; simpl; done.
Qed.

Lemma blind_write_local_version (y q v r : Z) :
  blind (_write_local_version marker_write y q v r).
Proof.
  intros m0 st1 st2 (Hw & Ht & Hc & Hv & Hd). unfold _write_local_version.
  rewrite Hw, Ht.
  destruct (files st1) as [| m1 t1], (files st2) as [| m2 t2];
    try discriminate (proj1 Hd eq_refl); try discriminate (proj2 Hd eq_refl);
    cbn [write_into].
  - simpl. repeat split; auto.
  - simpl in Hc, Hv.
    destruct (marker_write (world st2)) as [[] w1]; simpl;
      repeat split; auto; done.
Qed.

Lemma blind_csv_path_of (url : text) : blind (csv_path_of url).
Proof.
  unfold _combined_csv_path.
  apply blind_bind; [apply blind_lift |]. intros name.
  apply blind_bind; [| intros _; apply blind_ret].
  intros m0 st1 st2 (Hw & Ht & Hc & Hv & Hd). unfold out_dir_mkdir.
  destruct (files st1) as [| m1 t1] eqn:H1, (files st2) as [| m2 t2] eqn:H2;
    try discriminate (proj1 Hd eq_refl); try discriminate (proj2 Hd eq_refl).
  - rewrite Hw. destruct (mkdir (world st2)) as [[] w1]; simpl;
      repeat split; auto; done.
  - simpl. unfold alike. rewrite H1, H2. by repeat split.
Qed.

(** A marker from which the run gets no stored release: no file, or a
    text that the pattern of [_read_local_version] does not match. *)
Definition gives_no_release (m : marker_file) : Prop :=
  m = NoFile
  \/ exists txt, m = Content txt /\ match_version_line (strip txt) = None.

Lemma resolve_without_release (base : text) (st : @state World) :
  gives_no_release (version_txt (files st)) ->
  resolve_local_version base st = (release_of_url base, st).
Proof.
  intros [H | (txt & H & Hno)];
    unfold resolve_local_version, bind, _read_local_version;
    rewrite H; [done |]. by rewrite Hno.
Qed.

(** C8 (as amended). When the marker file is absent, or holds a text
    that the pattern of [_read_local_version] does not match, resolving
    the local version reads nothing else, gives the version and quarter
    parsed from the base URL, and the whole run goes exactly as from the
    same disk without the marker: same result, same trace, same world,
    same merged tables, and the same marker at the end unless the run
    wrote none, in which case each disk keeps the marker it had. *)
Theorem marker_without_release_is_as_absent (base : text) (w : World) (d : disk) :
  gives_no_release (version_txt d) ->
  let st0 := {| world := w; files := d; trace := [] |} in
  resolve_local_version base st0 = (release_of_url base, st0)
  /\ fst (run_ base w d) = fst (run_ base w (set_marker NoFile d))
  /\ alike (version_txt d) (snd (run_ base w d))
       (snd (run_ base w (set_marker NoFile d))).
Proof.
  intros Hm st0. split; [by apply resolve_without_release |].
  unfold run, download_or_skip_both_with_version. fold st0.
  set (st0' := {| world := w; files := set_marker NoFile d; trace := [] |}).
  assert (H0 : alike (version_txt d) st0 st0')
    by (subst st0 st0'; destruct d; repeat split; auto; done).
  assert (R1 : resolve_local_version base st0 = (release_of_url base, st0))
    by by apply resolve_without_release.
  assert (R2 : resolve_local_version base st0' = (release_of_url base, st0'))
    by (apply resolve_without_release; left; subst st0'; by destruct d).
  apply blind_bind_at; [by rewrite R1, R2 | by rewrite R1, R2 |].
  intros [[[y q] v] r].
  apply blind_bind; [apply blind_probe |]. intros tgt.
  apply blind_bind; [apply blind_csv_path_of |]. intros csv_path.
  destruct tgt as [[[[[[cy cq] cv] cr] f1] f2] |].
  - repeat (first [apply blind_combine | apply blind_csv_path_of
                  | apply blind_lift | apply blind_ret
                  | apply blind_to_csv | apply blind_write_local_version
                  | apply blind_bind; [| intros ?]]).
  - apply blind_bind; [apply blind_csv_exists |]. intros [|]; [apply blind_ret |].
    destruct (_pair_f1_f2 base) as [f1 f2].
    repeat (first [apply blind_combine | apply blind_lift | apply blind_ret
                  | apply blind_to_csv | apply blind_write_local_version
                  | apply blind_bind; [| intros ?]]).
Qed.

(** An unreadable marker makes the run fail before anything else. *)
Lemma unreadable_marker_raises (base : text) (w : World) (d : disk) :
  version_txt d = Unreadable ->
  run_ base w d = (Raise OSError, {| world := w; files := d; trace := [] |}).
Proof.
  intros H. unfold run, download_or_skip_both_with_version,
    resolve_local_version, bind, _read_local_version. simpl. by rewrite H.
Qed.

End RunFacts.

(** *** Concrete runs

    A server that answers a fixed set of URLs with an archive, an
    archive reader that lists the given members, a text reader that
    yields one small table, a pandas before 3.0, and a file system
    without faults. *)

Definition base_url : text := UrlFacts.cms_url.

Definition an_archive : bytes := [Byte.x50; Byte.x4b; Byte.x03; Byte.x04].

Definition serves (urls : list text) (url : text) (w : unit)
    : option bytes * unit :=
  (if bool_decide (url ∈ urls) then Some an_archive else None, tt).

Definition small_table : DataFrame :=
  {| columns := [lit "Column 1"; lit "Column 2"; lit "Modifier"];
     rows := [[Str (lit "0001A"); Str (lit "0591T"); Str (lit "1")]] |}.

Definition run_on (urls : list text) (members : list (text * option bytes))
    (d : disk) : result (text * text) * @state unit :=
  run (serves urls) (fun _ => true) (fun _ => Some members)
    (fun _ => None) (fun _ => Some small_table) (fun _ => None)
    Pandas2 (fun w => (true, w))
    (fun _ w => (Written, w)) (fun w => (Written, w))
    base_url tt d.

Definition text_member : list (text * option bytes) :=
  [(lit "readme.pdf", Some []); (lit "ccipra-v313r0-f1.TXT", Some [])].


Definition empty_disk : disk := Dir NoFile ∅.

Definition urls_of (c : release) : list text :=
  [fst (candidate_urls base_url c); snd (candidate_urls base_url c)].

(** The two files of the base release and of its first revision. *)
Definition base_files : list text := urls_of (2025, 4, 313, 0).
Definition r1_files : list text := urls_of (2025, 4, 313, 1).

(** The disk after an update to revision 1 from an empty directory. *)
Definition disk_after_update : disk :=
  files (snd (run_on (base_files ++ r1_files) text_member empty_disk)).

(** The disk after a bootstrap from an empty directory. *)
Definition disk_after_bootstrap : disk :=
  files (snd (run_on base_files text_member empty_disk)).

Lemma marker_written_only_after_table_witness :
  exists fs name df,
    firstn 5 (trace (snd (run_on (base_files ++ r1_files) text_member empty_disk)))
    = fs ++ [EvToCsv name Written]
    /\ Forall is_fetch fs /\ @nil event = []
    /\ csv_files disk_after_update !! name = Some (Table df).
Proof.
  apply (proj1 (marker_written_only_after_table
                  (serves (base_files ++ r1_files)) (fun _ => true)
                  (fun _ => Some text_member) (fun _ => None)
                  (fun _ => Some small_table) (fun _ => None)
                  Pandas2 (fun w => (true, w))
                  (fun _ w => (Written, w)) (fun w => (Written, w))
                  base_url tt empty_disk)
           _ (version_line 2025 4 313 1) Written []).
  vm_compute. reflexivity.
Defined.

(** C2 as stated fails: when the file-1 fetch of a candidate fails, its
    file-2 URL is not fetched.  With a server that answers nothing the
    loop makes eight fetches, one per candidate, all of file 1. *)
Lemma probe_skips_file2_after_file1_failure :
  let st0 := {| world := tt; files := empty_disk; trace := [] |} in
  let out := probe (serves []) base_url (candidates 2025 4 313 0) st0 in
  fst out = Ok None
  /\ trace (snd out)
     = map (fun c => EvFetch (fst (candidate_urls base_url c)) false)
         (candidates 2025 4 313 0)
  /\ forallb (fun c => negb (fetched (snd (candidate_urls base_url c))
                               (trace (snd out))))
       (candidates 2025 4 313 0) = true.
Proof. vm_compute. repeat split; reflexivity. Qed.

(** C3 as stated fails after an update: from an empty directory the run
    finds revision 1 and writes its table; on the disk it leaves, a
    re-run with the same server rejects every candidate, finds no file
    for the base release, fetches the two base files and writes again. *)
Lemma rerun_after_update_downloads_again :
  fst (run_on (base_files ++ r1_files) text_member empty_disk)
  = Ok (lit "ccipra-v313r1-f1f2.csv", msg_updated 2025 4 313 1)
  /\ let out := run_on (base_files ++ r1_files) text_member disk_after_update in
     fst (probe (serves (base_files ++ r1_files)) base_url
            (candidates 2025 4 313 1)
            {| world := tt; files := disk_after_update; trace := [] |})
     = Ok None
     /\ fst out = Ok (lit "ccipra-v313r0-f1f2.csv", msg_downloaded 2025 4 313 1)
     /\ fst out <> Ok (lit "ccipra-v313r0-f1f2.csv", msg_up_to_date)
     /\ forallb (fun u => fetched u (trace (snd out))) base_files = true
     /\ csv_files disk_after_update !! lit "ccipra-v313r0-f1f2.csv" = None
     /\ is_Some (csv_files (files (snd out)) !! lit "ccipra-v313r0-f1f2.csv").
Proof.
  split; [vm_compute; reflexivity |].
  split; [vm_compute; reflexivity |].
  split; [vm_compute; reflexivity |].
  split; [vm_compute; discriminate |].
  split; [vm_compute; reflexivity |].
  split; [vm_compute; reflexivity |].
  eexists. vm_compute. reflexivity.
Qed.

Lemma rerun_when_current_is_noop_witness :
  let st0 := {| world := tt; files := disk_after_bootstrap; trace := [] |} in
  let st1 := snd (probe (serves base_files) base_url (candidates 2025 4 313 0) st0) in
  fst (run_on base_files text_member empty_disk)
  = Ok (lit "ccipra-v313r0-f1f2.csv", msg_downloaded 2025 4 313 0)
  /\ run_on base_files text_member disk_after_bootstrap
     = (Ok (lit "ccipra-v313r0-f1f2.csv", msg_up_to_date), st1)
  /\ files st1 = disk_after_bootstrap
  /\ rejected_all base_url (candidates 2025 4 313 0) (trace st1).
Proof.
  intros st0 st1.
  assert (Hprev : fst (run_on base_files text_member empty_disk)
                  = Ok (lit "ccipra-v313r0-f1f2.csv", msg_downloaded 2025 4 313 0))
    by (vm_compute; reflexivity).
  split; [exact Hprev |].
  apply (rerun_when_current_is_noop
           (serves base_files) (fun _ => true)
           (fun _ => Some text_member) (fun _ => None)
           (fun _ => Some small_table) (fun _ => None)
           Pandas2 (fun w => (true, w))
           (fun _ w => (Written, w)) (fun w => (Written, w))
           base_url tt empty_disk _ _ tt 2025 4 313 0 st1 Hprev).
  - vm_compute; reflexivity.
  - vm_compute; reflexivity.
  - vm_compute; reflexivity.
Defined.

Definition disk_with_marker (m : marker_file) : disk :=
  Dir m (csv_files disk_after_bootstrap).

(** C8 as stated fails for an unreadable marker: the run raises at once,
    while the same run without the marker reports "Up to date". *)
Lemma unreadable_marker_fails_the_run :
  fst (run_on base_files text_member (disk_with_marker Unreadable))
  = Raise OSError
  /\ fst (run_on base_files text_member (disk_with_marker NoFile))
     = Ok (lit "ccipra-v313r0-f1f2.csv", msg_up_to_date).
Proof. split; vm_compute; reflexivity. Qed.

Lemma marker_without_release_is_as_absent_witness :
  let d := disk_with_marker (Content (lit "version 313, revision 0")) in
  gives_no_release (version_txt d)
  /\ fst (run_on base_files text_member d)
     = fst (run_on base_files text_member (set_marker NoFile d))
  /\ fst (run_on base_files text_member d)
     = Ok (lit "ccipra-v313r0-f1f2.csv", msg_up_to_date).
Proof.
  intros d.
  assert (H : gives_no_release (version_txt d)).
  { right. eexists. split; [reflexivity | vm_compute; reflexivity]. }
  split; [exact H |].
  split; [| vm_compute; reflexivity].
  apply (marker_without_release_is_as_absent
           (serves base_files) (fun _ => true)
           (fun _ => Some text_member) (fun _ => None)
           (fun _ => Some small_table) (fun _ => None)
           Pandas2 (fun w => (true, w))
           (fun _ w => (Written, w)) (fun w => (Written, w))
           base_url tt d H).
Defined.



End SyncFacts.
(** ** The edit-pair table is symmetric *)
Module CciFacts.
Import Text Cci.

Definition symmetric (table : gmap (text * text) text) : Prop :=
  forall a b : text, table !! (a, b) = table !! (b, a).

Lemma symmetric_empty : symmetric ∅.
Proof. intros a b. by rewrite !lookup_empty. Qed.

Lemma symmetric_insert_pair (table : gmap (text * text) text) (c1 c2 m : text) :
  symmetric table ->
  symmetric (<[(c2, c1) := m]> (<[(c1, c2) := m]> table)).
Proof.
  intros Hsym a b.
  destruct (decide ((a, b) = (c2, c1))) as [E1 | N1].
  - inversion E1; subst. rewrite lookup_insert_eq.
    destruct (decide ((c1, c2) = (c2, c1))) as [E2 | N2].
    + rewrite E2. by rewrite lookup_insert_eq.
    + rewrite lookup_insert_ne by congruence. by rewrite lookup_insert_eq.
  - rewrite lookup_insert_ne by congruence.
    destruct (decide ((a, b) = (c1, c2))) as [E3 | N3].
    + inversion E3; subst. by rewrite !lookup_insert_eq.
    + rewrite lookup_insert_ne by congruence.
      rewrite lookup_insert_ne by congruence.
      rewrite lookup_insert_ne by congruence.
      apply Hsym.
Qed.

Lemma add_row_symmetric (table : gmap (text * text) text) (row : gmap text text) :
  symmetric table -> symmetric (add_row table row).
Proof.
  intros Hsym. unfold add_row.
  destruct (first_nonempty row _) as [|x1 c1]; [exact Hsym |].
  destruct (first_nonempty row _) as [|x2 c2]; [exact Hsym |].
  by apply symmetric_insert_pair.
Qed.

Lemma load_rows_symmetric (rows : list raw_row) :
  forall table table',
    symmetric table -> load_rows rows table = Ok table' -> symmetric table'.
Proof.
  induction rows as [|raw rows IH]; intros table table' Hsym Hload; simpl in Hload.
  - by inversion Hload; subst.
  - destruct (normalise_row raw ∅) as [row | e]; [| discriminate].
    eapply IH; [| exact Hload]. by apply add_row_symmetric.
Qed.

(** C10. Whatever the CSV holds, in a table returned by
    [load_cci_table] a key [(c1, c2)] that is present comes with the
    reversed key [(c2, c1)], mapped to the same modifier. *)
Theorem load_cci_table_symmetric (file : option (list raw_row))
    (table : gmap (text * text) text) (c1 c2 m : text) :
  load_cci_table file = Ok table ->
  table !! (c1, c2) = Some m ->
  table !! (c2, c1) = Some m.
Proof.
  intros Hload Hkey.
  assert (Hsym : symmetric table).
  { destruct file as [rows |]; simpl in Hload.
    - eapply load_rows_symmetric; [apply symmetric_empty | exact Hload].
    - inversion Hload; subst. apply symmetric_empty. }
  by rewrite <- Hsym.
Qed.

Definition sample_rows : list raw_row :=
  [ [(Some (lit "Column 1"), Field (lit "0001A"));
     (Some (lit "Column 2"), Field (lit " 0591T "));
     (Some (lit "Modifier"), Field (lit "1"))];
    [(Some (lit "Column 1"), Field (lit "0591T"));
     (Some (lit "Column 2"), Field (lit "0001A"));
     (Some (lit "Modifier"), Field (lit "0"))];
    [(Some (lit "Column 1"), Field (lit "0002A"));
     (Some (lit "Column 2"), Missing);
     (Some (lit "Modifier"), Field (lit "9"))] ].

Definition sample_table : gmap (text * text) text :=
  <[(lit "0001A", lit "0591T") := lit "0"]>
    (<[(lit "0591T", lit "0001A") := lit "0"]> ∅).

Lemma load_cci_table_symmetric_witness :
  load_cci_table (Some sample_rows) = Ok sample_table
  /\ sample_table !! (lit "0591T", lit "0001A") = Some (lit "0").
Proof.
  assert (H : load_cci_table (Some sample_rows) = Ok sample_table)
    by (vm_compute; reflexivity).
  split; [exact H |].
  apply (load_cci_table_symmetric (Some sample_rows) sample_table
           (lit "0001A") (lit "0591T") (lit "0") H).
  vm_compute; reflexivity.
Defined.

End CciFacts.

(** ** [str.strip] *)
Module StripFacts.
Import Text TextFacts.

#[local] Arguments is_space : simpl never.

Definition head_not_space (s : text) : Prop :=
  match s with
  | [] => True
  | c :: _ => is_space c = false
  end.

Lemma lstrip_head (s : text) : head_not_space (lstrip s).
Proof.
  induction s as [|c s IH]; [done |]. cbn [lstrip].
  destruct (is_space c) eqn:E; [done | cbn; done].
Qed.

Lemma lstrip_fixed (s : text) : head_not_space s -> lstrip s = s.
Proof. destruct s as [|c s]; [done |]. cbn. by intros ->. Qed.

Lemma lstrip_suffix (s : text) : exists ws, s = ws ++ lstrip s.
Proof.
  induction s as [|c s [ws IH]]; [by exists [] |]. cbn [lstrip].
  destruct (is_space c); [| by exists []].
  exists (c :: ws). cbn [app]. by rewrite <- IH.
Qed.

Lemma head_of_rev_suffix (t ws u : text) :
  head_not_space t -> rev t = ws ++ u -> head_not_space (rev u).
Proof.
  intros Ht E. apply (f_equal (@rev ascii)) in E.
  rewrite rev_involutive, rev_app_distr in E. subst t.
  destruct (rev u) as [|c r]; [done | exact Ht].
Qed.

Lemma strip_idempotent (s : text) : strip (strip s) = strip s.
Proof.
  unfold strip.
  set (t := lstrip s). set (u := lstrip (rev t)).
  assert (Hu : head_not_space (rev u)).
  { destruct (lstrip_suffix (rev t)) as [ws E].
    eapply head_of_rev_suffix; [apply (lstrip_head s) | exact E]. }
  rewrite (lstrip_fixed (rev u) Hu), rev_involutive.
  by rewrite (lstrip_fixed u (lstrip_head (rev t))).
Qed.

Definition all_space (s : text) : Prop := forallb is_space s = true.

Lemma lstrip_spaces (ws s : text) : all_space ws -> lstrip (ws ++ s) = lstrip s.
Proof.
  unfold all_space. induction ws as [|c ws IH]; [done |].
  cbn [forallb app lstrip]. intros H. apply andb_prop in H as [-> H].
  by apply IH.
Qed.

Lemma lstrip_length (s : text) : (length (lstrip s) <= length s)%nat.
Proof.
  destruct (lstrip_suffix s) as [ws E]. rewrite E at 2.
  rewrite length_app. lia.
Qed.

(** A string that [strip] leaves alone neither starts nor ends with
    white space. *)
Lemma strip_fixed_ends (c : text) :
  strip c = c -> head_not_space c /\ head_not_space (rev c).
Proof.
  unfold strip. set (t := lstrip c). set (u := lstrip (rev t)). intros E.
  assert (Hu : rev c = u) by (rewrite <- E; apply rev_involutive).
  split; [| rewrite Hu; apply lstrip_head].
  assert (Hlen : length t = length c).
  { pose proof (lstrip_length c) as H1. pose proof (lstrip_length (rev t)) as H2.
    fold t in H1. fold u in H2. rewrite <- Hu, !length_rev in H2. lia. }
  destruct (lstrip_suffix c) as [ws Hws]. fold t in Hws.
  assert (ws = []) as ->.
  { apply (f_equal (@length ascii)) in Hws. rewrite length_app in Hws.
    destruct ws; [done | cbn [length] in Hws; lia]. }
  cbn [app] in Hws. rewrite Hws. apply lstrip_head.
Qed.

Lemma strip_of_ends (c : text) :
  head_not_space c -> head_not_space (rev c) -> strip c = c.
Proof.
  intros H1 H2. unfold strip.
  by rewrite (lstrip_fixed c H1), (lstrip_fixed (rev c) H2), rev_involutive.
Qed.

(** White space around a stripped, non-empty string is what [strip]
    removes. *)
Lemma strip_padded (a b c : text) :
  all_space a -> all_space b -> c <> [] -> strip c = c ->
  strip (b ++ c ++ a) = c.
Proof.
  intros Ha Hb Hne Hc. apply strip_fixed_ends in Hc as [H1 H2].
  unfold strip. rewrite (lstrip_spaces b _ Hb).
  assert (E1 : lstrip (c ++ a) = c ++ a).
  { apply lstrip_fixed. destruct c; [done | exact H1]. }
  rewrite E1, rev_app_distr.
  assert (Ha' : all_space (rev a)).
  { unfold all_space in *. rewrite forallb_forall in *. intros x Hx.
    apply Ha. by apply in_rev. }
  rewrite (lstrip_spaces (rev a) _ Ha'), (lstrip_fixed _ H2).
  apply rev_involutive.
Qed.

(** What [strip] returns is a stretch of its argument. *)
Lemma strip_stretch (s : text) : exists a b, s = a ++ strip s ++ b.
Proof.
  unfold strip. destruct (lstrip_suffix s) as [a Ha].
  destruct (lstrip_suffix (rev (lstrip s))) as [b Hb].
  exists a, (rev b). rewrite <- rev_app_distr, <- Hb, rev_involutive.
  exact Ha.
Qed.

End StripFacts.

(** ** Release identifiers: ranges, the next quarter, the marker *)
Module ReleaseFacts.
Import Text Url Version Candidates Sync TextFacts UrlFacts.

#[local] Arguments is_digit : simpl never.
#[local] Arguments eq_ci : simpl never.
#[local] Arguments is_space : simpl never.
#[local] Arguments span : simpl never.

Lemma digit_val_range (c : ascii) : is_digit c = true -> 0 <= digit_val c <= 9.
Proof.
  destruct c as [[] [] [] [] [] [] [] []]; vm_compute;
    first [discriminate | intros _; split; discriminate].
Qed.

Lemma quarter_digit_range (c : ascii) :
  is_quarter_digit c = true -> 1 <= digit_val c <= 4.
Proof.
  destruct c as [[] [] [] [] [] [] [] []]; vm_compute;
    first [discriminate | intros _; split; discriminate].
Qed.

Lemma int_from_nonneg (ds : text) :
  forall a, 0 <= a -> forallb is_digit ds = true -> a <= int_from a ds.
Proof.
  induction ds as [|c ds IH]; intros a Ha Hds; [unfold int_from; simpl; lia |].
  cbn [forallb] in Hds. apply andb_prop in Hds as [Hc Hds].
  pose proof (digit_val_range c Hc).
  change (int_from a (c :: ds)) with (int_from (10 * a + digit_val c) ds).
  specialize (IH (10 * a + digit_val c) ltac:(lia) Hds). lia.
Qed.

(** What the two parsers return lies in the ranges of the token
    formats: a version from 0 to 999 with a revision that is not
    negative, a year from 2000 to 2099 with a quarter from 1 to 4. *)
Theorem parsed_fields_in_range (u : text) :
  (forall v r, _parse_vr u = Ok (v, r) -> 0 <= v <= 999 /\ 0 <= r)
  /\ (forall y q, _parse_quarter u = Ok (y, q) ->
        2000 <= y <= 2099 /\ 1 <= q <= 4).
Proof.
  split.
  - intros v r. unfold _parse_vr.
    destruct (search match_vr true u) as [[p m] |] eqn:Hs; [| discriminate].
    destruct (search_found _ _ _ _ _ Hs) as (t & _ & Hm & _).
    intros [= <- <-].
    assert (Hbody : exists lead s, match_vr_body lead s = Some m).
    { destruct (match_vr_some _ _ _ Hm) as [[_ H] | (c0 & s' & _ & _ & H)];
        eauto. }
    destruct Hbody as (lead & s & Hbody). revert Hbody. unfold match_vr_body.
    destruct s as [|cv [|d1 [|d2 [|d3 [|cr s1]]]]]; try discriminate.
    destruct (eq_ci cv "v" && is_digit d1 && is_digit d2 && is_digit d3
              && eq_ci cr "r") eqn:Hcond; [| discriminate].
    apply andb_prop in Hcond as [Hcond _].
    apply andb_prop in Hcond as [Hcond H3].
    apply andb_prop in Hcond as [Hcond H2].
    apply andb_prop in Hcond as [_ H1].
    destruct (span is_digit s1) as [rs s2] eqn:Hsp.
    destruct (span_spec _ _ _ _ Hsp) as [_ Hrs].
    assert (Hgroups : groups m = ([d1; d2; d3], rs) -> 
              0 <= int_of_digits (fst (groups m)) <= 999
              /\ 0 <= int_of_digits (snd (groups m))).
    { intros ->. cbn [fst snd]. split.
      - pose proof (digit_val_range d1 H1). pose proof (digit_val_range d2 H2).
        pose proof (digit_val_range d3 H3).
        unfold int_of_digits, int_from. cbn [fold_left]. lia.
      - apply (int_from_nonneg rs 0); [lia | done]. }
    destruct rs as [|r0 rs]; [discriminate |].
    destruct s2 as [|c s3].
    + intros [= <-]. by apply Hgroups.
    + destruct (is_delim c); [intros [= <-]; by apply Hgroups |].
      destruct (at_dollar (c :: s3)); [| discriminate].
      intros [= <-]. by apply Hgroups.
  - intros y q. unfold _parse_quarter.
    destruct (search match_qtr true u) as [[p m] |] eqn:Hs; [| discriminate].
    destruct (search_found _ _ _ _ _ Hs) as (t & _ & Hm & _).
    intros [= <- <-]. revert Hm. unfold match_qtr.
    destruct t as [|c2 [|c0 [|d1 [|d2 [|cq [|qd s']]]]]]; try discriminate.
    destruct (Ascii.eqb_spec c2 "2"); [| discriminate].
    destruct (Ascii.eqb_spec c0 "0"); [| discriminate].
    destruct (is_digit d1) eqn:H1; [| discriminate].
    destruct (is_digit d2) eqn:H2; [| discriminate].
    destruct (eq_ci cq "q"); [| discriminate].
    destruct (is_quarter_digit qd) eqn:Hq; [| discriminate].
    intros [= <-]. subst. cbn [groups fst snd].
    pose proof (digit_val_range d1 H1). pose proof (digit_val_range d2 H2).
    pose proof (quarter_digit_range qd Hq).
    unfold int_of_digits, int_from. cbn [fold_left].
    change (digit_val "2") with 2. change (digit_val "0") with 0. lia.
Qed.

(** From a quarter in 1..4 [_next_quarter] goes to the quarter that
    follows in the calendar: the result is again in 1..4 and the count
    of quarters [4 * year + quarter] grows by exactly one, so that four
    steps lead to the same quarter of the next year. *)
Theorem next_quarter_is_successor (y q : Z) :
  1 <= q <= 4 ->
  let '(y', q') := _next_quarter y q in
  1 <= q' <= 4 /\ 4 * y' + q' = 4 * y + q + 1
  /\ (let '(y1, q1) := _next_quarter y' q' in
      let '(y2, q2) := _next_quarter y1 q1 in
      _next_quarter y2 q2 = (y + 1, q)).
Proof.
  intros Hq.
  assert (E : q = 1 \/ q = 2 \/ q = 3 \/ q = 4) by lia.
  destruct E as [-> | [-> | [-> | ->]]]; unfold _next_quarter; cbn -[Z.add Z.mul];
    (split; [lia |]); (split; [lia |]); f_equal; lia.
Qed.

Lemma next_quarter_is_successor_witness :
  let '(y', q') := _next_quarter 2025 4 in
  1 <= q' <= 4 /\ 4 * y' + q' = 4 * 2025 + 4 + 1
  /\ (let '(y1, q1) := _next_quarter y' q' in
      let '(y2, q2) := _next_quarter y1 q1 in
      _next_quarter y2 q2 = (2025 + 1, 4)).
Proof. apply (next_quarter_is_successor 2025 4). lia. Defined.

(** [{y}] for a year of four digits. *)
Definition four_digits_of (y : Z) (ds : text) : bool :=
  match ds with
  | [a; b; c; d] =>
      is_digit a && is_digit b && is_digit c && is_digit d
      && (int_of_digits [a; b; c; d] =? y)
  | _ => false
  end.

Lemma str_int_four_digits_table :
  forallb (fun y => four_digits_of y (str_int y)) (range 1000 10000) = true.
Proof. vm_compute. reflexivity. Qed.

Lemma str_int_four_digits (y : Z) :
  1000 <= y <= 9999 ->
  exists a b c d,
    str_int y = [a; b; c; d]
    /\ is_digit a = true /\ is_digit b = true /\ is_digit c = true
    /\ is_digit d = true /\ int_of_digits [a; b; c; d] = y.
Proof.
  intros H. pose proof str_int_four_digits_table as T.
  rewrite forallb_forall in T.
  specialize (T y (in_range 1000 10000 y ltac:(lia))).
  unfold four_digits_of in T.
  destruct (str_int y) as [|a [|b [|c [|d [|]]]]]; try discriminate.
  apply andb_prop in T as [T Hy]. apply andb_prop in T as [T Hd].
  apply andb_prop in T as [T Hc]. apply andb_prop in T as [Ha Hb].
  exists a, b, c, d. repeat split; try done. by apply Z.eqb_eq.
Qed.

Lemma str_int_one_digit (q : Z) :
  0 <= q <= 9 ->
  exists c, str_int q = [c] /\ is_digit c = true /\ int_of_digits [c] = q.
Proof.
  intros H.
  assert (E : q = 0 \/ q = 1 \/ q = 2 \/ q = 3 \/ q = 4 \/ q = 5 \/ q = 6
              \/ q = 7 \/ q = 8 \/ q = 9) by lia.
  repeat (destruct E as [-> | E]; [eexists; repeat split; reflexivity |]).
  subst. eexists; repeat split; reflexivity.
Qed.

Lemma digit_not_space (c : ascii) : is_digit c = true -> is_space c = false.
Proof. each_char c. Qed.

Lemma lstrip_keeps (c : ascii) (s : text) :
  is_space c = false -> lstrip (c :: s) = c :: s.
Proof. intros H. cbn [lstrip]. by rewrite H. Qed.

(** [strip] on a line that starts and ends with a digit and is followed
    by a line feed. *)
Lemma strip_line (c : ascii) (s : text) (d : ascii) :
  is_digit c = true -> is_digit d = true ->
  strip (c :: s ++ [d; LF]) = c :: s ++ [d].
Proof.
  intros Hc Hd. unfold strip.
  rewrite (lstrip_keeps c _ (digit_not_space c Hc)).
  assert (E : rev (c :: s ++ [d; LF]) = LF :: d :: rev (c :: s)).
  { change (c :: s ++ [d; LF]) with ((c :: s) ++ [d; LF]).
    by rewrite rev_app_distr. }
  rewrite E.
  assert (El : lstrip (LF :: d :: rev (c :: s)) = lstrip (d :: rev (c :: s)))
    by reflexivity.
  rewrite El, (lstrip_keeps d _ (digit_not_space d Hd)).
  change (rev (d :: rev (c :: s))) with (rev (rev (c :: s)) ++ [d]).
  by rewrite rev_involutive.
Qed.

(** The pattern of [_read_local_version] reads the text that
    [_write_local_version] writes. *)
Lemma version_line_read_back (y q v r : Z) :
  1000 <= y <= 9999 -> 0 <= q <= 9 -> 0 <= v <= 999 -> 0 <= r ->
  match_version_line (strip (version_line y q v r)) = Some (y, q, v, r).
Proof.
  intros Hy Hq Hv Hr.
  destruct (str_int_four_digits y Hy)
    as (y1 & y2 & y3 & y4 & Ey & Hy1 & Hy2 & Hy3 & Hy4 & Hyear).
  destruct (str_int_one_digit q Hq) as (qd & Eq & Hqd & Hquarter).
  destruct (fmt_03d_spec v Hv) as (a & b & c & Ev & Ha & Hb & Hc & Hver).
  destruct (dec_spec r Hr) as (Hne & Hdigits & Hrev).
  destruct (exists_last Hne) as (rs & dl & Er).
  assert (Hdl : is_digit dl = true).
  { rewrite Er, forallb_snoc in Hdigits. by apply andb_prop in Hdigits as [_ ?]. }
  unfold version_line, release_text.
  rewrite Ey, Eq, Ev, (str_int_nonneg r Hr), Er.
  cbn [lit list_ascii_of_string app].
  assert (Eline : y1 :: y2 :: y3 :: y4 :: "q"%char :: qd :: " "%char :: "v"%char
                     :: a :: b :: c :: "r"%char :: (rs ++ [dl]) ++ [LF]
                  = y1 :: ([y2; y3; y4; "q"; qd; " "; "v"; a; b; c; "r"]%char ++ rs)
                       ++ [dl; LF])
    by (cbn [app]; by rewrite <- !app_assoc).
  rewrite Eline, (strip_line y1 _ dl Hy1 Hdl). cbn [app].
  unfold match_version_line. rewrite Hy1, Hy2, Hy3, Hy4, Hqd.
  change (Ascii.eqb "q" "q") with true. cbn [andb].
  change (span is_space (" "%char :: "v"%char :: a :: b :: c :: "r"%char :: rs ++ [dl]))
    with (let '(ws, s2) := span is_space ("v"%char :: a :: b :: c :: "r"%char :: rs ++ [dl])
          in (" "%char :: ws, s2)).
  change (span is_space ("v"%char :: a :: b :: c :: "r"%char :: rs ++ [dl]))
    with (@nil ascii, "v"%char :: a :: b :: c :: "r"%char :: rs ++ [dl]).
  cbn iota beta. rewrite Ha, Hb, Hc.
  change (Ascii.eqb "v" "v") with true. change (Ascii.eqb "r" "r") with true.
  cbn [andb]. rewrite <- Er, (span_all is_digit (dec r) Hdigits).
  destruct (dec r) as [|r0 rest]; [done |].
  by rewrite Hyear, Hquarter, Hver, Hrev.
Qed.

Section Marker.

Context {World : Type}.
Variable marker_write : World -> write_outcome * World.

(** A marker that [_write_local_version] has written is read back
    by [_read_local_version] as the release that was written, for a
    year of four digits, a quarter of one digit, a version of at most
    three digits and a revision that is not negative. *)
Theorem written_marker_is_read_back (y q v r : Z) (st st' : @state World) :
  1000 <= y <= 9999 -> 0 <= q <= 9 -> 0 <= v <= 999 -> 0 <= r ->
  _write_local_version marker_write y q v r st = (Ok tt, st') ->
  _read_local_version st' = (Ok (Some (y, q, v, r)), st').
Proof.
  intros Hy Hq Hv Hr. unfold _write_local_version.
  destruct (files st) as [| m t] eqn:Hd; [discriminate |]. cbn [write_into].
  destruct (marker_write (world st)) as [[] w]; try discriminate.
  intros [= <-]. unfold _read_local_version. cbn [files log version_txt set_marker].
  by rewrite version_line_read_back.
Qed.

End Marker.

Lemma written_marker_is_read_back_witness :
  let st := {| world := tt; files := SyncFacts.empty_disk; trace := [] |} in
  let st' := snd (_write_local_version (fun w => (Written, w)) 2026 1 314 0 st) in
  _write_local_version (fun w => (Written, w)) 2026 1 314 0 st = (Ok tt, st')
  /\ _read_local_version st' = (Ok (Some (2026, 1, 314, 0)), st').
Proof.
  intros st st'.
  assert (H : _write_local_version (fun w => (Written, w)) 2026 1 314 0 st
              = (Ok tt, st')) by reflexivity.
  split; [exact H |].
  apply (written_marker_is_read_back (fun w => (Written, w)) 2026 1 314 0 st st');
    [lia | lia | lia | lia | exact H].
Defined.

(** A version of four digits is written but not read back: the marker
    is then taken for absent. *)
Lemma four_digit_version_marker_is_not_read :
  match_version_line (strip (version_line 2026 1 1000 0)) = None.
Proof. vm_compute. reflexivity. Qed.

End ReleaseFacts.

(** ** The name of the merged table *)
Module PathFacts.
Import Text Url TextFacts UrlFacts.

#[local] Arguments span : simpl never.
#[local] Arguments at_dollar : simpl never.

Definition not_slash (c : ascii) : bool := negb (Ascii.eqb c "/").

Definition slash_free (s : text) : Prop := forallb not_slash s = true.

Lemma slash_free_app (a b : text) :
  slash_free (a ++ b) <-> slash_free a /\ slash_free b.
Proof. unfold slash_free. rewrite forallb_app. apply andb_true_iff. Qed.

Lemma slash_free_rev (a : text) : slash_free (rev a) <-> slash_free a.
Proof.
  induction a as [|c a IH]; [done |]. cbn [rev].
  rewrite slash_free_app, IH. unfold slash_free. cbn [forallb].
  rewrite andb_true_r, andb_true_iff. tauto.
Qed.

Lemma basename_slash_free (p : text) : slash_free (basename p).
Proof.
  unfold basename.
  destruct (span (fun c => negb (Ascii.eqb c "/")) (rev p)) as [a b] eqn:E.
  destruct (span_spec _ _ _ _ E) as [_ Ha]. by apply slash_free_rev.
Qed.

Lemma splitext_root_slash_free (p : text) :
  slash_free p -> slash_free (splitext_root p).
Proof.
  intros Hp. unfold splitext_root.
  destruct (span (fun c => negb (Ascii.eqb c ".")) (rev p)) as [e r] eqn:E.
  destruct r as [|dot root]; [done |].
  destruct (existsb (Ascii.eqb "/") e); [done |].
  destruct (existsb _ _); [| done].
  destruct (span_spec _ _ _ _ E) as [Hrev _].
  apply slash_free_rev in Hp. rewrite Hrev in Hp.
  apply slash_free_app in Hp as [_ Hp].
  apply slash_free_rev. unfold slash_free in *. cbn [forallb] in Hp.
  by apply andb_prop in Hp as [_ ?].
Qed.

Lemma match_f_end_some (b : bool) (s : text) (m : rmatch unit) :
  match_f_end b s = Some m -> s = group0 m ++ after m.
Proof.
  unfold match_f_end. destruct s as [|ch [|cf [|n s']]]; try discriminate.
  match goal with |- (if ?cond then _ else _) = _ -> _ => destruct cond end;
    [| discriminate].
  by intros [= <-].
Qed.

Lemma strip_f_slash_free (stem : text) :
  slash_free stem -> slash_free (sub_first match_f_end (fun _ => []) stem).
Proof.
  intros H. unfold sub_first.
  destruct (search match_f_end true stem) as [[p m] |] eqn:Hs; [| done].
  destruct (search_found _ _ _ _ _ Hs) as (t & -> & Hm & _).
  rewrite (match_f_end_some _ _ _ Hm) in H.
  apply slash_free_app in H as [Hp H]. apply slash_free_app in H as [_ Ha].
  apply slash_free_app. split; [done |]. by apply slash_free_app.
Qed.

Lemma ccipra_tail_slash_free (stem p : text) (m : rmatch text) :
  slash_free stem -> search match_ccipra_tail true stem = Some (p, m) ->
  slash_free (groups m).
Proof.
  intros H Hs.
  destruct (search_found _ _ _ _ _ Hs) as (t & -> & Hm & _).
  apply slash_free_app in H as [_ Ht].
  revert Hm. unfold match_ccipra_tail.
  destruct (starts_with_ci (lit "ccipra-") t); [| discriminate].
  destruct (skipn 7 t); [discriminate |].
  destruct (forallb _ _); [| discriminate].
  by intros [= <-].
Qed.

(** A name of the merged table ends in [-f1f2.csv], holds no slash and
    is not [version.txt]. *)
Definition safe_name (name : text) : Prop :=
  (exists final, name = final ++ lit "-f1f2.csv")
  /\ slash_free name
  /\ name <> lit "version.txt".

Lemma csv_name_is_safe (u name : text) :
  combined_csv_name u = Ok name -> safe_name name.
Proof.
  unfold combined_csv_name.
  destruct (search match_file_param true u) as [[p m] |]; [| discriminate].
  set (stem := sub_first match_f_end (fun _ => [])
                 (splitext_root (basename (groups m)))).
  assert (Hstem : slash_free stem).
  { apply strip_f_slash_free, splitext_root_slash_free, basename_slash_free. }
  set (final := match search match_ccipra_tail true stem with
                | Some (_, tail) => groups tail
                | None => stem
                end).
  assert (Hfinal : slash_free final).
  { unfold final.
    destruct (search match_ccipra_tail true stem) as [[p' tail] |] eqn:Ht;
      [by eapply ccipra_tail_slash_free | done]. }
  intros [= <-]. split; [by exists final |]. split.
  - apply slash_free_app. split; [done | reflexivity].
  - intros E. apply (f_equal (@rev ascii)) in E.
    rewrite rev_app_distr in E. discriminate E.
Qed.

(** The name cannot be worked out exactly when the URL has no [file=]
    followed by a character other than [&]: [.group] on [None]. *)
Lemma csv_name_raises (u : text) (e : exn) :
  combined_csv_name u = Raise e
  <-> e = AttributeError /\ search match_file_param true u = None.
Proof.
  unfold combined_csv_name.
  destruct (search match_file_param true u) as [[p m] |].
  - split; [discriminate | by intros [_ ?]].
  - split; [by intros [= <-] | by intros [-> _]].
Qed.

End PathFacts.

(** ** The URLs of the default template *)
Module DefaultUrlFacts.
Import Text Url Version Candidates Sync TextFacts UrlFacts PathFacts.

#[local] Arguments is_digit : simpl never.
#[local] Arguments eq_ci : simpl never.
#[local] Arguments is_delim : simpl never.
#[local] Arguments is_quarter_digit : simpl never.
#[local] Arguments is_12 : simpl never.
#[local] Arguments at_dollar : simpl never.
#[local] Arguments span : simpl never.

(** *** Searching past text where the pattern cannot match *)

Section Skip.

Context {G : Type}.
Variable match_at : bool -> text -> option (rmatch G).

(** The pattern matches at no position of [p] in the subject [p ++ t]. *)
Fixpoint passes (bos : bool) (p t : text) : Prop :=
  match p with
  | [] => True
  | c :: p' => match_at bos (c :: p' ++ t) = None /\ passes false p' t
  end.

Lemma search_past (p : text) :
  forall bos t m,
    passes bos p t ->
    match_at (bos && is_nil p) t = Some m ->
    search match_at bos (p ++ t) = Some (p, m).
Proof.
  induction p as [|c p IH]; intros bos t m Hp Hm.
  - cbn [is_nil app] in *. rewrite andb_true_r in Hm.
    destruct t; cbn [search]; by rewrite Hm.
  - destruct Hp as [Hc Hp]. cbn [is_nil app] in *.
    rewrite andb_false_r in Hm. cbn [search]. rewrite Hc.
    by rewrite (IH false t m Hp Hm).
Qed.

Lemma passes_app (p p' : text) :
  forall bos t,
    passes bos p (p' ++ t) -> passes (bos && is_nil p) p' t ->
    passes bos (p ++ p') t.
Proof.
  induction p as [|c p IH]; intros bos t Hp Hp'.
  - cbn [is_nil app] in *. by rewrite andb_true_r in Hp'.
  - destruct Hp as [Hc Hp]. cbn [is_nil app passes] in *.
    rewrite andb_false_r in Hp'. rewrite <- app_assoc.
    split; [exact Hc |]. by apply IH.
Qed.

Lemma passes_inert (p : text) :
  forall bos t,
    Forall (fun x => forall b s, match_at b (x :: s) = None) p ->
    passes bos p t.
Proof.
  induction p as [|c p IH]; intros bos t Hp; [done |].
  inversion Hp as [| ? ? Hc Hp']; subst. split; [apply Hc | by apply IH].
Qed.

End Skip.

(** *** Characters of the fields *)

Lemma digit_is_not_hyphen (c : ascii) : is_digit c = true -> Ascii.eqb c "-" = false.
Proof. each_char c. Qed.

Lemma digit_is_not_f (c : ascii) : is_digit c = true -> Ascii.eqb c "f" = false.
Proof. each_char c. Qed.

Lemma digit_is_not_c (c : ascii) : is_digit c = true -> eq_ci "c" c = false.
Proof. each_char c. Qed.

Lemma digit_is_not_amp (c : ascii) : is_digit c = true -> Ascii.eqb c "&" = false.
Proof. each_char c. Qed.

Lemma digit_is_not_slash (c : ascii) : is_digit c = true -> Ascii.eqb c "/" = false.
Proof. each_char c. Qed.

Lemma digit_is_not_backslash (c : ascii) :
  is_digit c = true -> Ascii.eqb c BACKSLASH = false.
Proof. each_char c. Qed.

Lemma digit_is_not_dot (c : ascii) : is_digit c = true -> Ascii.eqb c "." = false.
Proof. each_char c. Qed.

Lemma quarter_digit_is_digit (c : ascii) :
  is_quarter_digit c = true -> is_digit c = true.
Proof. each_char c. Qed.

Lemma one_or_two_is_digit (c : ascii) : is_12 c = true -> is_digit c = true.
Proof. each_char c. Qed.

(** *** [basename] and [splitext] on a file name with a directory *)

Lemma basename_of_dir (dir name : text) :
  slash_free name -> basename (dir ++ "/"%char :: name) = name.
Proof.
  intros Hname. unfold basename.
  rewrite rev_app_distr. cbn [rev]. rewrite <- app_assoc. cbn [app].
  rewrite (span_run _ (rev name) ("/"%char :: rev dir));
    [apply rev_involutive | | reflexivity].
  by apply slash_free_rev.
Qed.

Lemma splitext_zip (stem : text) (x : ascii) :
  Ascii.eqb x "/" = false -> Ascii.eqb x "." = false ->
  splitext_root ((stem ++ [x]) ++ lit ".zip") = stem ++ [x].
Proof.
  intros Hs Hd. unfold splitext_root.
  rewrite rev_app_distr.
  change (rev (lit ".zip")) with (lit "piz" ++ "."%char :: []).
  rewrite <- app_assoc. cbn [app].
  rewrite (span_run _ (lit "piz") ("."%char :: rev (stem ++ [x])));
    [| reflexivity ..].
  change (existsb (Ascii.eqb "/") (lit "piz")) with false. cbv iota.
  rewrite rev_app_distr. cbn [rev app].
  unfold span at 1. rewrite Hs. cbn [negb]. fold span.
  destruct (span _ (rev stem)) as [u w]. cbn [fst existsb].
  rewrite Hd. cbn [negb orb rev]. by rewrite rev_involutive.
Qed.

Lemma forallb_of_digits (f : ascii -> bool) (ds : text) :
  (forall x, is_digit x = true -> f x = true) ->
  forallb is_digit ds = true -> forallb f ds = true.
Proof.
  intros Hf Hds. rewrite forallb_forall in *. intros x Hx. by apply Hf, Hds.
Qed.

Lemma forallb_not_char (ch : ascii) (ds : text) :
  (forall x, is_digit x = true -> Ascii.eqb x ch = false) ->
  forallb is_digit ds = true ->
  forallb (fun x => negb (Ascii.eqb x ch)) ds = true.
Proof.
  intros Hch. apply forallb_of_digits. intros x Hx. by rewrite (Hch x Hx).
Qed.

(** *** The template *)

Definition site : text := lit "https://www.cms.gov/license/ama?".
Definition before_quarter : text := lit "file=/files/zip/medicare-ncci-".
Definition before_version : text := lit "-practitioner-ptp-edits-ccipra".

(** The URL of file [n] of a release, from the digits of its fields:
    year [20cd], quarter [qc], version [abe], revision [rs]. *)
Definition url_of_digits (c d qc a b e : ascii) (rs : text) (n : ascii) : text :=
  site ++ before_quarter ++ ["2"; "0"; c; d; "q"; qc]%char
  ++ before_version ++ ["-"; "v"; a; b; e; "r"]%char ++ rs
  ++ ["-"; "f"; n]%char ++ lit ".zip".

(** The URL of file [f] of the release [(y, q, v, r)]. *)
Definition default_url (y q v r f : Z) : text :=
  site ++ before_quarter ++ str_int y ++ lit "q" ++ str_int q
  ++ before_version ++ lit "-v" ++ fmt_03d v ++ lit "r" ++ str_int r
  ++ lit "-f" ++ str_int f ++ lit ".zip".

Lemma cms_url_is_default : cms_url = default_url 2025 4 313 0 1.
Proof. vm_compute. reflexivity. Qed.

Section Digits.

Variables c d qc a b e : ascii.
Variable rs : text.
Variable n : ascii.
Hypothesis Hc : is_digit c = true.
Hypothesis Hd : is_digit d = true.
Hypothesis Hqc : is_quarter_digit qc = true.
Hypothesis Ha : is_digit a = true.
Hypothesis Hb : is_digit b = true.
Hypothesis He : is_digit e = true.
Hypothesis Hrs : forallb is_digit rs = true.
Hypothesis Hne : rs <> [].
Hypothesis Hn : is_12 n = true.

#[local] Abbreviation U := (url_of_digits c d qc a b e rs n).

(** The quarter pattern finds the quarter field. *)
Lemma quarter_search :
  search match_qtr true U
  = Some (site ++ before_quarter,
          RMatch ["2"; "0"; c; d; "q"; qc]%char
            (["2"; "0"; c; d]%char, [qc])
            (before_version ++ ["-"; "v"; a; b; e; "r"]%char ++ rs
             ++ ["-"; "f"; n]%char ++ lit ".zip")).
Proof.
  unfold url_of_digits. rewrite (app_assoc site).
  apply search_past.
  - unfold site, before_quarter.
    cbn [lit list_ascii_of_string app passes].
    repeat split; reflexivity.
  - cbn [app]. by apply match_qtr_written.
Qed.

Lemma quarter_digit_not_delim : is_delim qc = false.
Proof. apply digit_not_delim. by apply quarter_digit_is_digit. Qed.

(** The version pattern at the version field. *)
Lemma match_vr_at_field (rest : text) :
  match_vr false (["-"; "v"; a; b; e; "r"]%char ++ rs ++ "-"%char :: rest)
  = Some (RMatch (["-"; "v"; a; b; e; "r"]%char ++ rs ++ ["-"%char])
            ([a; b; e], rs) rest).
Proof.
  unfold match_vr. cbn [app]. change (is_delim "-") with true. cbv iota.
  unfold match_vr_body.
  change (eq_ci "v" "v") with true. change (eq_ci "r" "r") with true.
  rewrite Ha, Hb, He. cbn [andb].
  rewrite (span_run is_digit rs ("-"%char :: rest) Hrs eq_refl).
  destruct rs as [|r0 rs']; [done |].
  change (is_delim "-") with true. cbv iota. reflexivity.
Qed.

(** The version pattern finds the version field. *)
Lemma version_search :
  search match_vr true U
  = Some (site ++ before_quarter ++ ["2"; "0"; c; d; "q"; qc]%char
          ++ before_version,
          RMatch (["-"; "v"; a; b; e; "r"]%char ++ rs ++ ["-"%char])
            ([a; b; e], rs) (["f"; n]%char ++ lit ".zip")).
Proof.
  unfold url_of_digits.
  replace (site ++ before_quarter ++ ["2"; "0"; c; d; "q"; qc]%char
           ++ before_version ++ ["-"; "v"; a; b; e; "r"]%char ++ rs
           ++ ["-"; "f"; n]%char ++ lit ".zip")
    with ((site ++ before_quarter ++ ["2"; "0"; c; d; "q"; qc]%char
           ++ before_version)
          ++ (["-"; "v"; a; b; e; "r"]%char ++ rs
              ++ "-"%char :: ["f"; n]%char ++ lit ".zip"))
    by (by rewrite <- !app_assoc).
  apply search_past; [| apply match_vr_at_field].
  rewrite (app_assoc site).
  apply passes_app; [| apply passes_app].
  - unfold site, before_quarter.
    cbn [lit list_ascii_of_string app passes].
    repeat split; reflexivity.
  - cbn [app passes]. unfold match_vr.
    rewrite (digit_not_delim c Hc), (digit_not_delim d Hd),
      quarter_digit_not_delim.
    repeat split; reflexivity.
  - unfold before_version.
    cbn [lit list_ascii_of_string app passes].
    repeat split; reflexivity.
Qed.

Lemma match_f_inert (x : ascii) :
  Ascii.eqb x "-" = false -> forall b0 s, match_f b0 (x :: s) = None.
Proof.
  intros Hx b0 s. unfold match_f.
  destruct s as [|y [|z s]]; [done | done |]. by rewrite Hx.
Qed.

(** The file pattern finds the file field. *)
Lemma file_search :
  search match_f true U
  = Some (site ++ before_quarter ++ ["2"; "0"; c; d; "q"; qc]%char
          ++ before_version ++ ["-"; "v"; a; b; e; "r"]%char ++ rs,
          RMatch ["-"; "f"; n]%char [n] (lit ".zip")).
Proof.
  unfold url_of_digits.
  replace (site ++ before_quarter ++ ["2"; "0"; c; d; "q"; qc]%char
           ++ before_version ++ ["-"; "v"; a; b; e; "r"]%char ++ rs
           ++ ["-"; "f"; n]%char ++ lit ".zip")
    with ((site ++ before_quarter ++ ["2"; "0"; c; d; "q"; qc]%char
           ++ before_version ++ ["-"; "v"; a; b; e; "r"]%char ++ rs)
          ++ (["-"; "f"; n]%char ++ lit ".zip"))
    by (by rewrite <- !app_assoc).
  apply search_past.
  - rewrite (app_assoc site).
    apply passes_app; [| apply passes_app; [| apply passes_app;
                                               [| apply passes_app]]].
    + unfold site, before_quarter.
      cbn [lit list_ascii_of_string app passes].
      repeat split; reflexivity.
    + apply passes_inert. repeat constructor; apply match_f_inert;
        first [reflexivity | by apply digit_is_not_hyphen
              | apply digit_is_not_hyphen; by apply quarter_digit_is_digit].
    + unfold before_version.
      cbn [lit list_ascii_of_string app passes].
      repeat split; reflexivity.
    + cbn [app passes].
      repeat split;
        first [reflexivity
              | apply match_f_inert;
                first [reflexivity | by apply digit_is_not_hyphen]].
    + apply passes_inert. apply Forall_forall. intros x Hx.
      apply match_f_inert, digit_is_not_hyphen.
      rewrite forallb_forall in Hrs. apply Hrs. by apply list_elem_of_In.
  - cbn [app lit list_ascii_of_string]. unfold match_f.
    change (Ascii.eqb "-" "-") with true. change (eq_ci "f" "f") with true.
    rewrite Hn. reflexivity.
Qed.

(** What the three rewriters and the two parsers do on the URL. *)
Lemma set_quarter_of_digits (y' q' : Z) :
  _set_quarter U y' q'
  = site ++ before_quarter ++ (str_int y' ++ lit "q" ++ str_int q')
    ++ before_version ++ ["-"; "v"; a; b; e; "r"]%char ++ rs
    ++ ["-"; "f"; n]%char ++ lit ".zip".
Proof.
  unfold _set_quarter. rewrite (sub_first_found _ _ _ _ _ quarter_search).
  cbn [after]. by rewrite <- !app_assoc.
Qed.

Lemma set_vr_of_digits (v' r' : Z) :
  _set_vr U v' r'
  = site ++ before_quarter ++ ["2"; "0"; c; d; "q"; qc]%char
    ++ before_version ++ (lit "-v" ++ fmt_03d v' ++ lit "r" ++ str_int r')
    ++ ["-"; "f"; n]%char ++ lit ".zip".
Proof.
  unfold _set_vr. rewrite (sub_first_found _ _ _ _ _ version_search).
  unfold set_vr_repl. cbn [after group0].
  assert (E1 : starts_with (lit "-") (["-"; "v"; a; b; e; "r"]%char ++ rs ++ ["-"%char])
               = true) by reflexivity.
  assert (E2 : ends_with (lit "-") (["-"; "v"; a; b; e; "r"]%char ++ rs ++ ["-"%char])
               = true).
  { rewrite app_assoc. apply ends_with_snoc. }
  rewrite E1, E2. cbn [lit list_ascii_of_string app].
  rewrite <- !app_assoc. cbn [app]. do 4 f_equal.
  by rewrite <- !app_assoc.
Qed.

Lemma with_f_of_digits (f' : Z) :
  _with_f U f'
  = site ++ before_quarter ++ ["2"; "0"; c; d; "q"; qc]%char
    ++ before_version ++ ["-"; "v"; a; b; e; "r"]%char ++ rs
    ++ (lit "-f" ++ str_int f') ++ lit ".zip".
Proof.
  unfold _with_f. rewrite file_search.
  rewrite (sub_first_found _ _ _ _ _ file_search).
  cbn [after]. by rewrite <- !app_assoc.
Qed.

Lemma parse_quarter_of_digits :
  _parse_quarter U
  = Ok (int_of_digits ["2"; "0"; c; d]%char, int_of_digits [qc]).
Proof. unfold _parse_quarter. by rewrite quarter_search. Qed.

Lemma parse_vr_of_digits :
  _parse_vr U = Ok (int_of_digits [a; b; e], int_of_digits rs).
Proof. unfold _parse_vr. by rewrite version_search. Qed.

(** The table name. *)
Definition name_before_quarter : text := lit "medicare-ncci-".
Definition name_before_release : text := lit "-practitioner-ptp-edits-".

#[local] Abbreviation YQ := (["2"; "0"; c; d; "q"; qc]%char).
#[local] Abbreviation release_digits :=
  (lit "ccipra-" ++ ["v"; a; b; e; "r"]%char ++ rs).
#[local] Abbreviation file_stem :=
  (name_before_quarter ++ YQ ++ name_before_release ++ release_digits).

Lemma url_by_parts :
  U = site ++ lit "file="
      ++ (lit "/files/zip" ++ "/"%char
          :: (file_stem ++ ["-"; "f"]%char ++ [n]) ++ lit ".zip").
Proof.
  unfold url_of_digits, before_quarter, before_version, name_before_quarter,
    name_before_release.
  cbn [lit list_ascii_of_string app]. rewrite <- !app_assoc.
  reflexivity.
Qed.

Ltac settle_chars lem :=
  repeat progress (rewrite ?forallb_app;
                   cbn [forallb app lit list_ascii_of_string]);
  rewrite ?(lem c Hc), ?(lem d Hd), ?(lem qc (quarter_digit_is_digit qc Hqc)),
    ?(lem a Ha), ?(lem b Hb), ?(lem e He), ?(lem n (one_or_two_is_digit n Hn));
  rewrite ?(forallb_not_char _ rs lem Hrs);
  reflexivity.

Lemma file_stem_slash_free :
  slash_free ((file_stem ++ ["-"; "f"]%char ++ [n]) ++ lit ".zip").
Proof.
  unfold slash_free, not_slash, name_before_quarter, name_before_release.
  settle_chars digit_is_not_slash.
Qed.

Lemma file_param_search :
  search match_file_param true U
  = Some (site,
          RMatch (lit "file="
                  ++ (lit "/files/zip" ++ "/"%char
                      :: (file_stem ++ ["-"; "f"]%char ++ [n]) ++ lit ".zip"))
            (lit "/files/zip" ++ "/"%char
             :: (file_stem ++ ["-"; "f"]%char ++ [n]) ++ lit ".zip")
            []).
Proof.
  rewrite url_by_parts. apply search_past.
  - unfold site. cbn [lit list_ascii_of_string app passes].
    repeat split; reflexivity.
  - unfold match_file_param.
    change (starts_with (lit "file=") (lit "file=" ++ ?x)) with true.
    cbv iota. change (skipn 5 (lit "file=" ++ ?x)) with x.
    rewrite span_all; [reflexivity |].
    unfold name_before_quarter, name_before_release.
    settle_chars digit_is_not_amp.
Qed.

Lemma match_f_end_inert (x : ascii) :
  Ascii.eqb x "-" = false -> forall b0 s, match_f_end b0 (x :: s) = None.
Proof.
  intros Hx b0 s. unfold match_f_end.
  destruct s as [|y [|z s]]; [done | done |]. by rewrite Hx.
Qed.

Lemma f_end_search :
  search match_f_end true (file_stem ++ ["-"; "f"]%char ++ [n])
  = Some (file_stem, RMatch ["-"; "f"; n]%char tt []).
Proof.
  apply search_past.
  - unfold name_before_quarter, name_before_release.
    apply passes_app; [| apply passes_app; [| apply passes_app;
                                               [| apply passes_app]]].
    + cbn [lit list_ascii_of_string app passes].
      repeat split; reflexivity.
    + apply passes_inert. repeat constructor; apply match_f_end_inert;
        first [reflexivity | by apply digit_is_not_hyphen
              | apply digit_is_not_hyphen; by apply quarter_digit_is_digit].
    + cbn [lit list_ascii_of_string app passes].
      repeat split; reflexivity.
    + cbn [lit list_ascii_of_string app passes].
      repeat split; reflexivity.
    + cbn [app]. apply passes_inert.
      repeat (constructor;
              [apply match_f_end_inert;
               first [reflexivity | by apply digit_is_not_hyphen] |]).
      apply Forall_forall. intros x Hx.
      apply match_f_end_inert, digit_is_not_hyphen.
      rewrite forallb_forall in Hrs. apply Hrs. by apply list_elem_of_In.
  - cbn [app]. unfold match_f_end.
    change (Ascii.eqb "-" "-") with true. change (Ascii.eqb "f" "f") with true.
    rewrite Hn. reflexivity.
Qed.

Lemma match_ccipra_tail_inert (x : ascii) :
  eq_ci "c" x = false -> forall b0 s, match_ccipra_tail b0 (x :: s) = None.
Proof.
  intros Hx b0 s. unfold match_ccipra_tail.
  cbn [lit list_ascii_of_string starts_with_ci]. by rewrite Hx.
Qed.

Lemma ccipra_search :
  search match_ccipra_tail true file_stem
  = Some (name_before_quarter ++ YQ ++ name_before_release,
          RMatch release_digits release_digits []).
Proof.
  replace file_stem
    with ((name_before_quarter ++ YQ ++ name_before_release) ++ release_digits)
    by (by rewrite <- !app_assoc).
  apply search_past.
  - unfold name_before_quarter, name_before_release.
    apply passes_app; [| apply passes_app].
    + cbn [lit list_ascii_of_string app passes].
      repeat split; reflexivity.
    + apply passes_inert. repeat constructor; apply match_ccipra_tail_inert;
        first [reflexivity | by apply digit_is_not_c
              | apply digit_is_not_c; by apply quarter_digit_is_digit].
    + cbn [lit list_ascii_of_string app passes].
      repeat split; reflexivity.
  - unfold match_ccipra_tail.
    change (starts_with_ci (lit "ccipra-") (lit "ccipra-" ++ ?x)) with true.
    cbv iota. change (skipn 7 (lit "ccipra-" ++ ?x)) with x.
    cbn [app forallb].
    assert (Hall : forallb
                     (fun c0 => negb (Ascii.eqb c0 "/" || Ascii.eqb c0 BACKSLASH))
                     rs = true).
    { rewrite forallb_forall in *. intros x Hx. specialize (Hrs x Hx).
      by rewrite (digit_is_not_slash x Hrs), (digit_is_not_backslash x Hrs). }
    rewrite Hall.
    rewrite (digit_is_not_slash a Ha), (digit_is_not_backslash a Ha),
      (digit_is_not_slash b Hb), (digit_is_not_backslash b Hb),
      (digit_is_not_slash e He), (digit_is_not_backslash e He).
    reflexivity.
Qed.

(** The name of the merged table holds the version and the revision,
    and neither the quarter nor the file number. *)
Lemma combined_csv_path_of_digits :
  combined_csv_name U = Ok (release_digits ++ lit "-f1f2.csv").
Proof.
  unfold combined_csv_name. rewrite file_param_search. cbn [groups].
  rewrite (basename_of_dir _ _ file_stem_slash_free).
  rewrite app_assoc.
  rewrite (splitext_zip _ n
             (digit_is_not_slash n (one_or_two_is_digit n Hn))
             (digit_is_not_dot n (one_or_two_is_digit n Hn))).
  rewrite <- app_assoc.
  rewrite (sub_first_found _ _ _ _ _ f_end_search). cbn [after].
  rewrite !app_nil_r. by rewrite ccipra_search.
Qed.

End Digits.

(** *** From digits to fields *)

Definition release_in_range (y q v r : Z) : Prop :=
  2000 <= y <= 2099 /\ 1 <= q <= 4 /\ 0 <= v <= 999 /\ 0 <= r.

Lemma file_digit (f : Z) :
  f = 1 \/ f = 2 ->
  exists n, str_int f = [n] /\ is_12 n = true.
Proof. intros [-> | ->]; eexists; split; reflexivity. Qed.

Lemma default_url_digits (y q v r f : Z) :
  release_in_range y q v r -> f = 1 \/ f = 2 ->
  exists c d qc a b e rs n,
    default_url y q v r f = url_of_digits c d qc a b e rs n
    /\ str_int y = ["2"; "0"; c; d]%char /\ str_int q = [qc]
    /\ fmt_03d v = [a; b; e] /\ str_int r = rs /\ str_int f = [n]
    /\ is_digit c = true /\ is_digit d = true /\ is_quarter_digit qc = true
    /\ is_digit a = true /\ is_digit b = true /\ is_digit e = true
    /\ forallb is_digit rs = true /\ rs <> [] /\ is_12 n = true
    /\ int_of_digits ["2"; "0"; c; d]%char = y /\ int_of_digits [qc] = q
    /\ int_of_digits [a; b; e] = v /\ int_of_digits rs = r.
Proof.
  intros (Hy & Hq & Hv & Hr) Hf.
  destruct (str_int_year y Hy) as (c & d & Ey & Hc & Hd & Hyear).
  destruct (str_int_quarter q Hq) as (qc & Eq & Hqc & Hquarter).
  destruct (fmt_03d_spec v Hv) as (a & b & e & Ev & Ha & Hb & He & Hver).
  destruct (dec_spec r Hr) as (Hne & Hrs & Hrev).
  destruct (file_digit f Hf) as (n & En & Hn).
  exists c, d, qc, a, b, e, (dec r), n.
  rewrite (str_int_nonneg r Hr).
  repeat split; try done.
  unfold default_url, url_of_digits.
  rewrite Ey, Eq, Ev, En, (str_int_nonneg r Hr).
  cbn [lit list_ascii_of_string app]. by rewrite <- ?app_assoc.
Qed.

(** The URLs of the default template, for a year from 2000 to
    2099, a quarter from 1 to 4, a version of at most three digits, a
    revision and a file number 1 or 2, are closed under the three
    rewriters: [_set_quarter], [_set_vr] and [_with_f] each replace
    their own field and leave the others as they are; the two parsers
    give the fields back; and the name of the merged table is made of
    the version and the revision alone. *)
Theorem default_urls_are_rewritten_field_by_field (y q v r f : Z) :
  release_in_range y q v r -> f = 1 \/ f = 2 ->
  (forall y' q', _set_quarter (default_url y q v r f) y' q'
                 = default_url y' q' v r f)
  /\ (forall v' r', _set_vr (default_url y q v r f) v' r'
                    = default_url y q v' r' f)
  /\ (forall f', _with_f (default_url y q v r f) f' = default_url y q v r f')
  /\ _parse_quarter (default_url y q v r f) = Ok (y, q)
  /\ _parse_vr (default_url y q v r f) = Ok (v, r)
  /\ combined_csv_name (default_url y q v r f)
     = Ok (lit "ccipra-v" ++ fmt_03d v ++ lit "r" ++ str_int r
           ++ lit "-f1f2.csv").
Proof.
  intros Hrange Hf.
  destruct (default_url_digits y q v r f Hrange Hf)
    as (c & d & qc & a & b & e & rs & n & EU & Ey & Eq & Ev & Er & En
        & Hc & Hd & Hqc & Ha & Hb & He & Hrs & Hne & Hn
        & Hyear & Hquarter & Hver & Hrev).
  rewrite EU. repeat split.
  - intros y' q'.
    rewrite (set_quarter_of_digits c d qc a b e rs n) by done.
    unfold default_url. rewrite Ev, Er, En.
    cbn [lit list_ascii_of_string app]. by rewrite <- ?app_assoc.
  - intros v' r'.
    rewrite (set_vr_of_digits c d qc a b e rs n) by done.
    unfold default_url. rewrite Ey, Eq, En.
    cbn [lit list_ascii_of_string app]. by rewrite <- ?app_assoc.
  - intros f'.
    rewrite (with_f_of_digits c d qc a b e rs n) by done.
    unfold default_url. rewrite Ey, Eq, Ev, Er.
    cbn [lit list_ascii_of_string app]. by rewrite <- ?app_assoc.
  - rewrite (parse_quarter_of_digits c d qc a b e rs n) by done.
    by rewrite Hyear, Hquarter.
  - rewrite (parse_vr_of_digits c d qc a b e rs n) by done.
    by rewrite Hver, Hrev.
  - rewrite (combined_csv_path_of_digits c d qc a b e rs n) by done.
    rewrite Ev, Er. cbn [lit list_ascii_of_string app].
    by rewrite <- ?app_assoc.
Qed.

Lemma default_urls_are_rewritten_field_by_field_witness :
  (forall y' q', _set_quarter cms_url y' q' = default_url y' q' 313 0 1)
  /\ (forall v' r', _set_vr cms_url v' r' = default_url 2025 4 v' r' 1)
  /\ (forall f', _with_f cms_url f' = default_url 2025 4 313 0 f')
  /\ _parse_quarter cms_url = Ok (2025, 4)
  /\ _parse_vr cms_url = Ok (313, 0)
  /\ combined_csv_name cms_url = Ok (lit "ccipra-v313r0-f1f2.csv").
Proof.
  apply (default_urls_are_rewritten_field_by_field 2025 4 313 0 1).
  - unfold release_in_range. lia.
  - by left.
Defined.

(** From a base URL of the default template, the two URLs that
    the orchestrator builds for a release are the URLs of file 1 and of
    file 2 of that release in the same template, and the table of the
    release is named after its version and revision: two releases that
    differ in their quarter only share the name of their table. *)
Theorem candidate_urls_of_the_default_template (y0 q0 v0 r0 f0 y q v r : Z) :
  release_in_range y0 q0 v0 r0 -> f0 = 1 \/ f0 = 2 -> release_in_range y q v r ->
  candidate_urls (default_url y0 q0 v0 r0 f0) (y, q, v, r)
  = (default_url y q v r 1, default_url y q v r 2)
  /\ combined_csv_name (default_url y q v r 1)
     = Ok (lit "ccipra-v" ++ fmt_03d v ++ lit "r" ++ str_int r
           ++ lit "-f1f2.csv")
  /\ (forall y' q',
        2000 <= y' <= 2099 -> 1 <= q' <= 4 ->
        combined_csv_name (default_url y' q' v r 1)
        = combined_csv_name (default_url y q v r 1)).
Proof.
  intros H0 Hf0 H.
  assert (Hmixed : release_in_range y q v0 r0).
  { unfold release_in_range in *. lia. }
  destruct (default_url_digits y0 q0 v0 r0 f0 H0 Hf0)
    as (c & d & qc & a & b & e & rs & n & EU & Ey & Eq & Ev & Er & En
        & Hc & Hd & Hqc & Ha & Hb & He & Hrs & Hne & Hn & _).
  destruct (default_url_digits y q v0 r0 f0 Hmixed Hf0)
    as (c1 & d1 & qc1 & a1 & b1 & e1 & rs1 & n1 & EU1 & Ey1 & Eq1 & Ev1 & Er1
        & En1 & Hc1 & Hd1 & Hqc1 & Ha1 & Hb1 & He1 & Hrs1 & Hne1 & Hn1 & _).
  destruct (default_url_digits y q v r f0 H Hf0)
    as (c2 & d2 & qc2 & a2 & b2 & e2 & rs2 & n2 & EU2 & Ey2 & Eq2 & Ev2 & Er2
        & En2 & Hc2 & Hd2 & Hqc2 & Ha2 & Hb2 & He2 & Hrs2 & Hne2 & Hn2 & _).
  assert (Hq : _set_quarter (default_url y0 q0 v0 r0 f0) y q
               = default_url y q v0 r0 f0).
  { rewrite EU, (set_quarter_of_digits c d qc a b e rs n) by done.
    unfold default_url. rewrite Ev, Er, En.
    cbn [lit list_ascii_of_string app]. by rewrite <- ?app_assoc. }
  assert (Hv : _set_vr (default_url y q v0 r0 f0) v r = default_url y q v r f0).
  { rewrite EU1, (set_vr_of_digits c1 d1 qc1 a1 b1 e1 rs1 n1) by done.
    unfold default_url. rewrite Ey1, Eq1, En1.
    cbn [lit list_ascii_of_string app]. by rewrite <- ?app_assoc. }
  assert (Hf : forall f', _with_f (default_url y q v r f0) f'
                          = default_url y q v r f').
  { intros f'.
    rewrite EU2, (with_f_of_digits c2 d2 qc2 a2 b2 e2 rs2 n2) by done.
    unfold default_url. rewrite Ey2, Eq2, Ev2, Er2.
    cbn [lit list_ascii_of_string app]. by rewrite <- ?app_assoc. }
  assert (Hname : forall y' q',
            2000 <= y' <= 2099 -> 1 <= q' <= 4 ->
            combined_csv_name (default_url y' q' v r 1)
            = Ok (lit "ccipra-v" ++ fmt_03d v ++ lit "r" ++ str_int r
                  ++ lit "-f1f2.csv")).
  { intros y' q' Hy' Hq'.
    assert (H' : release_in_range y' q' v r) by (unfold release_in_range in *; lia).
    destruct (default_url_digits y' q' v r 1 H' (or_introl eq_refl))
      as (c3 & d3 & qc3 & a3 & b3 & e3 & rs3 & n3 & EU3 & Ey3 & Eq3 & Ev3 & Er3
          & En3 & Hc3 & Hd3 & Hqc3 & Ha3 & Hb3 & He3 & Hrs3 & Hne3 & Hn3 & _).
    rewrite EU3, (combined_csv_path_of_digits c3 d3 qc3 a3 b3 e3 rs3 n3)
      by done.
    rewrite Ev3, Er3. cbn [lit list_ascii_of_string app].
    by rewrite <- ?app_assoc. }
  split; [| split].
  - unfold candidate_urls, _pair_f1_f2. by rewrite Hq, Hv, !Hf.
  - apply Hname; unfold release_in_range in H; lia.
  - intros y' q' Hy' Hq'. rewrite (Hname y' q' Hy' Hq').
    symmetry. apply Hname; unfold release_in_range in H; lia.
Qed.

Lemma candidate_urls_of_the_default_template_witness :
  candidate_urls (default_url 2025 4 313 0 1) (2026, 1, 314, 0)
  = (default_url 2026 1 314 0 1, default_url 2026 1 314 0 2)
  /\ combined_csv_name (default_url 2026 1 314 0 1)
     = Ok (lit "ccipra-v" ++ fmt_03d 314 ++ lit "r" ++ str_int 0
           ++ lit "-f1f2.csv")
  /\ (forall y' q',
        2000 <= y' <= 2099 -> 1 <= q' <= 4 ->
        combined_csv_name (default_url y' q' 314 0 1)
        = combined_csv_name (default_url 2026 1 314 0 1)).
Proof.
  apply (candidate_urls_of_the_default_template 2025 4 313 0 1 2026 1 314 0);
    unfold release_in_range; first [lia | by left].
Defined.

End DefaultUrlFacts.

(** ** What the readers hand to the merge *)
Module TableFacts.
Import Text Frame Sync TextFacts FrameFacts StripFacts SyncFacts.

#[local] Arguments is_space : simpl never.

(** No cell of the table is the missing value. *)
Definition no_nan (df : DataFrame) : Prop :=
  Forall (Forall (fun c => c <> NaN)) (rows df).

Lemma astype_str_no_nan (row : list cell) :
  Forall (fun c => c <> NaN) (map (astype_str Pandas2) row).
Proof.
  apply Forall_forall. intros c Hc. apply list_elem_of_In in Hc.
  apply in_map_iff in Hc as ([s |] & <- & _); discriminate.
Qed.

Lemma astype_str_pandas3 (row : list cell) : map (astype_str Pandas3) row = row.
Proof. induction row as [| [s |] row IH]; cbn [map astype_str]; by rewrite ?IH. Qed.



Lemma normalise_rectangular (pandas : pandas_version) (df : DataFrame) :
  rectangular df -> rectangular (normalise pandas df).
Proof.
  unfold rectangular, normalise. cbn [rows columns]. intros H.
  apply Forall_forall. intros row Hrow. apply list_elem_of_In in Hrow.
  apply in_map_iff in Hrow as (r0 & <- & Hr0). rewrite length_map.
  rewrite Forall_forall in H. rewrite (H r0) by by apply list_elem_of_In.
  destruct (Nat.eqb_spec (length (map strip (columns df))) (length expected))
    as [E | E]; rewrite length_map in *; done.
Qed.

(** *** The member that is read *)

(** [name] is the first name of the listing with one of the two
    suffixes. *)
Definition first_data_name (members : list (text * option bytes))
    (name : text) : Prop :=
  exists pre b post,
    members = pre ++ (name, b) :: post
    /\ is_data_member name = true
    /\ no_data_member pre.

(** The last entry of the listing under [name] has content [c]. *)
Definition last_entry (members : list (text * option bytes))
    (name : text) (c : option bytes) : Prop :=
  exists before after,
    members = before ++ (name, c) :: after
    /\ Forall (fun m => fst m <> name) after.

Lemma find_first_data_name (members : list (text * option bytes)) (name : text) :
  List.find is_data_member (map fst members) = Some name
  <-> first_data_name members name.
Proof.
  unfold first_data_name, no_data_member. split.
  - revert name. induction members as [| [n b] ms IH]; intros name;
      [discriminate |].
    cbn [map fst List.find]. destruct (is_data_member n) eqn:Hn.
    + intros [= <-]. by exists [], b, ms.
    + intros H. destruct (IH _ H) as (pre & b' & post & -> & Hd & Hpre).
      exists ((n, b) :: pre), b', post. repeat split; [done |].
      by constructor.
  - intros (pre & b & post & -> & Hd & Hpre).
    induction Hpre as [| [n c] pre Hn _ IH]; cbn [app map fst List.find].
    + by rewrite Hd.
    + cbn [fst] in Hn. by rewrite Hn.
Qed.

Lemma find_no_entry (name : text) (l : list (text * option bytes)) :
  Forall (fun m => fst m <> name) l ->
  List.find (fun m => bool_decide (fst m = name)) (rev l) = None.
Proof.
  intros H. apply Forall_rev in H.
  induction H as [| m l' Hm _ IH]; [done |].
  cbn [List.find]. by rewrite bool_decide_eq_false_2.
Qed.

Lemma find_app_none {A : Type} (f : A -> bool) (l1 l2 : list A) :
  List.find f l1 = None -> List.find f (l1 ++ l2) = List.find f l2.
Proof.
  induction l1 as [| a l1 IH]; [done |]. cbn [List.find app].
  destruct (f a); [discriminate | exact IH].
Qed.

Lemma zip_read_last (members : list (text * option bytes)) (name : text)
    (c : option bytes) :
  last_entry members name c -> zip_read members name = c.
Proof.
  intros (before & after & -> & Hafter). unfold zip_read.
  rewrite rev_app_distr. cbn [rev]. rewrite <- app_assoc.
  rewrite (find_app_none _ _ _ (find_no_entry name after Hafter)).
  cbn [app List.find fst]. by rewrite bool_decide_eq_true_2.
Qed.

Lemma last_entry_exists (members : list (text * option bytes)) (name : text) :
  name ∈ map fst members -> exists c, last_entry members name c.
Proof.
  unfold last_entry.
  induction members as [| [n b] ms IH] using rev_ind; intros Hin.
  - by apply elem_of_nil in Hin.
  - destruct (decide (n = name)) as [-> | Hne].
    + exists b, ms, []. split; [done | constructor].
    + rewrite map_app in Hin. apply elem_of_app in Hin as [Hin | Hin].
      * destruct (IH Hin) as (c & before & after & -> & Hafter).
        exists c, before, (after ++ [(n, b)]).
        split; [by rewrite <- app_assoc |].
        apply Forall_app. split; [done |]. by repeat constructor.
      * apply list_elem_of_singleton in Hin. by destruct Hne.
Qed.

Lemma first_data_name_listed (members : list (text * option bytes))
    (name : text) :
  first_data_name members name -> name ∈ map fst members.
Proof.
  intros (pre & b & post & -> & _). rewrite map_app.
  apply elem_of_app. right. apply elem_of_cons. by left.
Qed.

Section Readers.

Variable is_zipfile : bytes -> bool.
Variable ZipFile : bytes -> option (list (text * option bytes)).
Variable read_excel : bytes -> option DataFrame.
Variable read_csv : bytes -> option DataFrame.
Variable read_fwf : bytes -> option DataFrame.
Variable pandas : pandas_version.

(** [_extract_member] takes the first name of the listing whose
    lower-cased form ends in [.xlsx] or [.txt]; the names before it have
    neither suffix.  The content it returns is the one that the archive
    gives for that name, which is the content of the last entry under
    the name: with two entries of the same name it is the second that
    is read, and the call fails when that one cannot be read, whatever
    the first holds.  When no name is listed twice, the content is that
    of the first data member itself.  It raises [FileNotFoundError]
    exactly when the archive opens and lists no data member, and fails
    in [zipfile] exactly when the archive does not open or the entry
    cannot be read. *)
Theorem extract_member_reads_first_data_name (z : bytes) :
  (forall name blob,
     _extract_member ZipFile z = Ok (name, blob) <->
     exists members,
       ZipFile z = Some members
       /\ first_data_name members name
       /\ last_entry members name (Some blob))
  /\ (_extract_member ZipFile z = Raise BadZipFile <->
      ZipFile z = None
      \/ exists members name,
           ZipFile z = Some members
           /\ first_data_name members name
           /\ last_entry members name None)
  /\ (_extract_member ZipFile z = Raise FileNotFoundError <->
      exists members,
        ZipFile z = Some members /\ no_data_member members)
  /\ (forall members name blob,
        ZipFile z = Some members -> NoDup (map fst members) ->
        _extract_member ZipFile z = Ok (name, blob) ->
        exists pre post,
          members = pre ++ (name, Some blob) :: post
          /\ is_data_member name = true
          /\ no_data_member pre)
  /\ (forall name first second,
        ZipFile z = Some [(name, first); (name, second)] ->
        is_data_member name = true ->
        _extract_member ZipFile z
        = match second with
          | Some blob => Ok (name, blob)
          | None => Raise BadZipFile
          end).
Proof.
  split; [| split; [| split; [| split]]].
  - intros name blob. unfold _extract_member. split.
    + destruct (ZipFile z) as [members |]; [| discriminate].
      destruct (List.find is_data_member (map fst members)) as [n |] eqn:Hf;
        [| discriminate].
      apply find_first_data_name in Hf.
      destruct (last_entry_exists members n (first_data_name_listed _ _ Hf))
        as [c Hc].
      rewrite (zip_read_last _ _ _ Hc). destruct c as [b |]; [| discriminate].
      intros [= <- <-]. by exists members.
    + intros (members & -> & Hf & Hc).
      apply find_first_data_name in Hf. by rewrite Hf, (zip_read_last _ _ _ Hc).
  - unfold _extract_member. split.
    + destruct (ZipFile z) as [members |]; [| by left].
      destruct (List.find is_data_member (map fst members)) as [n |] eqn:Hf;
        [| discriminate].
      apply find_first_data_name in Hf.
      destruct (last_entry_exists members n (first_data_name_listed _ _ Hf))
        as [c Hc].
      rewrite (zip_read_last _ _ _ Hc). destruct c as [b |]; [discriminate |].
      intros _. right. by exists members, n.
    + intros [-> | (members & name & -> & Hf & Hc)]; [done |].
      apply find_first_data_name in Hf. by rewrite Hf, (zip_read_last _ _ _ Hc).
  - apply SyncFacts.extract_member_not_found.
  - intros members name blob Hz Hnodup. unfold _extract_member. rewrite Hz.
    destruct (List.find is_data_member (map fst members)) as [n |] eqn:Hf;
      [| discriminate].
    apply find_first_data_name in Hf.
    destruct Hf as (pre & b & post & -> & Hd & Hpre).
    assert (Hc : last_entry (pre ++ (n, b) :: post) n b).
    { exists pre, post. split; [done |].
      rewrite map_app in Hnodup. cbn [map fst] in Hnodup.
      apply NoDup_app in Hnodup as (_ & _ & Hnodup).
      apply NoDup_cons in Hnodup as [Hnotin _].
      apply Forall_forall. intros m Hm E. apply Hnotin.
      rewrite <- E. by apply list_elem_of_fmap_2. }
    rewrite (zip_read_last _ _ _ Hc). destruct b as [b |]; [| discriminate].
    intros [= <- <-]. by exists pre, post.
  - intros name first second Hz Hd. unfold _extract_member, zip_read.
    rewrite Hz. cbn [map fst List.find rev app]. rewrite Hd.
    cbn [List.find fst]. by rewrite bool_decide_eq_true_2.
Qed.



End Readers.

Definition table_xy : DataFrame :=
  {| columns := [lit " X"; lit "Y "];
     rows := [[Str (lit "x1"); NaN]] |}.


(** The two pandas on the same table. *)
Lemma missing_cell_by_pandas :
  rows (normalise Pandas2 table_xy) = [[Str (lit "x1"); Str (lit "nan")]]
  /\ rows (normalise Pandas3 table_xy) = [[Str (lit "x1"); NaN]].
Proof. split; reflexivity. Qed.


(** *** The merge does not depend on which file comes first *)

Lemma code_inj (x y : ascii) : code x = code y -> x = y.
Proof.
  unfold code. intros E.
  rewrite <- (ascii_nat_embedding x), <- (ascii_nat_embedding y).
  by rewrite E.
Qed.

Lemma text_leb_antisym (a b : text) :
  text_leb a b = true -> text_leb b a = true -> a = b.
Proof.
  revert b. induction a as [|x a IH]; intros [|y b]; cbn [text_leb];
    try done.
  destruct (Nat.ltb_spec (code x) (code y)) as [Hxy | Hxy].
  - intros _. destruct (Nat.ltb_spec (code y) (code x)); [lia |].
    destruct (Nat.eqb_spec (code y) (code x)); [lia | discriminate].
  - destruct (Nat.eqb_spec (code x) (code y)) as [E | E]; [| discriminate].
    intros Hab. destruct (Nat.ltb_spec (code y) (code x)); [lia |].
    destruct (Nat.eqb_spec (code y) (code x)); [| lia].
    intros Hba. f_equal; [by apply code_inj | by apply IH].
Qed.

#[local] Instance text_le_antisym : AntiSymm eq text_le.
Proof. intros a b. apply text_leb_antisym. Qed.

Lemma sorted_union_comm (a b : list text) :
  sorted (remove_dups (a ++ b)) = sorted (remove_dups (b ++ a)).
Proof.
  apply (StronglySorted_unique text_le); [apply sorted_strongly .. |].
  rewrite !sorted_perm.
  apply NoDup_Permutation; [apply NoDup_remove_dups .. |].
  intros c. rewrite !elem_of_remove_dups, !elem_of_app. tauto.
Qed.

(** Merging two tables in either order gives the same column list,
    and the same reindexed rows: only the two blocks of rows change
    places. *)
Theorem concat_dfs_order_of_files (A B : DataFrame) :
  NoDup (columns A) -> NoDup (columns B) ->
  exists M M' ra rb,
    _concat_dfs [A; B] = Ok M /\ _concat_dfs [B; A] = Ok M'
    /\ columns M = columns M'
    /\ length ra = length (rows A) /\ length rb = length (rows B)
    /\ rows M = ra ++ rb /\ rows M' = rb ++ ra.
Proof.
  intros HA HB.
  set (cols := merged_columns A B).
  set (ra := map (fun row => map (project (columns A) row) cols) (rows A)).
  set (rb := map (fun row => map (project (columns B) row) cols) (rows B)).
  exists {| columns := cols; rows := ra ++ rb |},
         {| columns := cols; rows := rb ++ ra |}, ra, rb.
  split; [| split].
  - unfold _concat_dfs. cbn [map concat]. rewrite app_nil_r.
    fold (merged_columns A B). fold cols. cbn [reindex_all].
    rewrite (reindex_ok cols A HA), (reindex_ok cols B HB).
    cbn [map concat rows]. by rewrite app_nil_r.
  - unfold _concat_dfs. cbn [map concat]. rewrite app_nil_r.
    rewrite (sorted_union_comm (columns B) (columns A)).
    fold (merged_columns A B). fold cols. cbn [reindex_all].
    rewrite (reindex_ok cols A HA), (reindex_ok cols B HB).
    cbn [map concat rows]. by rewrite app_nil_r.
  - cbn [columns rows]. unfold ra, rb. by rewrite !length_map.
Qed.

Definition table_x_y : DataFrame :=
  {| columns := [lit "X"; lit "Y"];
     rows := [[Str (lit "x1"); Str (lit "y1")]] |}.

Definition table_yz : DataFrame :=
  {| columns := [lit "Y"; lit "Z"];
     rows := [[Str (lit "y2"); Str (lit "z2")]] |}.

Lemma concat_dfs_order_of_files_witness :
  exists M M' ra rb,
    _concat_dfs [table_x_y; table_yz] = Ok M
    /\ _concat_dfs [table_yz; table_x_y] = Ok M'
    /\ columns M = columns M'
    /\ length ra = length (rows table_x_y) /\ length rb = length (rows table_yz)
    /\ rows M = ra ++ rb /\ rows M' = rb ++ ra.
Proof.
  apply (concat_dfs_order_of_files table_x_y table_yz);
    apply (bool_decide_unpack _); vm_compute; reflexivity.
Defined.

(** *** Two files of seven columns *)

Definition merged_header : list text :=
  [lit "*=in existence"; lit "Column 1"; lit "Column 2"; lit "Deletion";
   lit "Effective"; lit "Modifier"; lit "PTP Edit Rationale"].

(** The cells of a seven-column row in the order of [merged_header]. *)
Definition reorder (row : list cell) : list cell :=
  [nth 2 row NaN; nth 0 row NaN; nth 1 row NaN; nth 4 row NaN;
   nth 3 row NaN; nth 5 row NaN; nth 6 row NaN].

Lemma sorted_expected : sorted (remove_dups (expected ++ expected)) = merged_header.
Proof. vm_compute. reflexivity. Qed.

Lemma NoDup_expected : NoDup expected.
Proof. apply (bool_decide_unpack _). vm_compute. reflexivity. Qed.

Lemma project_expected (row : list cell) :
  map (project expected row) merged_header = reorder row.
Proof.
  unfold merged_header, reorder, project. cbn [map].
  repeat match goal with
  | |- context [index_of ?c expected] =>
      let v := eval vm_compute in (index_of c expected) in
      change (index_of c expected) with v
  end.
  reflexivity.
Qed.

Lemma seven_column_merge (pandas : pandas_version) (d1 d2 : DataFrame) :
  length (columns d1) = 7%nat -> length (columns d2) = 7%nat ->
  _concat_dfs [normalise pandas d1; normalise pandas d2]
  = Ok {| columns := merged_header;
          rows := map (fun row => reorder (map (astype_str pandas) row))
                    (rows d1 ++ rows d2) |}.
Proof.
  intros H1 H2.
  assert (C1 : columns (normalise pandas d1) = expected).
  { unfold normalise. cbn [columns]. by rewrite length_map, H1. }
  assert (C2 : columns (normalise pandas d2) = expected).
  { unfold normalise. cbn [columns]. by rewrite length_map, H2. }
  assert (Hrows : forall d,
            map (fun row => map (project expected row) merged_header)
              (rows (normalise pandas d))
            = map (fun row => reorder (map (astype_str pandas) row)) (rows d)).
  { intros d. unfold normalise. cbn [rows]. rewrite map_map.
    apply map_ext. intros row. apply project_expected. }
  unfold _concat_dfs. cbn [map concat]. rewrite app_nil_r, C1, C2.
  rewrite sorted_expected. cbn [reindex_all].
  rewrite (reindex_ok merged_header (normalise pandas d1)),
          (reindex_ok merged_header (normalise pandas d2))
    by (rewrite ?C1, ?C2; apply NoDup_expected).
  rewrite C1, C2, !Hrows. cbn [map concat rows]. rewrite app_nil_r.
  by rewrite map_app.
Qed.

(** When both files hold a table of seven columns, whatever their
    header rows say, the merged table has exactly the seven expected
    columns, in sorted order ([*=in existence] first, then [Column 1],
    [Column 2], [Deletion], [Effective], [Modifier],
    [PTP Edit Rationale]); its rows are the rows of the first file
    followed by the rows of the second, [astype(str)] applied to every
    cell and every cell moved to the place of its column, so that the
    rows of both files are matched by position.  Before pandas 3 no
    cell of the merged table is missing; from pandas 3 on the cells are
    those of the files, missing ones included. *)
Theorem seven_column_files_merge_by_their_position (pandas : pandas_version)
    (d1 d2 : DataFrame) :
  length (columns d1) = 7%nat -> length (columns d2) = 7%nat ->
  rectangular d1 -> rectangular d2 ->
  exists M,
    _concat_dfs [normalise pandas d1; normalise pandas d2] = Ok M
    /\ columns M = merged_header
    /\ rows M = map (fun row => reorder (map (astype_str pandas) row))
                  (rows d1 ++ rows d2)
    /\ rectangular M
    /\ (pandas = Pandas2 -> no_nan M)
    /\ (pandas = Pandas3 -> rows M = map reorder (rows d1 ++ rows d2)).
Proof.
  intros H1 H2 R1 R2.
  eexists. split; [by apply seven_column_merge |].
  split; [done |]. split; [done |].
  assert (Hwide : forall r0, In r0 (rows d1 ++ rows d2) ->
                             length (map (astype_str pandas) r0) = 7%nat).
  { intros r0 Hr0. rewrite length_map. apply in_app_or in Hr0 as [Hr0 | Hr0].
    - unfold rectangular in R1. rewrite Forall_forall in R1.
      rewrite (R1 r0) by by apply list_elem_of_In. done.
    - unfold rectangular in R2. rewrite Forall_forall in R2.
      rewrite (R2 r0) by by apply list_elem_of_In. done. }
  split; [| split].
  - unfold rectangular. cbn [rows columns].
    apply Forall_forall. intros row Hrow. apply list_elem_of_In in Hrow.
    by apply in_map_iff in Hrow as (r0 & <- & Hr0).
  - intros ->. unfold no_nan. cbn [rows].
    apply Forall_forall. intros row Hrow. apply list_elem_of_In in Hrow.
    apply in_map_iff in Hrow as (r0 & <- & Hr0).
    pose proof (Hwide r0 Hr0) as Hlen.
    pose proof (astype_str_no_nan r0) as Hall.
    destruct (map (astype_str Pandas2) r0)
      as [|c0 [|c1 [|c2 [|c3 [|c4 [|c5 [|c6 [|]]]]]]]];
      try discriminate.
    unfold reorder. cbn [nth].
    repeat match goal with
    | H : Forall _ (_ :: _) |- _ => inversion H; subst; clear H
    end.
    repeat constructor; done.
  - intros ->. cbn [rows]. apply map_ext. intros row.
    by rewrite astype_str_pandas3.
Qed.

Definition seven_wide : DataFrame :=
  {| columns := [lit " a"; lit "b"; lit "c"; lit "d"; lit "e"; lit "f"; lit "g"];
     rows := [[Str (lit "1"); Str (lit "2"); Str (lit "3"); NaN;
               Str (lit "5"); Str (lit "6"); Str (lit "7")]] |}.

Lemma seven_column_files_merge_by_their_position_witness :
  exists M,
    _concat_dfs [normalise Pandas3 seven_wide; normalise Pandas3 seven_wide]
    = Ok M
    /\ columns M = merged_header
    /\ rows M = map (fun row => reorder (map (astype_str Pandas3) row))
                  (rows seven_wide ++ rows seven_wide)
    /\ rectangular M
    /\ (Pandas3 = Pandas2 -> no_nan M)
    /\ (Pandas3 = Pandas3
        -> rows M = map reorder (rows seven_wide ++ rows seven_wide)).
Proof.
  apply (seven_column_files_merge_by_their_position Pandas3
           seven_wide seven_wide);
    try reflexivity; by repeat constructor.
Defined.

(** The merged rows of that table under the two pandas. *)
Lemma seven_wide_merged_by_pandas :
  map (fun row => reorder (map (astype_str Pandas2) row)) (rows seven_wide)
  = [[Str (lit "3"); Str (lit "1"); Str (lit "2"); Str (lit "5");
      Str (lit "nan"); Str (lit "6"); Str (lit "7")]]
  /\ map (fun row => reorder (map (astype_str Pandas3) row)) (rows seven_wide)
     = [[Str (lit "3"); Str (lit "1"); Str (lit "2"); Str (lit "5");
         NaN; Str (lit "6"); Str (lit "7")]].
Proof. split; reflexivity. Qed.

End TableFacts.

(** ** What a run has done, read from its status *)
Module RunLogFacts.
Import Text Url Version Candidates Frame Sync SyncFacts.

Section Journal.

Context {World : Type}.
Variable net_fetch : text -> World -> option bytes * World.
Variable is_zipfile : bytes -> bool.
Variable ZipFile : bytes -> option (list (text * option bytes)).
Variable read_excel : bytes -> option DataFrame.
Variable read_csv : bytes -> option DataFrame.
Variable read_fwf : bytes -> option DataFrame.
Variable pandas : pandas_version.
Variable mkdir : World -> bool * World.
Variable csv_write : text -> World -> write_outcome * World.
Variable marker_write : World -> write_outcome * World.

#[local] Abbreviation fetch := (_fetch_zip_via_license net_fetch).
#[local] Abbreviation read_df :=
  (_read_zip_to_df is_zipfile ZipFile read_excel read_csv read_fwf pandas).
#[local] Abbreviation combine :=
  (download_and_combine net_fetch is_zipfile ZipFile read_excel read_csv
     read_fwf pandas).
#[local] Abbreviation csv_path_of := (_combined_csv_path mkdir).
#[local] Abbreviation main :=
  (download_or_skip_both_with_version net_fetch is_zipfile ZipFile
     read_excel read_csv read_fwf pandas mkdir csv_write marker_write).
#[local] Abbreviation run_ :=
  (run net_fetch is_zipfile ZipFile read_excel read_csv read_fwf pandas mkdir
     csv_write marker_write).

Lemma read_ok_truthy (z : option bytes) (df : DataFrame) :
  read_df z = Ok df -> truthy z = true.
Proof.
  unfold _read_zip_to_df. destruct (truthy z); [done |]. discriminate.
Qed.

(** A download step that returns has fetched both files with success,
    in this order, and nothing else. *)
Lemma combine_ok (f1 f2 : text) (st st' : state) (df : DataFrame) :
  combine f1 f2 st = (Ok df, st') ->
  trace st' = trace st ++ [EvFetch f1 true; EvFetch f2 true]
  /\ files st' = files st.
Proof.
  unfold download_and_combine. rewrite (bind_fetch net_fetch).
  unfold bind at 1, lift at 1.
  destruct (read_df (fst (net_fetch f1 (world st)))) as [df1 | e] eqn:H1;
    [| discriminate].
  rewrite (bind_fetch net_fetch). cbn [world files trace].
  unfold bind at 1, lift at 1.
  destruct (read_df (fst (net_fetch f2 _))) as [df2 | e] eqn:H2;
    [| discriminate].
  unfold lift. rewrite (read_ok_truthy _ _ H1), (read_ok_truthy _ _ H2).
  destruct (_concat_dfs [df1; df2]); [| discriminate].
  intros [= _ <-]. cbn [trace files]. by rewrite <- app_assoc.
Qed.

(** A probing loop that accepts a candidate has rejected the ones
    before it and fetched its two files with success. *)
Lemma probe_some_accepted (base : text) (cands : list release) :
  forall st st1 c f1 f2,
    probe net_fetch base cands st = (Ok (Some (c, f1, f2)), st1) ->
    exists pre post fs,
      cands = pre ++ c :: post
      /\ rejected_all base pre fs
      /\ candidate_urls base c = (f1, f2)
      /\ trace st1 = trace st ++ fs ++ [EvFetch f1 true; EvFetch f2 true]
      /\ files st1 = files st.
Proof.
  induction cands as [|c0 cands IH]; intros st st1 c f1 f2; cbn [probe].
  - discriminate.
  - destruct (candidate_urls base c0) as [g1 g2] eqn:Hurls.
    rewrite (bind_fetch net_fetch).
    destruct (truthy (fst (net_fetch g1 (world st)))) eqn:Hb1.
    + rewrite (bind_fetch net_fetch). cbn [world files trace].
      destruct (truthy (fst (net_fetch g2 _))) eqn:Hb2.
      * intros [= <- <- <- <-]. exists [], cands, [].
        cbn [app trace files]. rewrite <- app_assoc.
        repeat split; [constructor | done].
      * intros H.
        destruct (IH _ _ _ _ _ H) as (pre & post & fs & -> & Hrej & Hc & Ht & Hf).
        cbn [trace files] in Ht, Hf.
        exists (c0 :: pre), post, ([EvFetch g1 true; EvFetch g2 false] ++ fs).
        repeat split; [| done | by rewrite Ht, <- !app_assoc | done].
        constructor; [| done]. rewrite Hurls. constructor.
    + intros H.
      destruct (IH _ _ _ _ _ H) as (pre & post & fs & -> & Hrej & Hc & Ht & Hf).
      cbn [trace files] in Ht, Hf.
      exists (c0 :: pre), post, ([EvFetch g1 false] ++ fs).
      repeat split; [| done | by rewrite Ht, <- !app_assoc | done].
      constructor; [| done]. rewrite Hurls. constructor.
Qed.

Lemma to_csv_ok (name : text) (df : DataFrame) (st st' : state) :
  to_csv csv_write name df st = (Ok tt, st') ->
  trace st' = trace st ++ [EvToCsv name Written]
  /\ files st' = set_csv name (Table df) (files st).
Proof.
  unfold to_csv. destruct (files st) as [| m t]; [discriminate |].
  cbn [write_into]. destruct (csv_write name (world st)) as [[] w];
    [| discriminate ..].
  by intros [= <-].
Qed.

Lemma write_local_version_ok (y q v r : Z) (st st' : state) :
  _write_local_version marker_write y q v r st = (Ok tt, st') ->
  trace st' = trace st ++ [EvWriteVersion (version_line y q v r) Written]
  /\ files st' = set_marker (Content (version_line y q v r)) (files st).
Proof.
  unfold _write_local_version. destruct (files st) as [| m t]; [discriminate |].
  cbn [write_into]. destruct (marker_write (world st)) as [[] w];
    [| discriminate ..].
  by intros [= <-].
Qed.

(** The three accounts of a run that returns: nothing was written; the
    release of the start was downloaded from the base URL; or an
    accepted candidate was downloaded. *)
Inductive account (base : text) (d : disk) (start : release)
    : text -> text -> @state World -> Prop :=
| account_up_to_date p st :
    combined_csv_name base = Ok p ->
    is_Some (csv_files d !! p) ->
    rejected_all base (let '(y, q, v, r) := start in candidates y q v r)
      (trace st) ->
    files st = d ->
    account base d start p msg_up_to_date st
| account_downloaded p st y q v r evs df :
    start = (y, q, v, r) ->
    combined_csv_name base = Ok p ->
    csv_files d !! p = None ->
    rejected_all base (candidates y q v r) evs ->
    trace st = evs ++ [EvFetch (_with_f base 1) true;
                       EvFetch (_with_f base 2) true;
                       EvToCsv p Written;
                       EvWriteVersion (version_line y q v r) Written] ->
    files st = Dir (Content (version_line y q v r))
                 (<[p := Table df]> (csv_files d)) ->
    account base d start p (msg_downloaded y q v r) st
| account_updated p st y q v r pre post cy cq cv cr f1 f2 evs df :
    start = (y, q, v, r) ->
    candidates y q v r = pre ++ (cy, cq, cv, cr) :: post ->
    candidate_urls base (cy, cq, cv, cr) = (f1, f2) ->
    combined_csv_name f1 = Ok p ->
    rejected_all base pre evs ->
    trace st = evs ++ [EvFetch f1 true; EvFetch f2 true;
                       EvFetch f1 true; EvFetch f2 true;
                       EvToCsv p Written;
                       EvWriteVersion (version_line cy cq cv cr) Written] ->
    files st = Dir (Content (version_line cy cq cv cr))
                 (<[p := Table df]> (csv_files d)) ->
    account base d start p (msg_updated cy cq cv cr) st.

(** The account of a run that returns. *)
Lemma run_account (base : text) (w : World) (d : disk)
    (p msg : text) (st : state) :
  run_ base w d = (Ok (p, msg), st) ->
  exists start,
    fst (resolve_local_version base {| world := w; files := d; trace := [] |})
    = Ok start
    /\ account base d start p msg st.
Proof.
  unfold run, download_or_skip_both_with_version.
  set (st0 := {| world := w; files := d; trace := [] |}).
  pose proof (resolve_keeps_state base st0) as Hkeep.
  unfold bind at 1.
  destruct (resolve_local_version base st0) as [[[[[y q] v] r] | e] st1];
    [| discriminate].
  cbn [snd] in Hkeep. subst st1.
  unfold bind at 1.
  destruct (probe net_fetch base (candidates y q v r) st0)
    as [[tgt | e] st2] eqn:Hprobe; [| discriminate].
  pose proof (quiet_probe net_fetch base (candidates y q v r) st0) as [Hf2 _].
  rewrite Hprobe in Hf2. cbn [snd files] in Hf2.
  unfold bind at 1.
  destruct (csv_path_of base st2) as [[csv_path | e] st2'] eqn:Hpath;
    [| discriminate].
  apply csv_path_of_ok in Hpath as (Hpath & Ht2' & Hf2'). rewrite Hf2 in Hf2'.
  change (files st0) with d in Hf2'.
  intros Hrun. exists (y, q, v, r). split; [done |]. revert Hrun.
  destruct tgt as [[[[[[cy cq] cv] cr] f1] f2] |].
  - destruct (probe_some_accepted _ _ _ _ _ _ _ Hprobe)
      as (pre & post & evs & Hc & Hrej & Hurls & Ht2 & _).
    cbn [trace files app] in Ht2.
    unfold bind at 1.
    destruct (combine f1 f2 st2') as [[df | e] st3] eqn:Hcomb; [| discriminate].
    destruct (combine_ok _ _ _ _ _ Hcomb) as [Ht3 Hf3].
    unfold bind at 1.
    destruct (csv_path_of f1 st3) as [[p' | e] st3'] eqn:Hp'; [| discriminate].
    apply csv_path_of_ok in Hp' as (Hp' & Ht3' & Hf3').
    rewrite Hf3, Hf2' in Hf3'. cbn [version_txt csv_files] in Hf3'.
    unfold bind at 1.
    destruct (to_csv csv_write p' df st3') as [[[] | e] st4] eqn:Hcsv;
      [| discriminate].
    destruct (to_csv_ok _ _ _ _ Hcsv) as [Ht4 Hf4].
    unfold bind at 1.
    destruct (_write_local_version marker_write cy cq cv cr st4)
      as [[[] | e] st5] eqn:Hmk; [| discriminate].
    destruct (write_local_version_ok _ _ _ _ _ _ Hmk) as [Ht5 Hf5].
    unfold ret. intros [= <- <- <-].
    eapply account_updated with (pre := pre) (post := post) (evs := evs)
                                (df := df) (f2 := f2); try done.
    + rewrite Ht5, Ht4, Ht3', Ht3, Ht2', Ht2. by rewrite <- !app_assoc.
    + by rewrite Hf5, Hf4, Hf3'.
  - destruct (probe_none_rejected _ _ _ _ _ Hprobe) as (evs & Ht2 & Hrej).
    cbn [trace app] in Ht2.
    rewrite bind_csv_exists. rewrite Hf2'. cbn [csv_files].
    case_bool_decide as Hthere.
    + unfold ret. intros [= <- <- <-].
      apply account_up_to_date; try done; [by rewrite Ht2', Ht2 |].
      rewrite Hf2'. by destruct (holds_file_is_dir _ _ Hthere) as (m & t & ->).
    + unfold _pair_f1_f2. unfold bind at 1.
      destruct (combine (_with_f base 1) (_with_f base 2) st2')
        as [[df | e] st3] eqn:Hcomb; [| discriminate].
      destruct (combine_ok _ _ _ _ _ Hcomb) as [Ht3 Hf3].
      unfold bind at 1.
      destruct (to_csv csv_write csv_path df st3) as [[[] | e] st4] eqn:Hcsv;
        [| discriminate].
      destruct (to_csv_ok _ _ _ _ Hcsv) as [Ht4 Hf4].
      unfold bind at 1.
      destruct (_write_local_version marker_write y q v r st4)
        as [[[] | e] st5] eqn:Hmk; [| discriminate].
      destruct (write_local_version_ok _ _ _ _ _ _ Hmk) as [Ht5 Hf5].
      unfold ret. intros [= <- <- <-].
      eapply account_downloaded with (evs := evs) (df := df); try done.
      * by apply eq_None_not_Some.
      * rewrite Ht5, Ht4, Ht3, Ht2', Ht2. by rewrite <- !app_assoc.
      * by rewrite Hf5, Hf4, Hf3, Hf2'.
Qed.



(** *** Bounds on what a run does *)











(** The writes at the end of a run: none; a table write that failed;
    or a table write followed by the marker write.  Tables under other
    names are left as they were. *)
Definition writes (st0 st : @state World) (ws : list event) : Prop :=
  (ws = [] /\ made (files st0) (files st))
  \/ exists name o,
       (ws = [EvToCsv name o]
        \/ exists line o', o = Written
                           /\ ws = [EvToCsv name o; EvWriteVersion line o'])
       /\ forall n, n <> name ->
                    csv_files (files st) !! n = csv_files (files st0) !! n.

Definition tidy (n : nat) (m : @M World (text * text)) : Prop :=
  forall st0,
    exists fs ws,
      trace (snd (m st0)) = trace st0 ++ fs ++ ws
      /\ Forall is_fetch fs /\ (length fs <= n)%nat
      /\ writes st0 (snd (m st0)) ws.


Lemma tidy_weaken (n n' : nat) (m : M (text * text)) :
  (n <= n')%nat -> tidy n m -> tidy n' m.
Proof.
  intros Hle H st. destruct (H st) as (fs & ws & Ht & Hfs & Hlen & Hw).
  exists fs, ws. repeat split; [done .. | lia | done].
Qed.

Lemma tidy_persist (name : text) (df : DataFrame) (y q v r : Z) (msg : text) :
  tidy 0 (bind (to_csv csv_write name df) (fun _ =>
          bind (_write_local_version marker_write y q v r) (fun _ =>
          ret (name, msg)))).
Proof.
  intros st0. exists []. unfold bind, to_csv.
  destruct (write_into (files st0) (world st0) (csv_write name))
    as [o w] eqn:Hcsv.
  destruct o; cbn [fst snd].
  - destruct (files st0) as [| m0 t0] eqn:Hd0; [discriminate |].
    unfold _write_local_version. cbn [world files trace log set_csv write_into].
    destruct (marker_write w) as [o' w'] eqn:Hmk.
    exists [EvToCsv name Written; EvWriteVersion (version_line y q v r) o'].
    split; [destruct o'; cbn [snd trace log app ret]; by rewrite <- app_assoc |].
    split; [constructor |]. split; [done |].
    right. exists name, Written.
    split; [right; by exists (version_line y q v r), o' |].
    intros n Hn. rewrite Hd0.
    destruct o'; cbn [snd files log csv_files set_marker set_csv ret];
      by rewrite lookup_insert_ne.
  - exists [EvToCsv name FailedUntouched]. cbn [snd trace log app files].
    repeat split; [constructor | done |].
    right. exists name, FailedUntouched. split; [by left | done].
  - exists [EvToCsv name FailedPartial]. cbn [snd trace log app files].
    repeat split; [constructor | done |].
    right. exists name, FailedPartial. split; [by left |].
    intros n Hn. cbn [snd files log].
    destruct (files st0) as [| m0 t0]; [done |]. cbn [csv_files set_csv].
    by rewrite lookup_insert_ne.
Qed.



(** *** A table write that fails half-way *)

(** A computation that only adds to the trace, and that, when what it
    added ends with a table write that failed after truncating the file,
    has raised [OSError] and left that file partial in [out_dir], the
    rest of the disk being as before. *)
Definition settled (m : @M World (text * text)) : Prop :=
  forall st0,
    exists ext,
      trace (snd (m st0)) = trace st0 ++ ext
      /\ forall name pre,
           ext = pre ++ [EvToCsv name FailedPartial] ->
           fst (m st0) = Raise OSError
           /\ files (snd (m st0))
              = Dir (version_txt (files st0))
                  (<[name := Partial]> (csv_files (files st0))).

Lemma fetches_end_with_a_fetch (fs pre : list event) (e : event) :
  Forall is_fetch fs -> fs = pre ++ [e] -> is_fetch e.
Proof.
  intros Hfs ->. apply Forall_app in Hfs as [_ H]. by inversion H.
Qed.

Lemma settled_after_calm {A : Type} (m : M A) (k : A -> M (text * text)) :
  calm m -> (forall a, settled (k a)) -> settled (bind m k).
Proof.
  intros Hm Hk st0. unfold bind. specialize (Hm st0).
  destruct (m st0) as [[a | e] st1]; cbn [snd] in Hm;
    destruct Hm as (Hf & fs & Ht & Hfs).
  - destruct (Hk a st1) as (ext & Hext & Hlast).
    exists (fs ++ ext). split; [by rewrite Hext, Ht, app_assoc |].
    intros name pre E.
    rewrite <- (made_version_txt _ _ Hf), <- (made_csv_files _ _ Hf).
    revert Hext Hlast E. induction ext as [|x ext' _] using rev_ind;
      intros Hext Hlast E.
    + rewrite app_nil_r in E.
      by destruct (fetches_end_with_a_fetch _ _ _ Hfs E).
    + rewrite app_assoc in E. apply app_inj_tail in E as [_ ->].
      by apply (Hlast name ext').
  - cbn [fst snd]. exists fs. split; [done |]. intros name pre E.
    by destruct (fetches_end_with_a_fetch _ _ _ Hfs E).
Qed.

Lemma settled_persist (name : text) (df : DataFrame) (y q v r : Z) (msg : text) :
  settled (bind (to_csv csv_write name df) (fun _ =>
           bind (_write_local_version marker_write y q v r) (fun _ =>
           ret (name, msg)))).
Proof.
  intros st0. unfold bind, to_csv.
  destruct (write_into (files st0) (world st0) (csv_write name))
    as [o w] eqn:Hcsv.
  destruct o; cbn [fst snd].
  - unfold _write_local_version. cbn [world files trace log].
    destruct (write_into _ w marker_write) as [o' w'] eqn:Hmk.
    exists [EvToCsv name Written; EvWriteVersion (version_line y q v r) o'].
    split; [destruct o'; cbn [snd trace log app ret]; by rewrite <- app_assoc |].
    intros name' pre E.
    change [EvToCsv name Written; EvWriteVersion (version_line y q v r) o']
      with ([EvToCsv name Written] ++ [EvWriteVersion (version_line y q v r) o'])
      in E.
    by apply app_inj_tail in E as [_ [=]].
  - exists [EvToCsv name FailedUntouched]. split; [done |].
    intros name' pre E.
    change [EvToCsv name FailedUntouched]
      with ([] ++ [EvToCsv name FailedUntouched]) in E.
    by apply app_inj_tail in E as [_ [=]].
  - exists [EvToCsv name FailedPartial]. split; [done |].
    intros name' pre E.
    change [EvToCsv name FailedPartial]
      with ([] ++ [EvToCsv name FailedPartial]) in E.
    apply app_inj_tail in E as [_ [= <-]]. split; [done |].
    cbn [files log]. by destruct (files st0).
Qed.

Lemma settled_main (base : text) : settled (main base).
Proof.
  unfold download_or_skip_both_with_version.
  apply settled_after_calm; [apply quiet_calm, quiet_resolve |].
  intros [[[y q] v] r].
  apply settled_after_calm; [apply quiet_calm, quiet_probe |]. intros tgt.
  apply settled_after_calm; [apply calm_csv_path_of |]. intros csv_path.
  destruct tgt as [[[[[[cy cq] cv] cr] f1] f2] |].
  - apply settled_after_calm; [apply quiet_calm, quiet_combine |]. intros df.
    apply settled_after_calm; [apply calm_csv_path_of |]. intros p.
    apply settled_persist.
  - intros st0. rewrite !bind_csv_exists.
    case_bool_decide as Hthere.
    + exists []. split; [by rewrite app_nil_r |].
      intros name pre E. by destruct pre.
    + destruct (_pair_f1_f2 base) as [f1 f2].
      apply (settled_after_calm (combine f1 f2));
        [apply quiet_calm, quiet_combine |].
      intros df. apply settled_persist.
Qed.

(** A run in which no candidate is accepted and the table of the base
    URL is on the disk, in whatever state, ends after probing. *)
Lemma run_with_a_file_in_place (base : text) (w : World) (d : disk)
    (p : text) (y q v r : Z) (st1 : state) :
  combined_csv_name base = Ok p ->
  is_Some (csv_files d !! p) ->
  fst (resolve_local_version base {| world := w; files := d; trace := [] |})
  = Ok (y, q, v, r) ->
  probe net_fetch base (candidates y q v r)
    {| world := w; files := d; trace := [] |} = (Ok None, st1) ->
  run_ base w d = (Ok (p, msg_up_to_date), st1) /\ files st1 = d.
Proof.
  intros Hpath Hthere Hresolve Hprobe.
  set (st0 := {| world := w; files := d; trace := [] |}) in *.
  assert (Hfiles : files st1 = d).
  { pose proof (quiet_probe net_fetch base (candidates y q v r) st0) as [Hf _].
    by rewrite Hprobe in Hf. }
  split; [| done].
  unfold run, download_or_skip_both_with_version. fold st0.
  assert (Hstart : resolve_local_version base st0 = (Ok (y, q, v, r), st0)).
  { pose proof (resolve_keeps_state base st0) as Hs.
    destruct (resolve_local_version base st0) as [r0 s0].
    cbn [fst snd] in Hresolve, Hs. by subst. }
  rewrite (bind_ok _ _ _ _ _ Hstart).
  rewrite (bind_ok _ _ _ _ _ Hprobe).
  destruct (holds_file_is_dir _ _ Hthere) as (m & t & Hdir).
  rewrite (bind_ok _ _ st1 st1 p)
    by (rewrite (csv_path_of_dir mkdir base st1 m t), Hpath; congruence).
  rewrite bind_csv_exists, Hfiles.
  by rewrite bool_decide_eq_true_2.
Qed.

(** A table write that fails after truncating the file is not
    repaired.  The run in which it happens raises [OSError], leaves the
    partial file on the disk and every other file, the marker included,
    as it was.  When that file is the table of the base URL, a later
    run in which no candidate is accepted finds it in place, returns it
    with the status "Up to date" and writes nothing: the file stays
    partial. *)
Theorem partial_table_is_taken_for_current (base : text) (w w' : World)
    (d : disk) (p : text) (pre : list event) (y q v r : Z) (st1 : state) :
  let out := run_ base w d in
  let d' := files (snd out) in
  trace (snd out) = pre ++ [EvToCsv p FailedPartial] ->
  combined_csv_name base = Ok p ->
  fst (resolve_local_version base {| world := w'; files := d'; trace := [] |})
  = Ok (y, q, v, r) ->
  probe net_fetch base (candidates y q v r)
    {| world := w'; files := d'; trace := [] |} = (Ok None, st1) ->
  fst out = Raise OSError
  /\ d' = Dir (version_txt d) (<[p := Partial]> (csv_files d))
  /\ run_ base w' d' = (Ok (p, msg_up_to_date), st1)
  /\ csv_files (files st1) !! p = Some Partial.
Proof.
  intros out d' Htrace Hpath Hresolve Hprobe.
  destruct (settled_main base {| world := w; files := d; trace := [] |})
    as (ext & Hext & Hlast).
  fold (run_ base w d) in Hext, Hlast. fold out in Hext, Hlast.
  cbn [trace files app] in Hext, Hlast.
  rewrite Htrace in Hext. symmetry in Hext.
  destruct (Hlast p pre Hext) as [Hres Hfiles]. fold d' in Hfiles.
  split; [done |]. split; [done |].
  assert (Hthere : csv_files d' !! p = Some Partial).
  { rewrite Hfiles. cbn [csv_files]. apply lookup_insert_eq. }
  destruct (run_with_a_file_in_place base w' d' p y q v r st1 Hpath
              ltac:(by rewrite Hthere) Hresolve Hprobe) as [Hrun Hsame].
  split; [done |]. by rewrite Hsame.
Qed.

(** *** Where the table is written *)

(** A computation whose table writes all go to the name worked out
    from some URL. *)
Definition named (m : @M World (text * text)) : Prop :=
  forall st0,
    exists ext,
      trace (snd (m st0)) = trace st0 ++ ext
      /\ forall name o,
           EvToCsv name o ∈ ext -> exists url, combined_csv_name url = Ok name.

Lemma fetches_hold_no_write (fs : list event) (name : text)
    (o : write_outcome) :
  Forall is_fetch fs -> EvToCsv name o ∉ fs.
Proof.
  intros Hfs Hin. rewrite Forall_forall in Hfs. by destruct (Hfs _ Hin).
Qed.

Lemma named_after_calm {A : Type} (m : M A) (k : A -> M (text * text)) :
  calm m -> (forall a, named (k a)) -> named (bind m k).
Proof.
  intros Hm Hk st0. unfold bind. specialize (Hm st0).
  destruct (m st0) as [[a | e] st1]; cbn [snd] in Hm;
    destruct Hm as (_ & fs & Ht & Hfs).
  - destruct (Hk a st1) as (ext & Hext & Hnames).
    exists (fs ++ ext). split; [by rewrite Hext, Ht, app_assoc |].
    intros name o Hin. apply elem_of_app in Hin as [Hin | Hin].
    + by destruct (fetches_hold_no_write fs name o Hfs).
    + by eapply Hnames.
  - cbn [snd]. exists fs. split; [done |]. intros name o Hin.
    by destruct (fetches_hold_no_write fs name o Hfs).
Qed.

Lemma named_after_path (url : text) (k : text -> M (text * text)) :
  (forall p, combined_csv_name url = Ok p -> named (k p)) ->
  named (bind (csv_path_of url) k).
Proof.
  intros Hk st0. unfold bind.
  destruct (calm_csv_path_of mkdir url st0) as (_ & fs & Ht & Hfs).
  destruct (csv_path_of url st0) as [[p | e] st1] eqn:Hpath; cbn [snd] in Ht.
  - apply csv_path_of_ok in Hpath as (Hname & Htrace & _).
    destruct (Hk p Hname st1) as (ext & Hext & Hnames).
    exists ext. split; [by rewrite Hext, Htrace | done].
  - cbn [snd]. exists fs. split; [done |]. intros name o Hin.
    by destruct (fetches_hold_no_write fs name o Hfs).
Qed.

Lemma named_persist (url name : text) (df : DataFrame) (y q v r : Z)
    (msg : text) :
  combined_csv_name url = Ok name ->
  named (bind (to_csv csv_write name df) (fun _ =>
         bind (_write_local_version marker_write y q v r) (fun _ =>
         ret (name, msg)))).
Proof.
  intros Hname st0.
  destruct (tidy_persist name df y q v r msg st0)
    as (fs & ws & Ht & Hfs & Hlen & Hw).
  destruct fs; [| cbn in Hlen; lia]. cbn [app] in Ht.
  exists ws. split; [done |]. intros name' o Hin. exists url.
  destruct Hw as [[-> _] | (n & o0 & Hws & _)];
    [by apply elem_of_nil in Hin |].
  revert Ht Hin. unfold bind, to_csv.
  destruct (write_into (files st0) (world st0) (csv_write name)) as [o1 w1].
  destruct Hws as [-> | (line & o' & -> & ->)].
  - intros Ht Hin. apply list_elem_of_singleton in Hin as [= -> ->].
    destruct o1; cbn [snd trace log] in Ht;
      [| apply app_inv_head in Ht; by injection Ht as ->
       | apply app_inv_head in Ht; by injection Ht as ->].
    unfold _write_local_version in Ht.
    destruct (write_into _ _ _) as [[] ?]; cbn [snd trace log ret] in Ht;
      rewrite <- app_assoc in Ht; apply app_inv_head in Ht; discriminate Ht.
  - intros Ht Hin.
    apply elem_of_cons in Hin as [[= -> ->] | Hin];
      [| apply list_elem_of_singleton in Hin; discriminate].
    destruct o1; cbn [snd trace log] in Ht;
      [| apply app_inv_head in Ht; discriminate Ht
       | apply app_inv_head in Ht; discriminate Ht].
    unfold _write_local_version in Ht.
    destruct (write_into _ _ _) as [[] ?]; cbn [snd trace log ret] in Ht;
      rewrite <- app_assoc in Ht; apply app_inv_head in Ht;
      by injection Ht as ->.
Qed.

Lemma named_main (base : text) : named (main base).
Proof.
  unfold download_or_skip_both_with_version.
  apply named_after_calm; [apply quiet_calm, quiet_resolve |].
  intros [[[y q] v] r].
  apply named_after_calm; [apply quiet_calm, quiet_probe |]. intros tgt.
  apply named_after_path. intros csv_path Hpath.
  destruct tgt as [[[[[[cy cq] cv] cr] f1] f2] |].
  - apply named_after_calm; [apply quiet_calm, quiet_combine |]. intros df.
    apply named_after_path. intros p Hp. by apply (named_persist f1).
  - intros st0. rewrite !bind_csv_exists.
    case_bool_decide as Hthere.
    + exists []. split; [by rewrite app_nil_r |].
      intros name o Hin. by apply elem_of_nil in Hin.
    + destruct (_pair_f1_f2 base) as [f1 f2].
      apply (named_after_calm (combine f1 f2));
        [apply quiet_calm, quiet_combine |].
      intros df. by apply (named_persist base).
Qed.

(** [_combined_csv_path] works the name out before it makes the
    directory.  It raises [AttributeError] exactly when the URL has no
    [file=] followed by a character other than [&], and [OSError]
    exactly when the name can be worked out, [out_dir] does not exist
    and cannot be made.  When it returns, [out_dir] exists with the
    files it had, none if it had to be made, the trace is as before,
    and the name ends in [-f1f2.csv], holds no slash and is not
    [version.txt].  Every table write of a run goes to such a name: the
    table is written directly inside [out_dir] and never over the
    marker. *)
Theorem table_is_written_inside_out_dir (base : text) (w : World) (d : disk) :
  (forall url st e,
     fst (csv_path_of url st) = Raise e <->
     (e = AttributeError /\ search match_file_param true url = None)
     \/ (e = OSError /\ search match_file_param true url <> None
         /\ files st = NoDir /\ fst (mkdir (world st)) = false))
  /\ (forall url st name,
        fst (csv_path_of url st) = Ok name ->
        PathFacts.safe_name name
        /\ files (snd (csv_path_of url st))
           = Dir (version_txt (files st)) (csv_files (files st))
        /\ trace (snd (csv_path_of url st)) = trace st)
  /\ (forall name o,
        EvToCsv name o ∈ trace (snd (run_ base w d)) ->
        PathFacts.safe_name name).
Proof.
  split; [| split].
  - intros url st e. unfold _combined_csv_path, bind, lift, ret, out_dir_mkdir.
    destruct (combined_csv_name url) as [name | e0] eqn:Hname.
    + assert (Hsome : search match_file_param true url <> None).
      { intros Hnone.
        assert (H : combined_csv_name url = Raise AttributeError)
          by by apply PathFacts.csv_name_raises.
        congruence. }
      destruct (files st) as [| m t].
      * destruct (mkdir (world st)) as [[] w1]; cbn [fst].
        -- split; [discriminate |].
           intros [[_ ?] | (_ & _ & _ & ?)]; [done | discriminate].
        -- split; [intros [= <-]; right; by repeat split |].
           by intros [[_ ?] | (-> & _)].
      * cbn [fst]. split; [discriminate |].
        intros [[_ ?] | (_ & _ & ? & _)]; [done | discriminate].
    + cbn [fst]. apply PathFacts.csv_name_raises in Hname as [-> Hnone].
      split; [intros [= <-]; by left |].
      intros [[-> _] | (_ & ? & _)]; done.
  - intros url st name Hok.
    destruct (csv_path_of url st) as [r st'] eqn:Hpath. cbn [fst snd] in *.
    subst r. apply csv_path_of_ok in Hpath as (Hname & Ht & Hf).
    split; [by eapply PathFacts.csv_name_is_safe | done].
  - intros name o Hin.
    destruct (named_main base {| world := w; files := d; trace := [] |})
      as (ext & Hext & Hnames).
    fold (run_ base w d) in Hext. cbn [trace app] in Hext.
    rewrite Hext in Hin. destruct (Hnames name o Hin) as [url Hurl].
    by eapply PathFacts.csv_name_is_safe.
Qed.

(** The start of a run is read from the disk alone. *)
Lemma resolve_reads_files (base : text) (st st' : @state World) :
  files st = files st' ->
  fst (resolve_local_version base st) = fst (resolve_local_version base st').
Proof.
  intros E. unfold resolve_local_version, bind, _read_local_version.
  rewrite E. destruct (version_txt (files st')) as [| | txt]; try done.
  by destruct (match_version_line (strip txt)).
Qed.

Lemma resolve_of_written_marker (base : text) (st : @state World)
    (y q v r : Z) :
  version_txt (files st) = Content (version_line y q v r) ->
  1000 <= y <= 9999 -> 0 <= q <= 9 -> 0 <= v <= 999 -> 0 <= r ->
  fst (resolve_local_version base st) = Ok (y, q, v, r).
Proof.
  intros E Hy Hq Hv Hr.
  unfold resolve_local_version, bind, _read_local_version. rewrite E.
  by rewrite (ReleaseFacts.version_line_read_back y q v r Hy Hq Hv Hr).
Qed.

Lemma candidates_in_range (y q v r : Z) (c : release) :
  1000 <= y <= 9998 -> 1 <= q <= 4 -> 0 <= v <= 998 -> 0 <= r ->
  c ∈ candidates y q v r ->
  let '(cy, cq, cv, cr) := c in
  1000 <= cy <= 9999 /\ 1 <= cq <= 4 /\ 0 <= cv <= 999 /\ 0 <= cr.
Proof.
  intros Hy Hq Hv Hr.
  unfold candidates, _next_quarter. rewrite CandidateFacts.range_five.
  intros Hin. destruct (Z.ltb_spec q 4) as [Hq' | Hq'];
    cbn [map app] in Hin;
    repeat (apply elem_of_cons in Hin as [-> | Hin]; [cbn; lia |]);
    by apply elem_of_nil in Hin.
Qed.

(** Runs chain through the marker.  Let a run start from a release
    with a four-digit year below 9999, a quarter in 1..4 and a version
    below 999, and let it return.  Then the next run on the disk it
    leaves, whatever the world, starts from the release that the status
    names: from the accepted candidate after "Updated to", and from the
    same start after "Downloaded initial version" and after
    "Up to date".  The start of the next run is again in these ranges
    but for the two upper bounds. *)
Theorem next_run_starts_from_the_named_release (base : text) (w : World)
    (d : disk) (p msg : text) (st : state) (y q v r : Z) :
  run_ base w d = (Ok (p, msg), st) ->
  fst (resolve_local_version base {| world := w; files := d; trace := [] |})
  = Ok (y, q, v, r) ->
  1000 <= y <= 9998 -> 1 <= q <= 4 -> 0 <= v <= 998 -> 0 <= r ->
  exists ny nq nv nr,
    (forall w' : World,
       fst (resolve_local_version base
              {| world := w'; files := files st; trace := [] |})
       = Ok (ny, nq, nv, nr))
    /\ (((msg = msg_up_to_date \/ msg = msg_downloaded y q v r)
         /\ (ny, nq, nv, nr) = (y, q, v, r))
        \/ (msg = msg_updated ny nq nv nr
            /\ (ny, nq, nv, nr) ∈ candidates y q v r))
    /\ 1000 <= ny <= 9999 /\ 1 <= nq <= 4 /\ 0 <= nv <= 999 /\ 0 <= nr.
Proof.
  intros Hrun Hstart Hy Hq Hv Hr.
  destruct (run_account _ _ _ _ _ _ Hrun) as (start & Hs & Hacc).
  rewrite Hstart in Hs. injection Hs as <-.
  destruct Hacc as [p st Hp Hthere Hrej Hf
                   | p st y0 q0 v0 r0 evs df E Hp Hnone Hrej Ht Hf
                   | p st y0 q0 v0 r0 pre post cy cq cv cr f1 f2 evs df
                       E Hc Hurls Hp Hrej Ht Hf].
  - exists y, q, v, r. split; [| split; [left; split; [by left | done] | lia]].
    intros w'. rewrite <- Hstart. apply resolve_reads_files.
    by rewrite Hf.
  - injection E as <- <- <- <-. exists y, q, v, r.
    split; [| split; [left; split; [by right | done] | lia]].
    intros w'. apply resolve_of_written_marker; [by rewrite Hf | lia ..].
  - injection E as <- <- <- <-.
    assert (Hin : (cy, cq, cv, cr) ∈ candidates y q v r).
    { rewrite Hc. apply elem_of_app. right. apply elem_of_cons. by left. }
    pose proof (candidates_in_range y q v r _ Hy Hq Hv Hr Hin) as Hrange.
    cbn in Hrange.
    exists cy, cq, cv, cr. split; [| split; [by right | lia]].
    intros w'. apply resolve_of_written_marker; [by rewrite Hf | lia ..].
Qed.

End Journal.

(** *** Releases only advance *)

(** The order of releases: by year, then quarter, then version, then
    revision. *)
Definition release_lt (a b : release) : Prop :=
  let '(y, q, v, r) := a in
  let '(y', q', v', r') := b in
  y < y' \/ (y = y' /\ (q < q' \/ (q = q' /\ (v < v' \/ (v = v' /\ r < r'))))).

(** Every candidate that [download_or_skip_both_with_version]
    builds is a later release than the one it starts from, whatever the
    start: a later revision, a later version, or a later quarter; so an
    update never moves the marker backwards or leaves it in place. *)
Theorem candidates_are_later_releases (y q v r : Z) (c : release) :
  c ∈ candidates y q v r -> release_lt (y, q, v, r) c.
Proof.
  unfold candidates, _next_quarter. rewrite CandidateFacts.range_five.
  intros Hin. destruct (Z.ltb_spec q 4) as [Hq | Hq];
    cbn [map app] in Hin;
    repeat (apply elem_of_cons in Hin as [-> | Hin]; [cbn; lia |]);
    by apply elem_of_nil in Hin.
Qed.

Lemma candidates_are_later_releases_witness :
  release_lt (2025, 4, 313, 0) (2026, 1, 313, 0).
Proof.
  apply (candidates_are_later_releases 2025 4 313 0 (2026, 1, 313, 0)).
  apply (bool_decide_unpack _). vm_compute. reflexivity.
Defined.

(** *** Concrete runs *)


Lemma next_run_starts_from_the_named_release_witness :
  exists ny nq nv nr,
    (forall w' : unit,
       fst (resolve_local_version base_url
              {| world := w'; files := disk_after_update; trace := [] |})
       = Ok (ny, nq, nv, nr))
    /\ (((msg_updated 2025 4 313 1 = msg_up_to_date
          \/ msg_updated 2025 4 313 1 = msg_downloaded 2025 4 313 0)
         /\ (ny, nq, nv, nr) = (2025, 4, 313, 0))
        \/ (msg_updated 2025 4 313 1 = msg_updated ny nq nv nr
            /\ (ny, nq, nv, nr) ∈ candidates 2025 4 313 0))
    /\ 1000 <= ny <= 9999 /\ 1 <= nq <= 4 /\ 0 <= nv <= 999 /\ 0 <= nr.
Proof.
  apply (next_run_starts_from_the_named_release
           (serves (base_files ++ r1_files)) (fun _ => true)
           (fun _ => Some text_member) (fun _ => None)
           (fun _ => Some small_table) (fun _ => None)
           Pandas2 (fun w => (true, w))
           (fun _ w => (Written, w)) (fun w => (Written, w))
           base_url tt empty_disk (lit "ccipra-v313r1-f1f2.csv")
           (msg_updated 2025 4 313 1)
           (snd (run_on (base_files ++ r1_files) text_member empty_disk))
           2025 4 313 0);
    [vm_compute; reflexivity | vm_compute; reflexivity | lia ..].
Defined.

Lemma table_is_written_inside_out_dir_witness :
  PathFacts.safe_name (lit "ccipra-v313r1-f1f2.csv").
Proof.
  apply (proj2 (proj2 (table_is_written_inside_out_dir
                         (serves (base_files ++ r1_files)) (fun _ => true)
                         (fun _ => Some text_member) (fun _ => None)
                         (fun _ => Some small_table) (fun _ => None)
                         Pandas2 (fun w => (true, w))
                         (fun _ w => (Written, w)) (fun w => (Written, w))
                         base_url tt empty_disk))
           (lit "ccipra-v313r1-f1f2.csv") Written).
  apply (list_elem_of_lookup_2 _ 4%nat). vm_compute. reflexivity.
Defined.

(** A file system on which every table write fails half-way. *)
Definition run_on_failing_disk (d : disk) : result (text * text) * @state unit :=
  run (serves base_files) (fun _ => true) (fun _ => Some text_member)
    (fun _ => None) (fun _ => Some small_table) (fun _ => None)
    Pandas2 (fun w => (true, w))
    (fun _ w => (FailedPartial, w)) (fun w => (Written, w))
    base_url tt d.

Lemma partial_table_is_taken_for_current_witness :
  let out := run_on_failing_disk empty_disk in
  let d' := files (snd out) in
  let st1 := snd (probe (serves base_files) base_url (candidates 2025 4 313 0)
                    {| world := tt; files := d'; trace := [] |}) in
  fst out = Raise OSError
  /\ d' = Dir (version_txt empty_disk)
            (<[lit "ccipra-v313r0-f1f2.csv" := Partial]> (csv_files empty_disk))
  /\ run_on_failing_disk d'
     = (Ok (lit "ccipra-v313r0-f1f2.csv", msg_up_to_date), st1)
  /\ csv_files (files st1) !! lit "ccipra-v313r0-f1f2.csv" = Some Partial.
Proof.
  intros out d' st1.
  apply (partial_table_is_taken_for_current
           (serves base_files) (fun _ => true) (fun _ => Some text_member)
           (fun _ => None) (fun _ => Some small_table) (fun _ => None)
           Pandas2 (fun w => (true, w))
           (fun _ w => (FailedPartial, w)) (fun w => (Written, w))
           base_url tt tt empty_disk (lit "ccipra-v313r0-f1f2.csv")
           (firstn 10 (trace (snd out))) 2025 4 313 0 st1).
  - vm_compute. reflexivity.
  - vm_compute. reflexivity.
  - vm_compute. reflexivity.
  - vm_compute. reflexivity.
Defined.

(** The bound of 18 fetches is reached: a server that has file 1 of
    every candidate but file 2 of the last one only. *)
Definition grudging_server : list text :=
  map (fun c => fst (candidate_urls base_url c)) (candidates 2025 4 313 0)
  ++ [snd (candidate_urls base_url (2026, 1, 313, 0))].

Lemma a_run_can_make_eighteen_fetches :
  let out := run_on grudging_server text_member empty_disk in
  fst out = Ok (lit "ccipra-v313r0-f1f2.csv", msg_updated 2026 1 313 0)
  /\ length (trace (snd out)) = 20%nat
  /\ skipn 18 (trace (snd out))
     = [EvToCsv (lit "ccipra-v313r0-f1f2.csv") Written;
        EvWriteVersion (version_line 2026 1 313 0) Written].
Proof. vm_compute. repeat split; reflexivity. Qed.

End RunLogFacts.

(** ** The combination search *)
Module HomeFacts.
Import Text Cci Home TextFacts StripFacts CciFacts.

#[local] Arguments is_space : simpl never.

(** *** [itertools.combinations] gives the sub-lists of a given length *)

Lemma combinations_sublist {A : Type} (l : list A) :
  forall r s, In s (combinations l r) <-> sublist s l /\ length s = r.
Proof.
  induction l as [|x l IH]; intros r s.
  - destruct r; cbn [combinations In].
    + split.
      * intros [<- | []]. split; [constructor | done].
      * intros [H _]. apply sublist_nil_r in H. by left.
    + split; [done |]. intros [H Hlen]. apply sublist_nil_r in H.
      by subst.
  - destruct r as [|r]; cbn [combinations].
    + cbn [In]. split.
      * intros [<- | []]. split; [apply sublist_nil_l | done].
      * intros [_ Hlen]. destruct s; [by left | discriminate].
    + rewrite in_app_iff, in_map_iff. split.
      * intros [(s' & <- & Hs') | Hs].
        -- apply IH in Hs' as [Hsub <-]. split; [by constructor | done].
        -- apply IH in Hs as [Hsub Hlen]. split; [by constructor | done].
      * intros [Hsub Hlen]. inversion Hsub as [| y s' l' Hsub' | y s' l' Hsub'];
          subst.
        -- left. exists s'. split; [done |]. apply IH. split; [done |].
           cbn [length] in Hlen. lia.
        -- right. apply IH. by split.
Qed.

(** *** The entered codes *)

Definition comma_free (s : text) : Prop := ","%char ∉ s.

(** [sep.join(cs)]. *)
Fixpoint join (sep : text) (cs : list text) : text :=
  match cs with
  | [] => []
  | [c] => c
  | c :: rest => c ++ sep ++ join sep rest
  end.

Lemma split_comma_not_nil (s : text) : split_comma s <> [].
Proof.
  induction s as [|c s IH]; [done |]. cbn [split_comma].
  destruct (Ascii.eqb c ","); [done |]. by destruct (split_comma s).
Qed.

Lemma split_comma_pieces (s : text) : Forall comma_free (split_comma s).
Proof.
  unfold comma_free.
  induction s as [|c s IH]; cbn [split_comma].
  - repeat constructor. by intros H%elem_of_nil.
  - destruct (Ascii.eqb_spec c ",") as [-> | Hc].
    + constructor; [by intros H%elem_of_nil | done].
    + destruct (split_comma s) as [|w ws]; [| inversion IH; subst].
      * repeat constructor. intros H%list_elem_of_singleton. done.
      * constructor; [| done]. intros H%elem_of_cons. by destruct H.
Qed.

Lemma split_comma_one (c : text) : comma_free c -> split_comma c = [c].
Proof.
  unfold comma_free. induction c as [|x c IH]; [done |]. intros H.
  apply not_elem_of_cons in H as [Hx Hc]. cbn [split_comma].
  destruct (Ascii.eqb_spec x ","); [done |]. by rewrite (IH Hc).
Qed.

Lemma split_comma_cons (c rest : text) :
  comma_free c ->
  split_comma (c ++ ","%char :: rest) = c :: split_comma rest.
Proof.
  unfold comma_free. induction c as [|x c IH]; [done |]. intros H.
  apply not_elem_of_cons in H as [Hx Hc]. cbn [app split_comma].
  destruct (Ascii.eqb_spec x ","); [done |]. by rewrite (IH Hc).
Qed.

Definition clean (c : text) : Prop := c <> [] /\ strip c = c /\ comma_free c.

Lemma space_is_not_comma (ws : text) : all_space ws -> comma_free ws.
Proof.
  unfold all_space, comma_free. rewrite forallb_forall. intros H Hin.
  apply list_elem_of_In in Hin. by specialize (H _ Hin).
Qed.

Lemma parse_codes_join (a b : text) (cs : list text) :
  all_space a -> all_space b -> Forall clean cs ->
  forall lead,
    all_space lead ->
    cs <> [] ->
    List.filter nonempty (map strip (split_comma (lead ++ join (a ++ ","%char :: b) cs)))
    = cs.
Proof.
  intros Ha Hb Hcs. induction Hcs as [|c cs (Hne & Hstrip & Hfree) Hcs IH];
    intros lead Hlead Hnil; [done |].
  destruct cs as [|c' cs].
  - cbn [join]. rewrite split_comma_one.
    + assert (E : strip (lead ++ c) = c).
      { pose proof (strip_padded [] lead c) as E. rewrite app_nil_r in E.
        by apply E. }
      cbn [map List.filter]. rewrite E. by destruct c.
    + unfold comma_free in *. rewrite elem_of_app.
      intros [H | H]; [by apply (space_is_not_comma lead) | done].
  - change (join (a ++ ","%char :: b) (c :: c' :: cs))
      with (c ++ (a ++ ","%char :: b) ++ join (a ++ ","%char :: b) (c' :: cs)).
    replace (lead ++ c ++ (a ++ ","%char :: b) ++ join (a ++ ","%char :: b) (c' :: cs))
      with ((lead ++ c ++ a) ++ ","%char :: (b ++ join (a ++ ","%char :: b) (c' :: cs)))
      by (by rewrite <- !app_assoc).
    rewrite split_comma_cons.
    + cbn [map List.filter]. rewrite (strip_padded a lead c); try done.
      destruct c as [|x c]; [done |]. cbn [nonempty]. f_equal.
      by apply IH.
    + unfold comma_free in *. rewrite !elem_of_app.
      intros [H | [H | H]]; [by apply (space_is_not_comma lead) | done |
                             by apply (space_is_not_comma a)].
Qed.

(** Every code that [home] takes from the form is non-empty, free
    of commas and of surrounding white space.  Conversely a list of such
    codes, written with a comma between two codes and any white space
    around the commas, is read back as it is. *)
Theorem parse_codes_reads_clean_codes :
  (forall input_codes, Forall clean (parse_codes input_codes))
  /\ (forall a b cs,
        all_space a -> all_space b -> Forall clean cs ->
        parse_codes (join (a ++ ","%char :: b) cs) = cs).
Proof.
  split.
  - intros s. unfold parse_codes. apply Forall_forall. intros c Hc.
    apply list_elem_of_In, filter_In in Hc as [Hc Hne].
    apply in_map_iff in Hc as (w & <- & Hw).
    split; [by destruct (strip w) | split; [apply strip_idempotent |]].
    pose proof (split_comma_pieces s) as Hall. rewrite Forall_forall in Hall.
    specialize (Hall w (proj2 (list_elem_of_In _ _) Hw)).
    destruct (strip_stretch w) as (x & y & E). unfold comma_free in *.
    intros Hin. apply Hall. rewrite E, !elem_of_app. auto.
  - intros a b cs Ha Hb Hcs. unfold parse_codes.
    destruct cs as [|c cs]; [done |].
    by apply (parse_codes_join a b (c :: cs) Ha Hb Hcs []).
Qed.

(** *** The pair check *)

Section Check.

Context {float : Type}.
Variable zero : float.
Variable add : float -> float -> float.
Variable round2 : float -> float.
Variable RVU_TABLE : gmap text float.
Variable CCI_TABLE : gmap (text * text) text.

#[local] Abbreviation check_pair_ := (check_pair CCI_TABLE).
#[local] Abbreviation check_subset_ := (check_subset CCI_TABLE).
#[local] Abbreviation combos_ := (combos zero add round2 RVU_TABLE CCI_TABLE).

(** The pair is barred: the table maps it to ["0"]. *)
Definition barred (c1 c2 : text) : bool :=
  bool_decide (CCI_TABLE !! (c1, c2) = Some (lit "0")).

(** The pairs of a list at positions [i < j], in the order of the
    loops. *)
Fixpoint ordered_pairs (s : list text) : list (text * text) :=
  match s with
  | [] => []
  | c :: rest => map (pair c) rest ++ ordered_pairs rest
  end.

Definition clear (s : list text) : bool :=
  forallb (fun p => negb (barred (fst p) (snd p))) (ordered_pairs s).

Lemma check_pair_valid (c1 c2 : text) (v : bool) (ns : list text) :
  fst (check_pair_ c1 c2 (v, ns)) = v && negb (barred c1 c2).
Proof.
  unfold check_pair, barred.
  destruct (CCI_TABLE !! (c1, c2)) as [m |];
    [| by rewrite bool_decide_eq_false_2, andb_true_r].
  case_bool_decide as E0.
  - subst m. by rewrite bool_decide_eq_true_2, andb_false_r.
  - rewrite (bool_decide_eq_false_2 (Some m = Some (lit "0")))
      by (by intros [= ?]).
    rewrite andb_true_r.
    by destruct (_ || _).
Qed.

Lemma check_row_valid (c1 : text) (rest : list text) :
  forall v ns,
    fst (fold_left (fun a c2 => check_pair_ c1 c2 a) rest (v, ns))
    = v && forallb (fun p => negb (barred (fst p) (snd p))) (map (pair c1) rest).
Proof.
  induction rest as [|c2 rest IH]; intros v ns; cbn [fold_left map forallb].
  - by rewrite andb_true_r.
  - destruct (check_pair_ c1 c2 (v, ns)) as [v' ns'] eqn:E.
    rewrite IH. pose proof (check_pair_valid c1 c2 v ns) as H.
    rewrite E in H. cbn [fst snd] in *. rewrite H. by rewrite andb_assoc.
Qed.

Lemma check_subset_valid (s : list text) :
  forall v ns, fst (check_subset_ s (v, ns)) = v && clear s.
Proof.
  unfold clear.
  induction s as [|c rest IH]; intros v ns;
    cbn [check_subset ordered_pairs forallb].
  - by rewrite andb_true_r.
  - destruct (fold_left _ rest (v, ns)) as [v' ns'] eqn:E.
    rewrite IH. pose proof (check_row_valid c rest v ns) as H.
    rewrite E in H. cbn [fst] in H. rewrite H.
    by rewrite forallb_app, andb_assoc.
Qed.

(** The notes of a list of codes: one for each pair, in the order of
    the loops, that the table maps to ["1"] or to ["9"]. *)
Definition modifier_notes_of_pair (c1 c2 : text) : list text :=
  match CCI_TABLE !! (c1, c2) with
  | Some m =>
      if bool_decide (m = lit "0") then []
      else if bool_decide (m = lit "1") || bool_decide (m = lit "9")
      then [note c1 c2 m]
      else []
  | None => []
  end.

Definition modifier_notes (s : list text) : list text :=
  flat_map (fun p => modifier_notes_of_pair (fst p) (snd p)) (ordered_pairs s).

Lemma check_pair_notes (c1 c2 : text) (v : bool) (ns : list text) :
  snd (check_pair_ c1 c2 (v, ns)) = ns ++ modifier_notes_of_pair c1 c2.
Proof.
  unfold check_pair, modifier_notes_of_pair. cbn [fst snd].
  destruct (CCI_TABLE !! (c1, c2)) as [m |]; [| by rewrite app_nil_r].
  case_bool_decide as E0.
  - subst m. cbn [snd]. by rewrite app_nil_r.
  - destruct (_ || _); cbn [snd]; [done | by rewrite app_nil_r].
Qed.

Lemma check_row_notes (c1 : text) (rest : list text) :
  forall v ns,
    snd (fold_left (fun a c2 => check_pair_ c1 c2 a) rest (v, ns))
    = ns ++ flat_map (fun p => modifier_notes_of_pair (fst p) (snd p))
              (map (pair c1) rest).
Proof.
  induction rest as [|c2 rest IH]; intros v ns; cbn [fold_left map flat_map].
  - by rewrite app_nil_r.
  - destruct (check_pair_ c1 c2 (v, ns)) as [v' ns'] eqn:E.
    rewrite IH. pose proof (check_pair_notes c1 c2 v ns) as H.
    rewrite E in H. cbn [fst snd] in *. rewrite H. by rewrite app_assoc.
Qed.

Lemma check_subset_notes (s : list text) :
  forall v ns, snd (check_subset_ s (v, ns)) = ns ++ modifier_notes s.
Proof.
  unfold modifier_notes.
  induction s as [|c rest IH]; intros v ns;
    cbn [check_subset ordered_pairs flat_map].
  - by rewrite app_nil_r.
  - destruct (fold_left _ rest (v, ns)) as [v' ns'] eqn:E.
    rewrite IH. pose proof (check_row_notes c rest v ns) as H.
    rewrite E in H. cbn [snd] in H. rewrite H.
    by rewrite flat_map_app, app_assoc.
Qed.

Lemma ordered_pairs_positions (s : list text) (c1 c2 : text) :
  In (c1, c2) (ordered_pairs s) <->
  exists i j, (i < j)%nat /\ s !! i = Some c1 /\ s !! j = Some c2.
Proof.
  induction s as [|c rest IH]; cbn [ordered_pairs].
  - split; [done |]. by intros (i & j & _ & H & _).
  - rewrite in_app_iff, in_map_iff, IH. split.
    + intros [(d & [= <- <-] & Hd) | (i & j & Hij & Hi & Hj)].
      * apply list_elem_of_In, list_elem_of_lookup in Hd as [j Hj].
        exists O, (S j). repeat split; [lia | done].
      * exists (S i), (S j). repeat split; [lia | done ..].
    + intros (i & j & Hij & Hi & Hj).
      destruct j as [|j]; [lia |]. cbn in Hj.
      destruct i as [|i].
      * left. injection Hi as <-. exists c2. split; [done |].
        apply list_elem_of_In. by eapply list_elem_of_lookup_2.
      * right. exists i, j. repeat split; [lia | done ..].
Qed.

Lemma clear_positions (s : list text) :
  clear s = true <->
  forall i j c1 c2,
    (i < j)%nat -> s !! i = Some c1 -> s !! j = Some c2 ->
    CCI_TABLE !! (c1, c2) <> Some (lit "0").
Proof.
  unfold clear. rewrite forallb_forall. split.
  - intros H i j c1 c2 Hij Hi Hj.
    assert (Hin : In (c1, c2) (ordered_pairs s)).
    { apply ordered_pairs_positions. by exists i, j. }
    specialize (H _ Hin). cbn [fst snd] in H. unfold barred in H.
    apply negb_true_iff in H. by apply bool_decide_eq_false in H.
  - intros H [c1 c2] Hin. cbn [fst snd].
    apply ordered_pairs_positions in Hin as (i & j & Hij & Hi & Hj).
    apply negb_true_iff. apply bool_decide_eq_false. by eapply H.
Qed.

Lemma try_subset_elem (s : list text) (cb : combo) :
  In cb (try_subset zero add round2 RVU_TABLE CCI_TABLE s) <->
  clear s = true
  /\ cb = {| codes := s;
             total := round2 (subset_total zero add RVU_TABLE s);
             notes := modifier_notes s |}.
Proof.
  unfold try_subset. pose proof (check_subset_valid s true []) as H.
  pose proof (check_subset_notes s true []) as H'.
  destruct (check_subset_ s (true, [])) as [v ns]. cbn [fst snd andb app] in *.
  subst v ns. destruct (clear s); cbn [In].
  - split; [intros [<- | []]; done | intros [_ ->]; by left].
  - split; [done | by intros [? _]].
Qed.

Lemma combos_elem (cs : list text) (cb : combo) :
  In cb (combos_ cs) <->
  codes cb <> [] /\ sublist (codes cb) cs /\ clear (codes cb) = true
  /\ cb = {| codes := codes cb;
             total := round2 (subset_total zero add RVU_TABLE (codes cb));
             notes := modifier_notes (codes cb) |}.
Proof.
  unfold combos. rewrite in_flat_map. split.
  - intros (r & Hr & Hcb). apply in_flat_map in Hcb as (s & Hs & Hcb).
    apply combinations_sublist in Hs as [Hsub Hlen].
    apply try_subset_elem in Hcb as [Hclear ->]. cbn [codes].
    apply in_seq in Hr. repeat split; [| done ..].
    intros ->. cbn [length] in Hlen. lia.
  - intros (Hne & Hsub & Hclear & E).
    exists (length (codes cb)). split.
    + apply in_seq. pose proof (sublist_length _ _ Hsub).
      destruct (codes cb); [done | cbn [length] in *; lia].
    + apply in_flat_map. exists (codes cb).
      split; [by apply combinations_sublist |].
      apply try_subset_elem. by split.
Qed.

(** The combinations that [home] keeps are exactly the non-empty
    sub-lists of the entered codes, taken by position and in their
    order, in which no code is followed by a code that the table bars
    it from (the table maps the pair to ["0"]).  The total of a kept
    combination is the rounded sum over its codes, a code without an
    RVU counting as zero, and its notes name, in the order of the
    loops, the pairs that the table maps to ["1"] or to ["9"]. *)
Theorem combos_are_the_unbarred_sublists (cs : list text) :
  (forall s,
     (exists cb, cb ∈ combos_ cs /\ codes cb = s) <->
     s <> [] /\ sublist s cs
     /\ forall i j c1 c2,
          (i < j)%nat -> s !! i = Some c1 -> s !! j = Some c2 ->
          CCI_TABLE !! (c1, c2) <> Some (lit "0"))
  /\ (forall cb,
        cb ∈ combos_ cs ->
        total cb = round2 (subset_total zero add RVU_TABLE (codes cb))
        /\ notes cb = modifier_notes (codes cb)).
Proof.
  split.
  - intros s. rewrite <- clear_positions. split.
    + intros (cb & Hcb & <-). apply list_elem_of_In, combos_elem in Hcb.
      tauto.
    + intros (Hne & Hsub & Hclear).
      exists {| codes := s;
                total := round2 (subset_total zero add RVU_TABLE s);
                notes := modifier_notes s |}.
      split; [| done]. apply list_elem_of_In, combos_elem. by cbn [codes].
  - intros cb Hcb. apply list_elem_of_In, combos_elem in Hcb as (_ & _ & _ & E).
    by rewrite E.
Qed.

(** *** A symmetric table makes the check blind to the order *)

Lemma clear_perm (s s' : list text) :
  symmetric CCI_TABLE -> s ≡ₚ s' -> clear s = clear s'.
Proof.
  intros Hsym Hperm. unfold clear.
  induction Hperm as [| x l l' Hperm IH | x y l | l l' l'' _ IH1 _ IH2].
  - done.
  - cbn [ordered_pairs]. rewrite !forallb_app, IH. f_equal.
    apply eq_true_iff_eq. rewrite !forallb_forall. split; intros H p Hp.
    + apply in_map_iff in Hp as (d & <- & Hd). apply H, in_map.
      apply list_elem_of_In. rewrite Hperm. by apply list_elem_of_In.
    + apply in_map_iff in Hp as (d & <- & Hd). apply H, in_map.
      apply list_elem_of_In. rewrite <- Hperm. by apply list_elem_of_In.
  - cbn [ordered_pairs map app forallb fst snd]. rewrite !forallb_app.
    assert (E : barred y x = barred x y).
    { unfold barred. by rewrite (Hsym y x). }
    rewrite E.
    destruct (barred x y), (forallb _ (map (pair y) l)),
             (forallb _ (map (pair x) l)); done.
  - congruence.
Qed.

End Check.

(** With the table that [load_cci_table] returns, whether a set of
    codes is kept does not depend on the order in which the codes were
    entered: when the entered codes are rearranged, every combination
    that was kept is kept again, as a rearrangement of itself. *)
Theorem kept_combinations_ignore_the_order {float : Type} (zero : float)
    (add : float -> float -> float) (round2 : float -> float)
    (RVU_TABLE : gmap text float) (file : option (list raw_row))
    (CCI_TABLE : gmap (text * text) text) (cs cs' : list text)
    (cb : combo) :
  load_cci_table file = Ok CCI_TABLE ->
  cs ≡ₚ cs' ->
  cb ∈ combos zero add round2 RVU_TABLE CCI_TABLE cs ->
  exists cb',
    cb' ∈ combos zero add round2 RVU_TABLE CCI_TABLE cs'
    /\ codes cb' ≡ₚ codes cb.
Proof.
  intros Hload Hperm Hcb.
  assert (Hsym : symmetric CCI_TABLE).
  { destruct file as [rows |]; cbn [load_cci_table] in Hload.
    - eapply load_rows_symmetric; [apply symmetric_empty | exact Hload].
    - injection Hload as <-. apply symmetric_empty. }
  apply list_elem_of_In, combos_elem in Hcb as (Hne & Hsub & Hclear & _).
  destruct (sublist_Permutation _ _ _ Hsub Hperm) as (s' & Hs' & Hsub').
  exists {| codes := s';
            total := round2 (subset_total zero add RVU_TABLE s');
            notes := modifier_notes CCI_TABLE s' |}.
  split; [| by cbn [codes]].
  apply list_elem_of_In, combos_elem. cbn [codes].
  repeat split; [| done |].
  - intros ->. apply Permutation_nil_r in Hs'. done.
  - by rewrite <- (clear_perm CCI_TABLE _ _ Hsym Hs').
Qed.

(** Two codes that [sample_rows] bars from each other, and a third. *)
Definition entered : list text := [lit "0001A"; lit "0591T"; lit "0002A"].

Lemma kept_combinations_ignore_the_order_witness :
  exists cb',
    cb' ∈ combos 0 Z.add id ∅ sample_table (rev entered)
    /\ codes cb' ≡ₚ [lit "0001A"; lit "0002A"].
Proof.
  apply (kept_combinations_ignore_the_order 0 Z.add id ∅ (Some sample_rows)
           sample_table entered (rev entered)
           {| codes := [lit "0001A"; lit "0002A"]; total := 0; notes := [] |}).
  - reflexivity.
  - apply Permutation_rev.
  - apply list_elem_of_In. vm_compute. tauto.
Defined.

End HomeFacts.

(** ** What the pair table holds, and when loading it fails *)
Module CciKeyFacts.
Import Text Cci TextFacts StripFacts.

#[local] Arguments is_space : simpl never.
#[local] Arguments strip : simpl never.

(** Every value of a normalised row is stripped. *)
Definition stripped_row (row : gmap text text) : Prop :=
  forall k v, row !! k = Some v -> strip v = v.

Lemma clean_value_stripped (v : csv_value) (s : text) :
  clean_value v = Ok s -> strip s = s.
Proof.
  destruct v as [f | | [|x l]]; cbn [clean_value]; intros [= <-];
    [apply strip_idempotent | done | done].
Qed.

Lemma normalise_row_stripped (raw : raw_row) :
  forall row row',
    stripped_row row -> normalise_row raw row = Ok row' -> stripped_row row'.
Proof.
  induction raw as [|[[k |] v] raw IH]; intros row row' Hrow;
    cbn [normalise_row].
  - by intros [= <-].
  - destruct (clean_value v) as [s |] eqn:Hv; [| discriminate].
    apply IH. intros k' v'.
    destruct (decide (normalise_key k = k')) as [<- | Hne].
    + rewrite lookup_insert_eq. intros [= <-].
      by eapply clean_value_stripped.
    + rewrite lookup_insert_ne by done. apply Hrow.
  - discriminate.
Qed.

Lemma first_nonempty_stripped (row : gmap text text) (keys : list string) :
  stripped_row row -> strip (first_nonempty row keys) = first_nonempty row keys.
Proof.
  intros Hrow. induction keys as [|k keys IH]; [done |].
  cbn [first_nonempty].
  destruct (row !! lit k) as [[|c s] |] eqn:E; [done | | done].
  by apply (Hrow (lit k)).
Qed.

(** The keys of the table are pairs of non-empty, stripped codes, and
    its values are stripped. *)
Definition clean_table (table : gmap (text * text) text) : Prop :=
  forall c1 c2 m,
    table !! (c1, c2) = Some m ->
    c1 <> [] /\ c2 <> [] /\ strip c1 = c1 /\ strip c2 = c2 /\ strip m = m.

Lemma add_row_clean (table : gmap (text * text) text) (row : gmap text text) :
  stripped_row row -> clean_table table -> clean_table (add_row table row).
Proof.
  intros Hrow Htable. unfold add_row.
  pose proof (first_nonempty_stripped row
                ["column1"; "col1"; "c1"; "column"]%string Hrow) as H1.
  pose proof (first_nonempty_stripped row ["column2"; "col2"; "c2"]%string Hrow)
    as H2.
  pose proof (first_nonempty_stripped row ["modifier"; "mod"]%string Hrow)
    as Hm.
  destruct (first_nonempty row ["column1"; "col1"; "c1"; "column"]%string)
    as [|x1 c1]; [done |].
  destruct (first_nonempty row ["column2"; "col2"; "c2"]%string)
    as [|x2 c2]; [done |].
  intros a b m.
  destruct (decide ((x2 :: c2, x1 :: c1) = (a, b))) as [[= <- <-] | N1].
  - rewrite lookup_insert_eq. by intros [= <-].
  - rewrite lookup_insert_ne by done.
    destruct (decide ((x1 :: c1, x2 :: c2) = (a, b))) as [[= <- <-] | N2].
    + rewrite lookup_insert_eq. by intros [= <-].
    + rewrite lookup_insert_ne by done. apply Htable.
Qed.

Lemma load_rows_clean (rows : list raw_row) :
  forall table table',
    clean_table table -> load_rows rows table = Ok table' -> clean_table table'.
Proof.
  induction rows as [|raw rows IH]; intros table table' Htable;
    cbn [load_rows].
  - by intros [= <-].
  - destruct (normalise_row raw ∅) as [row |] eqn:Hrow; [| discriminate].
    apply IH. apply add_row_clean; [| done].
    eapply normalise_row_stripped; [| exact Hrow].
    intros k v. by rewrite lookup_empty.
Qed.

(** In a table returned by [load_cci_table] every key is a pair of
    codes that are non-empty and free of surrounding white space, and
    every modifier is free of surrounding white space: a code entered
    in the form, which is stripped in the same way, is compared with
    codes in the same form. *)
Theorem load_cci_table_holds_stripped_codes (file : option (list raw_row))
    (table : gmap (text * text) text) (c1 c2 m : text) :
  load_cci_table file = Ok table ->
  table !! (c1, c2) = Some m ->
  c1 <> [] /\ c2 <> [] /\ strip c1 = c1 /\ strip c2 = c2 /\ strip m = m.
Proof.
  intros Hload. revert c1 c2 m. fold (clean_table table).
  destruct file as [rows |]; cbn [load_cci_table] in Hload.
  - eapply load_rows_clean; [| exact Hload].
    intros c1 c2 m. by rewrite lookup_empty.
  - injection Hload as <-. intros c1 c2 m. by rewrite lookup_empty.
Qed.

Definition two_rows : list raw_row :=
  [ [(Some (lit "Col 1"), Field (lit " A "));
     (Some (lit "COL-2"), Field (lit "B"));
     (Some (lit "Mod"), Field (lit " 1"))] ].

Lemma load_cci_table_holds_stripped_codes_witness :
  lit "A" <> [] /\ lit "B" <> []
  /\ strip (lit "A") = lit "A" /\ strip (lit "B") = lit "B"
  /\ strip (lit "1") = lit "1".
Proof.
  apply (load_cci_table_holds_stripped_codes (Some two_rows)
           (<[(lit "B", lit "A") := lit "1"]>
              (<[(lit "A", lit "B") := lit "1"]> ∅))
           (lit "A") (lit "B") (lit "1")).
  - reflexivity.
  - reflexivity.
Defined.

(** *** Failure *)

(** A row has a surplus when the line held more fields than the header:
    [csv.DictReader] then puts the list of the extra fields under the
    key [None]. *)
Definition has_surplus (raw : raw_row) : Prop :=
  exists v, (None, v) ∈ raw.

(** A row as [csv.DictReader] builds it: a surplus list stands under the
    key [None] only. *)
Definition reader_row (raw : raw_row) : Prop :=
  forall k l, (Some k, Surplus l) ∉ raw.

Lemma normalise_row_reader (raw : raw_row) :
  reader_row raw ->
  forall row,
    (exists row', normalise_row raw row = Ok row' /\ ~ has_surplus raw)
    \/ (normalise_row raw row = Raise AttributeError /\ has_surplus raw).
Proof.
  unfold reader_row, has_surplus.
  induction raw as [|[[k |] v] raw IH]; intros Hraw row;
    cbn [normalise_row].
  - left. eexists. split; [done |]. by intros [v H%elem_of_nil].
  - assert (Hraw' : forall k l, (Some k, Surplus l) ∉ raw).
    { intros k' l H. apply (Hraw k' l). by apply elem_of_cons; right. }
    destruct v as [f | | l]; cbn [clean_value].
    + destruct (IH Hraw' (<[normalise_key k := strip f]> row))
        as [(row' & -> & Hno) | [-> Hs]].
      * left. eexists. split; [done |]. intros [v H%elem_of_cons].
        destruct H as [[=] | H]. apply Hno. by exists v.
      * right. split; [done |]. destruct Hs as [v Hv]. exists v.
        by apply elem_of_cons; right.
    + destruct (IH Hraw' (<[normalise_key k := []]> row))
        as [(row' & -> & Hno) | [-> Hs]].
      * left. eexists. split; [done |]. intros [v H%elem_of_cons].
        destruct H as [[=] | H]. apply Hno. by exists v.
      * right. split; [done |]. destruct Hs as [v Hv]. exists v.
        by apply elem_of_cons; right.
    + exfalso. apply (Hraw k l). by apply elem_of_cons; left.
  - right. split; [done |]. exists v. by apply elem_of_cons; left.
Qed.

(** On the rows of a [csv.DictReader], [load_cci_table] raises
    exactly when some line of the file holds more fields than the
    header, and what it raises is the [AttributeError] of [None.lower()];
    a missing file and lines that are too short never make it raise. *)
Theorem load_cci_table_fails_on_surplus_fields
    (file : option (list raw_row)) :
  (forall rows, file = Some rows -> Forall reader_row rows) ->
  (forall e,
     load_cci_table file = Raise e ->
     e = AttributeError
     /\ exists rows, file = Some rows /\ Exists has_surplus rows)
  /\ ((exists rows, file = Some rows /\ Exists has_surplus rows) ->
      load_cci_table file = Raise AttributeError).
Proof.
  intros Hfile.
  destruct file as [rows |]; cbn [load_cci_table].
  2: { split; [discriminate | by intros (rows & [=] & _)]. }
  specialize (Hfile rows eq_refl).
  assert (Hgen : forall table,
            (exists table', load_rows rows table = Ok table'
                            /\ ~ Exists has_surplus rows)
            \/ (load_rows rows table = Raise AttributeError
                /\ Exists has_surplus rows)).
  { induction Hfile as [|raw rows Hraw _ IH]; intros table; cbn [load_rows].
    - left. eexists. split; [done |]. by intros H%Exists_nil.
    - destruct (normalise_row_reader raw Hraw ∅)
        as [(row & -> & Hno) | [-> Hs]].
      + destruct (IH (add_row table row)) as [(t' & -> & Hno') | [-> Hs]].
        * left. eexists. split; [done |]. intros H%Exists_cons. tauto.
        * right. split; [done |]. by apply Exists_cons; right.
      + right. split; [done |]. by apply Exists_cons; left. }
  split.
  - intros e He. destruct (Hgen ∅) as [(t' & E & _) | [E Hs]];
      rewrite E in He; [discriminate |].
    injection He as <-. split; [done |]. by exists rows.
  - intros (rows' & [= <-] & Hs).
    destruct (Hgen ∅) as [(t' & _ & Hno) | [E _]]; [done | exact E].
Qed.

Definition long_line : list raw_row :=
  [ [(Some (lit "Column 1"), Field (lit "A"));
     (Some (lit "Column 2"), Field (lit "B"));
     (None, Surplus [lit "extra"])] ].

Lemma load_cci_table_fails_on_surplus_fields_witness :
  (forall e,
     load_cci_table (Some long_line) = Raise e ->
     e = AttributeError
     /\ exists rows, Some long_line = Some rows /\ Exists has_surplus rows)
  /\ ((exists rows, Some long_line = Some rows /\ Exists has_surplus rows) ->
      load_cci_table (Some long_line) = Raise AttributeError).
Proof.
  apply (load_cci_table_fails_on_surplus_fields (Some long_line)).
  intros rows [= <-]. repeat constructor.
  intros k l H. repeat (apply elem_of_cons in H as [[=] | H]).
  by apply elem_of_nil in H.
Defined.

End CciKeyFacts.

(** ** The RVU table *)
Module RvuFacts.
Import Text Cci Rvu TextFacts StripFacts CciKeyFacts.

#[local] Arguments is_space : simpl never.
#[local] Arguments strip : simpl never.

(** The line held no field for the column [code]. *)
Definition lacks_code (raw : raw_row) : Prop :=
  row_get raw (lit "code") = Some Missing.

Lemma row_get_elem (raw : raw_row) (k : text) (v : csv_value) :
  row_get raw k = Some v -> (Some k, v) ∈ raw.
Proof.
  unfold row_get.
  destruct (List.find _ raw) as [[k' v'] |] eqn:E; [| discriminate].
  intros [= <-]. apply find_some in E as [Hin Hk].
  apply bool_decide_eq_true in Hk. cbn [fst] in Hk. subst k'.
  by apply list_elem_of_In.
Qed.

Lemma rvu_code_reader (raw : raw_row) :
  reader_row raw ->
  (exists code, rvu_code raw = Ok code /\ strip code = code /\ ~ lacks_code raw)
  \/ (rvu_code raw = Raise AttributeError /\ lacks_code raw).
Proof.
  intros Hraw. unfold rvu_code, lacks_code.
  destruct (row_get raw (lit "code")) as [[s | | l] |] eqn:E.
  - left. exists (strip s). split; [done |].
    split; [apply strip_idempotent | discriminate].
  - by right.
  - apply row_get_elem in E. by destruct (Hraw _ _ E).
  - left. exists []. split; [done |]. split; [done | discriminate].
Qed.

Section Load.

Context {float : Type}.
Variable zero : float.
Variable float_of_text : text -> option float.

#[local] Abbreviation load_rvu_rows_ := (load_rvu_rows zero float_of_text).
#[local] Abbreviation load := (load_rvu_table zero float_of_text).

Definition clean_keys (table : gmap text float) : Prop :=
  forall code x, table !! code = Some x -> code <> [] /\ strip code = code.

Lemma load_rvu_rows_spec (rows : list raw_row) :
  Forall reader_row rows ->
  forall table,
    clean_keys table ->
    (exists table', load_rvu_rows_ rows table = Ok table'
                    /\ clean_keys table' /\ ~ Exists lacks_code rows)
    \/ (load_rvu_rows_ rows table = Raise AttributeError /\ Exists lacks_code rows).
Proof.
  induction 1 as [|raw rows Hraw _ IH]; intros table Htable;
    cbn [load_rvu_rows].
  - left. exists table. split; [done |]. split; [done |].
    by intros H%Exists_nil.
  - destruct (rvu_code_reader raw Hraw)
      as [(code & -> & Hstrip & Hno) | [-> Hlack]].
    + assert (Hnext : forall t, clean_keys t ->
                (exists table', load_rvu_rows_ rows t = Ok table'
                   /\ clean_keys table' /\ ~ Exists lacks_code (raw :: rows))
                \/ (load_rvu_rows_ rows t = Raise AttributeError
                    /\ Exists lacks_code (raw :: rows))).
      { intros t Ht. destruct (IH t Ht) as [(t' & -> & Ht' & Hno') | [-> Hex]].
        - left. exists t'. split; [done |]. split; [done |].
          intros H%Exists_cons. tauto.
        - right. split; [done |]. by apply Exists_cons; right. }
      destruct code as [|c code]; [by apply Hnext |].
      apply Hnext. intros k x.
      destruct (decide (c :: code = k)) as [<- | Hne].
      * intros _. done.
      * rewrite lookup_insert_ne by done. apply Htable.
    + right. split; [done |]. by apply Exists_cons; left.
Qed.

(** On the rows of a [csv.DictReader], [load_rvu_table] raises
    exactly when the header has a column [code] and some line is too
    short to reach it, and what it raises is the [AttributeError] of
    [None.strip()], which the [try] around [float] does not cover.
    When it returns, every key of the table is a non-empty code free of
    surrounding white space. *)
Theorem load_rvu_table_fails_on_a_missing_code
    (file : option (list raw_row)) :
  (forall rows, file = Some rows -> Forall reader_row rows) ->
  (forall e,
     load file = Raise e <->
     e = AttributeError
     /\ exists rows, file = Some rows /\ Exists lacks_code rows)
  /\ (forall table code x,
        load file = Ok table -> table !! code = Some x ->
        code <> [] /\ strip code = code).
Proof.
  intros Hfile. destruct file as [rows |]; cbn [load_rvu_table].
  2: { split.
       - intros e. split; [discriminate | by intros (_ & rows & [=] & _)].
       - intros table code x [= <-]. by rewrite lookup_empty. }
  specialize (Hfile rows eq_refl).
  assert (Hempty : clean_keys ∅).
  { intros code x. by rewrite lookup_empty. }
  destruct (load_rvu_rows_spec rows Hfile ∅ Hempty)
    as [(t' & E & Hclean & Hno) | [E Hex]]; rewrite E.
  - split.
    + intros e. split; [discriminate |].
      intros (_ & rows' & [= <-] & Hex). done.
    + intros table code x [= <-]. apply Hclean.
  - split.
    + intros e. split.
      * intros [= <-]. split; [done |]. by exists rows.
      * by intros [-> _].
    + discriminate.
Qed.

End Load.

Definition short_line : list raw_row :=
  [ [(Some (lit "code"), Field (lit " 99213 "));
     (Some (lit "work_rvu"), Field (lit "1.3"))];
    [(Some (lit "code"), Missing); (Some (lit "work_rvu"), Missing)] ].

Lemma load_rvu_table_fails_on_a_missing_code_witness :
  (forall e,
     load_rvu_table 0 (fun _ => Some 1) (Some short_line) = Raise e <->
     e = AttributeError
     /\ exists rows, Some short_line = Some rows /\ Exists lacks_code rows)
  /\ (forall table code x,
        load_rvu_table 0 (fun _ => Some 1) (Some short_line) = Ok table ->
        table !! code = Some x ->
        code <> [] /\ strip code = code).
Proof.
  apply (load_rvu_table_fails_on_a_missing_code 0 (fun _ => Some 1)
           (Some short_line)).
  intros rows [= <-]. repeat constructor;
    intros k l H; repeat (apply elem_of_cons in H as [[=] | H]);
    by apply elem_of_nil in H.
Defined.

End RvuFacts.

(** ** From the merged file to the pair table *)
Module PipelineFacts.
Import Text Frame Cci TextFacts StripFacts TableFacts.

#[local] Arguments is_space : simpl never.
#[local] Arguments strip : simpl never.

(** The rows that [csv.DictReader] yields for a header and lines of as
    many fields as the header: [dict(zip(fieldnames, line))]. *)
Definition dict_rows (header : list text) (lines : list (list text))
    : list raw_row :=
  map (fun line => combine (map Some header) (map Field line)) lines.

(** What one line adds to the pair table: the stripped fields at the
    given positions of the two codes and of the modifier. *)
Definition add_pair (i1 i2 im : nat) (table : gmap (text * text) text)
    (line : list text) : gmap (text * text) text :=
  let c1 := strip (nth i1 line []) in
  let c2 := strip (nth i2 line []) in
  let m := strip (nth im line []) in
  match c1, c2 with
  | _ :: _, _ :: _ => <[(c2, c1) := m]> (<[(c1, c2) := m]> table)
  | _, _ => table
  end.

Ltac lookup_key :=
  repeat first
    [ rewrite lookup_insert_eq
    | rewrite lookup_insert_ne by (let E := fresh in intros E; vm_compute in E; discriminate E)
    | rewrite lookup_empty ].

Lemma first_nonempty_found (row : gmap text text) (k : string)
    (ks : list string) (v : text) :
  row !! lit k = Some v ->
  Forall (fun k' => row !! lit k' = None) ks ->
  first_nonempty row (k :: ks) = v.
Proof.
  intros Hk Hks. cbn [first_nonempty]. rewrite Hk.
  destruct v as [|c v]; [| done].
  induction Hks as [|k' ks Hk' _ IH]; [done |].
  cbn [first_nonempty]. by rewrite Hk'.
Qed.

(** One line of the merged file, as [load_cci_table] sees it. *)
Lemma merged_line_row (f0 f1 f2 f3 f4 f5 f6 : text)
    (table : gmap (text * text) text) :
  exists row,
    normalise_row
      (combine (map Some merged_header) (map Field [f0; f1; f2; f3; f4; f5; f6]))
      ∅ = Ok row
    /\ add_row table row = add_pair 1 2 5 table [f0; f1; f2; f3; f4; f5; f6].
Proof.
  assert (K0 : normalise_key (lit "*=in existence") = lit "inexistence")
    by (vm_compute; reflexivity).
  assert (K1 : normalise_key (lit "Column 1") = lit "column1")
    by (vm_compute; reflexivity).
  assert (K2 : normalise_key (lit "Column 2") = lit "column2")
    by (vm_compute; reflexivity).
  assert (K3 : normalise_key (lit "Deletion") = lit "deletion")
    by (vm_compute; reflexivity).
  assert (K4 : normalise_key (lit "Effective") = lit "effective")
    by (vm_compute; reflexivity).
  assert (K5 : normalise_key (lit "Modifier") = lit "modifier")
    by (vm_compute; reflexivity).
  assert (K6 : normalise_key (lit "PTP Edit Rationale") = lit "ptpeditrationale")
    by (vm_compute; reflexivity).
  eexists. split.
  - unfold merged_header. cbn [map combine normalise_row clean_value].
    rewrite K0, K1, K2, K3, K4, K5, K6. reflexivity.
  - unfold add_row, add_pair. cbn [nth].
    rewrite (first_nonempty_found _ "column1" _ (strip f1)).
    2: { by lookup_key. }
    2: { repeat constructor; by lookup_key. }
    rewrite (first_nonempty_found _ "column2" _ (strip f2)).
    2: { by lookup_key. }
    2: { repeat constructor; by lookup_key. }
    rewrite (first_nonempty_found _ "modifier" _ (strip f5)).
    2: { by lookup_key. }
    2: { repeat constructor; by lookup_key. }
    reflexivity.
Qed.

Lemma load_merged_lines (lines : list (list text)) :
  Forall (fun line => length line = 7%nat) lines ->
  forall table,
    load_rows (dict_rows merged_header lines) table
    = Ok (fold_left (add_pair 1 2 5) lines table).
Proof.
  induction 1 as [|line lines Hlen _ IH]; intros table; [done |].
  destruct line as [|f0 [|f1 [|f2 [|f3 [|f4 [|f5 [|f6 [|]]]]]]]];
    try discriminate.
  cbn [dict_rows map load_rows fold_left].
  destruct (merged_line_row f0 f1 f2 f3 f4 f5 f6 table) as (row & Hrow & Hadd).
  cbn [map] in Hrow. rewrite Hrow, Hadd. apply IH.
Qed.

(** The text of a cell in the merged file.  Before pandas 3
    [astype(str)] has made the string "nan" of a missing cell of the
    sheet; from pandas 3 on the cell is still missing when the file is
    written, and its field is empty. *)
Definition cell_text (pandas : pandas_version) (c : cell) : text :=
  Frame.csv_value (astype_str pandas c).

(** What one row of a source table adds to the pair table. *)
Definition add_source_row (pandas : pandas_version)
    (table : gmap (text * text) text) (row : list cell)
    : gmap (text * text) text :=
  add_pair 0 1 5 table (map (cell_text pandas) row).

Lemma add_pair_reorder (pandas : pandas_version)
    (table : gmap (text * text) text) (row : list cell) :
  length row = 7%nat ->
  add_pair 1 2 5 table
    (map Frame.csv_value (reorder (map (astype_str pandas) row)))
  = add_source_row pandas table row.
Proof.
  intros Hlen.
  destruct row as [|c0 [|c1 [|c2 [|c3 [|c4 [|c5 [|c6 [|]]]]]]]];
    try discriminate.
  reflexivity.
Qed.

Lemma fold_add_pair_reorder (pandas : pandas_version) (rs : list (list cell)) :
  Forall (fun row => length row = 7%nat) rs ->
  forall table,
    fold_left (add_pair 1 2 5)
      (map (map Frame.csv_value)
         (map (fun row => reorder (map (astype_str pandas) row)) rs))
      table
    = fold_left (add_source_row pandas) rs table.
Proof.
  induction 1 as [|row rs Hlen _ IH]; intros table; [done |].
  cbn [map fold_left]. rewrite (add_pair_reorder pandas table row Hlen).
  apply IH.
Qed.

Lemma add_pair_keeps (i1 i2 im : nat) (table : gmap (text * text) text)
    (line : list text) (k : text * text) :
  is_Some (table !! k) -> is_Some (add_pair i1 i2 im table line !! k).
Proof.
  intros H. unfold add_pair.
  destruct (strip (nth i1 line [])) as [|x1 c1]; [done |].
  destruct (strip (nth i2 line [])) as [|x2 c2]; [done |].
  rewrite !lookup_insert_is_Some'. auto.
Qed.

Lemma fold_add_source_keeps (pandas : pandas_version) (rs : list (list cell))
    (k : text * text) :
  forall table,
    is_Some (table !! k) ->
    is_Some (fold_left (add_source_row pandas) rs table !! k).
Proof.
  induction rs as [|row rs IH]; intros table H; [done |].
  cbn [fold_left]. by apply IH, add_pair_keeps.
Qed.

(** From pandas 3 on, a row with a missing code adds nothing. *)
Lemma missing_code_is_skipped (table : gmap (text * text) text)
    (row : list cell) :
  nth 0 row NaN = NaN \/ nth 1 row NaN = NaN ->
  add_source_row Pandas3 table row = table.
Proof.
  unfold add_source_row, add_pair.
  destruct row as [| c0 [| c1 row]]; cbn [map nth]; intros [H | H];
    try done; subst; cbn [cell_text astype_str Frame.csv_value];
    change (strip []) with (@nil ascii); try done.
  all: by destruct (strip _).
Qed.

(** The file that the pipeline writes is the file that the
    application reads.  When both downloaded files hold a table of
    seven columns, and the fields of the merged file are read back as
    they were written, [load_cci_table] does not raise and its table is
    built from the rows of the first file, then of the second: each row
    gives the first column as one code, the second as the other and the
    sixth as the modifier, all stripped, and is skipped when a code is
    empty; a later row replaces what an earlier one said of the same
    pair.  What a missing cell of the sheet gives depends on pandas.
    Before pandas 3 it is written as [nan], and a row whose two code
    cells are both missing leaves the pair of codes [nan], [nan] in the
    table.  From pandas 3 on it is written as an empty field, and a row
    with a missing code is skipped. *)
Theorem merged_file_feeds_the_pair_table_under_pandas
    (pandas : pandas_version) (d1 d2 : DataFrame) :
  length (columns d1) = 7%nat -> length (columns d2) = 7%nat ->
  rectangular d1 -> rectangular d2 ->
  exists M,
    _concat_dfs [normalise pandas d1; normalise pandas d2] = Ok M
    /\ load_cci_table
         (Some (dict_rows (columns M) (map (map Frame.csv_value) (rows M))))
       = Ok (fold_left (add_source_row pandas) (rows d1 ++ rows d2) ∅)
    /\ (pandas = Pandas2 ->
        (exists row, row ∈ rows d1 ++ rows d2
                     /\ nth 0 row NaN = NaN /\ nth 1 row NaN = NaN) ->
        is_Some (fold_left (add_source_row pandas) (rows d1 ++ rows d2) ∅
                 !! (lit "nan", lit "nan")))
    /\ (pandas = Pandas3 ->
        forall table row,
          nth 0 row NaN = NaN \/ nth 1 row NaN = NaN ->
          add_source_row pandas table row = table).
Proof.
  intros H1 H2 R1 R2.
  assert (Hwide : Forall (fun row => length row = 7%nat) (rows d1 ++ rows d2)).
  { apply Forall_app. unfold rectangular in *. rewrite H1 in R1.
    rewrite H2 in R2. done. }
  eexists. split; [by apply seven_column_merge |].
  cbn [columns rows load_cci_table]. split; [| split].
  - rewrite load_merged_lines.
    + by rewrite fold_add_pair_reorder.
    + apply Forall_forall. intros line Hline. apply list_elem_of_In in Hline.
      apply in_map_iff in Hline as (r & <- & Hr).
      apply in_map_iff in Hr as (r0 & <- & _). reflexivity.
  - intros -> (row & Hin & Hc1 & Hc2).
    apply list_elem_of_In, in_split in Hin as (pre & post & E).
    rewrite E, fold_left_app. cbn [fold_left].
    apply fold_add_source_keeps. unfold add_source_row at 1.
    rewrite E in Hwide. apply Forall_app in Hwide as [_ Hwide].
    inversion Hwide as [| r rs Hlen _]; subst.
    destruct row as [|c0 [|c1 [|c2 [|c3 [|c4 [|c5 [|c6 [|]]]]]]]];
      try discriminate.
    cbn [nth] in Hc1, Hc2. subst c0 c1.
    unfold add_pair. cbn [map nth cell_text astype_str Frame.csv_value].
    change (strip (lit "nan")) with (lit "nan").
    cbn [lit list_ascii_of_string]. rewrite lookup_insert_eq. by eexists.
  - intros -> table row. apply missing_code_is_skipped.
Qed.

Definition sheet : DataFrame :=
  {| columns := [lit "a"; lit "b"; lit "c"; lit "d"; lit "e"; lit "f"; lit "g"];
     rows := [[Str (lit "0001A"); Str (lit "0591T"); Str (lit "*");
               Str (lit "20210101"); Str (lit "*"); Str (lit "1");
               Str (lit "Misuse")];
              [NaN; NaN; NaN; NaN; NaN; NaN; NaN]] |}.

Lemma merged_file_feeds_the_pair_table_under_pandas_witness :
  exists M,
    _concat_dfs [normalise Pandas3 sheet; normalise Pandas3 sheet] = Ok M
    /\ load_cci_table
         (Some (dict_rows (columns M) (map (map Frame.csv_value) (rows M))))
       = Ok (fold_left (add_source_row Pandas3) (rows sheet ++ rows sheet) ∅)
    /\ (Pandas3 = Pandas2 ->
        (exists row, row ∈ rows sheet ++ rows sheet
                     /\ nth 0 row NaN = NaN /\ nth 1 row NaN = NaN) ->
        is_Some (fold_left (add_source_row Pandas3) (rows sheet ++ rows sheet) ∅
                 !! (lit "nan", lit "nan")))
    /\ (Pandas3 = Pandas3 ->
        forall table row,
          nth 0 row NaN = NaN \/ nth 1 row NaN = NaN ->
          add_source_row Pandas3 table row = table).
Proof.
  apply (merged_file_feeds_the_pair_table_under_pandas Pandas3 sheet sheet);
    try reflexivity; by repeat constructor.
Defined.

(** The pair table of that sheet under the two pandas: the second row
    gives the pair [nan], [nan] before pandas 3 and nothing after. *)
Lemma pair_table_of_sheet_by_pandas :
  fold_left (add_source_row Pandas2) (rows sheet) ∅
  = <[(lit "nan", lit "nan") := lit "nan"]>
      (<[(lit "0591T", lit "0001A") := lit "1"]>
         (<[(lit "0001A", lit "0591T") := lit "1"]> ∅))
  /\ fold_left (add_source_row Pandas3) (rows sheet) ∅
     = <[(lit "0591T", lit "0001A") := lit "1"]>
         (<[(lit "0001A", lit "0591T") := lit "1"]> ∅).
Proof. split; reflexivity. Qed.

End PipelineFacts.
